(** * Personal Library API: the store, the validators and the request layer

    A shallow embedding of [src/validators.js], [src/store.js],
    [src/server.js] and the scenario of [tools/smoke-test.js].

    - A JavaScript object is a finite map from property names to JSON values
      ([gmap string json]); the spread [{...a, ...b}] is the right-biased
      union of the two maps.
    - The in-memory document [state.books] is a list of objects.
    - A string is the UTF-8 text of a JavaScript string made of code
      points.  [<] on strings compares UTF-16 code units, [trim] removes
      the white space and the line terminators of the language, and
      [toLowerCase], the case mapping of Unicode, is an interface,
      [CaseMapping].  [toUpperCase] is applied to ISBNs only, which the
      patterns of the schema restrict to ASCII.
    - The server clock ([new Date().toISOString()]) and the id generator
      ([uuidv4()]) are inputs of each handler.
    - Ajv and ajv-formats are third-party packages.  The validator follows
      Ajv for the keywords the schemas use, with the options set in
      [validators.js] ([allErrors], [removeAdditional: 'failing']); the
      three string formats are an interface, [Formats].
    - [Number(...)] on a value of the query string is the conversion of
      the language, an interface, [Conversions].
    - Each handler is one atomic transition of the store: requests are
      served one after the other.
    - The store is the in-memory document.  Writing it to the data file
      ([_enqueueWrite], [_flush]) changes no record and is left out. *)

From Stdlib Require Import Ascii QArith Qcanon.
From stdpp Require Import gmap strings list fin_maps numbers pretty sorting.

Local Open Scope string_scope.
Local Open Scope Z_scope.

(** ** JavaScript values *)

Module Js.

#[warnings="-register-all"] Inductive json :=
| JNull
| JBool (b : bool)
| JNum (q : Qc)
| JStr (s : string)
| JArr (l : list json)
| JObj (o : gmap string json).

(** [Boolean(v)]; [None] is [undefined]. *)
Definition truthy (v : option json) : bool :=
  match v with
  | None | Some JNull => false
  | Some (JBool b) => b
  | Some (JNum q) => negb (bool_decide (q = Q2Qc 0))
  | Some (JStr s) => negb (bool_decide (s = ""))
  | Some (JArr _) | Some (JObj _) => true
  end.

(** [a || b] *)
Definition js_or (a b : option json) : option json :=
  if truthy a then a else b.

(** [a === b] on primitives.  Two arrays or two objects are [===] only
    when they are the same reference; the ids compared below are strings. *)
Definition strict_eq (a b : option json) : bool :=
  match a, b with
  | None, None => true
  | Some JNull, Some JNull => true
  | Some (JBool x), Some (JBool y) => bool_decide (x = y)
  | Some (JNum x), Some (JNum y) => bool_decide (x = y)
  | Some (JStr x), Some (JStr y) => bool_decide (x = y)
  | _, _ => false
  end.

(** The own enumerable properties copied by [{...v}]. *)
Definition indexed {A} (l : list A) : gmap string A :=
  list_to_map (imap (λ i x, (pretty i, x)) l).

Definition chars (s : string) : list json :=
  (λ c, JStr (String c "")) <$> String.list_ascii_of_string s.

Definition spread (v : json) : gmap string json :=
  match v with
  | JObj o => o
  | JArr l => indexed l
  | JStr s => indexed (chars s)
  | _ => ∅
  end.

(** [{...o, k: v}] where [v] may be [undefined]: a property holding
    [undefined] reads as absent in the validators and in JSON output. *)
Definition set_prop (k : string) (v : option json) (o : gmap string json)
  : gmap string json :=
  match v with
  | Some x => <[k := x]> o
  | None => delete k o
  end.

(** [v.k]; the outer [None] is the TypeError raised on [null]. *)
Definition get_prop (v : json) (k : string) : option (option json) :=
  match v with
  | JNull => None
  | JObj o => Some (o !! k)
  | _ => Some None
  end.

(** *** Strings *)

Definition is_upper (c : ascii) : bool :=
  ((65 <=? N_of_ascii c) && (N_of_ascii c <=? 90))%N.
Definition is_lower (c : ascii) : bool :=
  ((97 <=? N_of_ascii c) && (N_of_ascii c <=? 122))%N.
Definition is_digit (c : ascii) : bool :=
  ((48 <=? N_of_ascii c) && (N_of_ascii c <=? 57))%N.
Definition is_space (c : ascii) : bool :=
  (((9 <=? N_of_ascii c) && (N_of_ascii c <=? 13)) || (N_of_ascii c =? 32))%N.

Definition lower_char (c : ascii) : ascii :=
  if is_upper c then ascii_of_N (N_of_ascii c + 32) else c.
Definition upper_char (c : ascii) : ascii :=
  if is_lower c then ascii_of_N (N_of_ascii c - 32) else c.

Fixpoint map_chars (f : ascii → ascii) (s : string) : string :=
  match s with
  | EmptyString => EmptyString
  | String c r => String (f c) (map_chars f r)
  end.

Definition toUpperCase : string → string := map_chars upper_char.

Fixpoint all_chars (p : ascii → bool) (s : string) : bool :=
  match s with
  | EmptyString => true
  | String c r => p c && all_chars p r
  end.

Definition is_ascii (s : string) : bool :=
  all_chars (λ c, (N_of_ascii c <? 128)%N) s.

(** [s.toLowerCase()]: the locale-insensitive case mapping of the Unicode
    Character Database.  On a string of ASCII characters it turns the
    letters [A]-[Z] into [a]-[z] and leaves the rest. *)
Class CaseMapping := {
  toLowerCase : string → string;
  toLowerCase_ascii s :
    is_ascii s = true → toLowerCase s = map_chars lower_char s
}.

(** *** White space

    [trim] removes the code points WhiteSpace and LineTerminator of the
    language: U+0009 to U+000D, U+0020, U+00A0, U+1680, U+2000 to U+200A,
    U+2028, U+2029, U+202F, U+205F, U+3000 and U+FEFF, here in UTF-8. *)
Definition byte (n : N) (c : ascii) : bool := (N_of_ascii c =? n)%N.

Definition is_space2 (c1 c2 : ascii) : bool :=
  byte 194 c1 && byte 160 c2.                              (* U+00A0 *)

Definition is_space3 (c1 c2 c3 : ascii) : bool :=
  (byte 225 c1 && byte 154 c2 && byte 128 c3)              (* U+1680 *)
  || (byte 226 c1 && byte 128 c2
      && (((128 <=? N_of_ascii c3) && (N_of_ascii c3 <=? 138))%N
                                                  (* U+2000 to U+200A *)
          || byte 168 c3 || byte 169 c3           (* U+2028, U+2029 *)
          || byte 175 c3))                        (* U+202F *)
  || (byte 226 c1 && byte 129 c2 && byte 159 c3)           (* U+205F *)
  || (byte 227 c1 && byte 128 c2 && byte 128 c3)           (* U+3000 *)
  || (byte 239 c1 && byte 187 c2 && byte 191 c3).          (* U+FEFF *)

(** The string is one white space character. *)
Definition is_white_space (s : string) : bool :=
  match s with
  | String c EmptyString => is_space c
  | String c1 (String c2 EmptyString) => is_space2 c1 c2
  | String c1 (String c2 (String c3 EmptyString)) => is_space3 c1 c2 c3
  | _ => false
  end.

Fixpoint trimStart (s : string) : string :=
  match s with
  | String c1 r1 =>
      if is_space c1 then trimStart r1 else
      match r1 with
      | String c2 r2 =>
          if is_space2 c1 c2 then trimStart r2 else
          match r2 with
          | String c3 r3 => if is_space3 c1 c2 c3 then trimStart r3 else s
          | EmptyString => s
          end
      | EmptyString => s
      end
  | EmptyString => EmptyString
  end.

(** What is left of [c] and the trimmed rest is dropped when it is one
    white space character. *)
Fixpoint trimEnd (s : string) : string :=
  match s with
  | EmptyString => EmptyString
  | String c r =>
      let r' := trimEnd r in
      if is_white_space (String c r') then EmptyString else String c r'
  end.

Definition trim (s : string) : string := trimEnd (trimStart s).

(** *** Order

    [a < b] on strings compares UTF-16 code units.  On UTF-8 text that is
    the order of the bytes, but for the code points from U+10000 up
    (first byte F0 to F4), whose surrogates stand before the code points
    U+E000 to U+FFFF (first byte EE or EF). *)
Definition utf16_key (c : ascii) : ascii :=
  let n := N_of_ascii c in
  if ((240 <=? n) && (n <=? 244))%N then ascii_of_N (n - 2)
  else if ((238 <=? n) && (n <=? 239))%N then ascii_of_N (n + 5)
  else c.

Definition string_lt (a b : string) : bool :=
  String.ltb (map_chars utf16_key a) (map_chars utf16_key b).

(** [a <= b] *)
Definition string_le (a b : string) : bool := negb (string_lt b a).

(** [hay.includes(needle)] *)
Fixpoint includes (hay needle : string) : bool :=
  String.prefix needle hay ||
  match hay with
  | EmptyString => false
  | String _ r => includes r needle
  end.

(** [s.replace(/-/g, '')] *)
Fixpoint strip_hyphens (s : string) : string :=
  match s with
  | EmptyString => EmptyString
  | String c r =>
      if Ascii.eqb c "-" then strip_hyphens r else String c (strip_hyphens r)
  end.

(** [l.join(' ')] *)
Fixpoint join_space (l : list string) : string :=
  match l with
  | [] => ""
  | [s] => s
  | s :: r => s ++ " " ++ join_space r
  end.

(** *** Arrays *)

(** [l.slice(start, end)] for integer arguments. *)
Definition clamp_index (len i : Z) : Z :=
  if i <? 0 then Z.max (len + i) 0 else Z.min i len.

Definition slice {A} (start stop : Z) (l : list A) : list A :=
  let len := Z.of_nat (length l) in
  let k := clamp_index len start in
  let e := clamp_index len stop in
  take (Z.to_nat (e - k)) (drop (Z.to_nat k) l).

(** [l.sort(cmp)]: the sort is stable (ECMAScript 2019, Node 11 and
    later; the README asks for Node 18).  An element goes in front of the
    first later element it does not compare above. *)
Fixpoint sort_insert {A} (cmp : A → A → Z) (x : A) (l : list A) : list A :=
  match l with
  | [] => [x]
  | y :: r => if cmp x y <=? 0 then x :: y :: r else y :: sort_insert cmp x r
  end.

Fixpoint sort_by {A} (cmp : A → A → Z) (l : list A) : list A :=
  match l with
  | [] => []
  | x :: r => sort_insert cmp x (sort_by cmp r)
  end.

(** [l.sort()] without a comparator: the elements are compared as
    strings, code unit by code unit. *)
Definition default_compare (a b : string) : Z :=
  if string_lt a b then -1 else if string_lt b a then 1 else 0.

(** The names every object inherits from [Object.prototype]: [o[k]] is
    not [undefined] for them, whatever the own properties of [o]. *)
Definition object_prototype_names : list string :=
  ["constructor"; "__defineGetter__"; "__defineSetter__"; "hasOwnProperty";
   "__lookupGetter__"; "__lookupSetter__"; "isPrototypeOf";
   "propertyIsEnumerable"; "toString"; "valueOf"; "__proto__";
   "toLocaleString"].

(** [set.add(x)] on a [Set] of strings, kept in insertion order. *)
Definition set_add (x : string) (set : list string) : list string :=
  if bool_decide (x ∈ set) then set else set ++ [x].

End Js.

(** ** validators.js *)

Module Validators.
Import Js.

Abbreviation object := (gmap string json).

(** *** The formats of ajv-formats named by the schemas *)

Inductive format := FmtDate | FmtDateTime | FmtUri.

Class Formats := format_ok : format → string → bool.

(** *** The two [pattern] regular expressions *)

Inductive pattern := PatIsbn10 | PatIsbn13.

Definition isbn10_char (c : ascii) : bool :=
  is_digit c || Ascii.eqb c "X" || Ascii.eqb c "x" || Ascii.eqb c "-".
Definition isbn13_char (c : ascii) : bool :=
  is_digit c || Ascii.eqb c "-".

(** [[class]{10,}$] *)
Definition ten_or_more (p : ascii → bool) (s : string) : bool :=
  (10 <=? String.length s)%nat && all_chars p s.

(** ['^[0-9Xx-]{10,}$'] *)
Definition matches_isbn10 (s : string) : bool := ten_or_more isbn10_char s.

(** ['^(97(8|9))?[0-9-]{10,}$']: with the optional prefix taken, or not. *)
Definition matches_isbn13 (s : string) : bool :=
  match s with
  | String "9" (String "7" (String c r)) =>
      ((Ascii.eqb c "8" || Ascii.eqb c "9") && ten_or_more isbn13_char r)
      || ten_or_more isbn13_char s
  | _ => ten_or_more isbn13_char s
  end.

Definition matches (p : pattern) : string → bool :=
  match p with
  | PatIsbn10 => matches_isbn10
  | PatIsbn13 => matches_isbn13
  end.

(** *** Schemas

    The keywords that constrain a property.  [default], [readOnly] and
    [description] are annotations: Ajv is created without [useDefaults],
    so no default is filled in. *)

Record string_schema := StringSchema {
  minLength : nat;
  format_of : option format;
  pattern_of : option pattern;
  enum_of : option (list string)
}.

Inductive schema :=
| SString (c : string_schema)
| SStrings (item : string_schema)      (* type 'array', items of type 'string' *)
| SNumber (minimum : Z)                (* type 'number' *)
| SInteger (minimum maximum : Z).      (* type 'integer' *)

(** An object schema with [additionalProperties: false]. *)
Record object_schema := ObjectSchema {
  properties : list (string * schema);
  required : list string
}.

Definition str : schema := SString (StringSchema 0 None None None).
Definition str1 : schema := SString (StringSchema 1 None None None).
Definition str_fmt (f : format) : schema :=
  SString (StringSchema 0 (Some f) None None).
Definition str_pat (p : pattern) : schema :=
  SString (StringSchema 0 None (Some p) None).
Definition str_enum (l : list string) : schema :=
  SString (StringSchema 0 None None (Some l)).

Definition bookSchema : object_schema := {|
  required := ["title"];
  properties := [
    ("id", str);
    ("title", str1);
    ("subtitle", str);
    ("authors", SStrings (StringSchema 1 None None None));
    ("publisher", str);
    ("publicationDate", str_fmt FmtDate);
    ("isbn10", str_pat PatIsbn10);
    ("isbn13", str_pat PatIsbn13);
    ("edition", str);
    ("format",
      str_enum ["Hardcover"; "Paperback"; "eBook"; "Audiobook"; "Other"]);
    ("purchaseDate", str_fmt FmtDate);
    ("pricePaid", SNumber 0);
    ("currency", str1);
    ("condition",
      str_enum ["New"; "Like New"; "Very Good"; "Good"; "Acceptable"; "Poor"]);
    ("location", str);
    ("tags", SStrings (StringSchema 1 None None None));
    ("notes", str);
    ("readStatus", str_enum ["Unread"; "Reading"; "Finished"; "Abandoned"]);
    ("rating", SInteger 1 5);
    ("coverUrl", str_fmt FmtUri);
    ("createdAt", str_fmt FmtDateTime);
    ("updatedAt", str_fmt FmtDateTime)
  ]
|}.

(** [properties: { ...bookSchema.properties }] followed by the three
    [delete]s; no [required]. *)
Definition system_fields : list string := ["id"; "createdAt"; "updatedAt"].

Definition partialBookSchema : object_schema := {|
  required := [];
  properties :=
    filter (λ p, p.1 ∉ system_fields) (properties bookSchema)
|}.

(** *** Validation *)

Section validate.
Context `{Formats}.

Definition opt_check {A} (o : option A) (p : A → bool) : bool :=
  match o with
  | Some a => p a
  | None => true
  end.

Definition check_string (c : string_schema) (s : string) : bool :=
  (minLength c <=? String.length s)%nat
  && opt_check (format_of c) (λ f, format_ok f s)
  && opt_check (pattern_of c) (λ p, matches p s)
  && opt_check (enum_of c) (λ l, bool_decide (s ∈ l)).

Definition is_string (c : string_schema) (v : json) : bool :=
  match v with
  | JStr s => check_string c s
  | _ => false
  end.

Definition is_integer (q : Qc) : bool := bool_decide (Qden q = 1%positive).

Definition check (sc : schema) (v : json) : bool :=
  match sc, v with
  | SString c, _ => is_string c v
  | SStrings c, JArr l => forallb (is_string c) l
  | SNumber lo, JNum q => bool_decide (Q2Qc (inject_Z lo) ≤ q)%Qc
  | SInteger lo hi, JNum q =>
      is_integer q
      && bool_decide (Q2Qc (inject_Z lo) ≤ q)%Qc
      && bool_decide (q ≤ Q2Qc (inject_Z hi))%Qc
  | _, _ => false
  end.

Definition known (sc : object_schema) (k : string) : bool :=
  bool_decide (k ∈ (properties sc).*1).

(** The properties left in the data once the additional ones are deleted. *)
Definition strip (sc : object_schema) (o : object) : object :=
  filter (λ kv, known sc kv.1 = true) o.

Definition properties_ok (sc : object_schema) (o : object) : bool :=
  forallb (λ p, opt_check (o !! p.1) (check p.2)) (properties sc).

Definition required_ok (sc : object_schema) (o : object) : bool :=
  forallb (λ k, bool_decide (is_Some (o !! k))) (required sc).

(** The compiled validator applied to an object: the verdict, and the
    object as the call leaves it.  With [allErrors] every keyword runs, so
    the additional properties are deleted whatever the verdict. *)
Definition validate_object (sc : object_schema) (o : object) : bool * object :=
  (required_ok sc o && properties_ok sc o, strip sc o).

(** [compile(schema)]: [type: 'object'] fails on anything else, and the
    object keywords then do not apply. *)
Definition compile (sc : object_schema) (data : json) : bool * json :=
  match data with
  | JObj o => let r := validate_object sc o in (r.1, JObj r.2)
  | _ => (false, data)
  end.

Definition validateNewBook : object → bool * object :=
  validate_object bookSchema.
Definition validatePatchBook : json → bool * json :=
  compile partialBookSchema.

(** *** listQuerySchema

    The object the list handler validates has these eight properties and
    no other.  [limit] and [offset] are made by [Number(...)]: a number,
    or NaN or an infinity ([None]), which [type: 'integer'] rejects. *)

Record query_object := QueryObject {
  query_q : option json;
  query_author : option json;
  query_tag : option json;
  query_beforePurchaseDate : option json;
  query_afterPurchaseDate : option json;
  query_sort : option json;
  query_limit : option Qc;
  query_offset : option Qc
}.

Definition sort_names : list string :=
  ["title"; "-title"; "purchaseDate"; "-purchaseDate";
   "createdAt"; "-createdAt"; "updatedAt"; "-updatedAt"].

(** The keywords of the eight properties; an integer property has a
    minimum and may have a maximum. *)
Record query_schema := QuerySchema {
  q_schema : schema;
  author_schema : schema;
  tag_schema : schema;
  beforePurchaseDate_schema : schema;
  afterPurchaseDate_schema : schema;
  sort_schema : schema;
  limit_schema : Z * option Z;
  offset_schema : Z * option Z
}.

Definition listQuerySchema : query_schema := {|
  q_schema := str;
  author_schema := str;
  tag_schema := str;
  beforePurchaseDate_schema := str_fmt FmtDate;
  afterPurchaseDate_schema := str_fmt FmtDate;
  sort_schema := str_enum sort_names;
  limit_schema := (1, Some 500);
  offset_schema := (0, None)
|}.

(** [{ type: 'integer', minimum, maximum }] *)
Definition check_integer (minimum : Z) (maximum : option Z) (n : option Qc)
  : bool :=
  match n with
  | Some q =>
      is_integer q
      && bool_decide (Q2Qc (inject_Z minimum) ≤ q)%Qc
      && opt_check maximum (λ hi, bool_decide (q ≤ Q2Qc (inject_Z hi))%Qc)
  | None => false
  end.

(** A property that is [undefined] is not checked. *)
Definition validate_query (sc : query_schema) (o : query_object) : bool :=
  opt_check (query_q o) (check (q_schema sc))
  && opt_check (query_author o) (check (author_schema sc))
  && opt_check (query_tag o) (check (tag_schema sc))
  && opt_check (query_beforePurchaseDate o)
       (check (beforePurchaseDate_schema sc))
  && opt_check (query_afterPurchaseDate o)
       (check (afterPurchaseDate_schema sc))
  && opt_check (query_sort o) (check (sort_schema sc))
  && check_integer (limit_schema sc).1 (limit_schema sc).2 (query_limit o)
  && check_integer (offset_schema sc).1 (offset_schema sc).2 (query_offset o).

Definition validateListQuery : query_object → bool :=
  validate_query listQuerySchema.

End validate.

End Validators.

(** ** store.js

    The store holds records that passed [validateNewBook]: titles, dates
    and ISBNs are strings, authors and tags are arrays of strings.  The
    accessors below read a property at its schema type. *)

Module Store.
Import Js Validators.

Abbreviation store := (list object).

Section store.
Context {unicode : CaseMapping}.

Definition str_field (b : object) (k : string) : option string :=
  match b !! k with
  | Some (JStr s) => Some s
  | _ => None
  end.

Definition strs_field (b : object) (k : string) : list string :=
  match b !! k with
  | Some (JArr l) =>
      omap (λ v, match v with JStr s => Some s | _ => None end) l
  | _ => []
  end.

Definition nonempty (s : string) : bool := negb (bool_decide (s = "")).

(** *** list *)

Record list_query := ListQuery {
  q : option string;
  author : option string;
  tag : option string;
  beforePurchaseDate : option string;
  afterPurchaseDate : option string;
  sort : option string;
  limit : Z;
  offset : Z
}.

Record page := Page { total : nat; items : list object }.

(** [p && p.trim()], and then [p.trim().toLowerCase()] *)
Definition needle (p : option string) : option string :=
  match p with
  | Some s => if nonempty s && nonempty (trim s)
              then Some (toLowerCase (trim s)) else None
  | None => None
  end.

(** [if (p)] for a string parameter *)
Definition present (p : option string) : option string :=
  match p with
  | Some s => if nonempty s then Some s else None
  | None => None
  end.

Definition filter_if {X} (c : option X) (p : X → object → bool)
    (rows : list object) : list object :=
  match c with
  | Some x => List.filter (p x) rows
  | None => rows
  end.

Definition hay (b : object) : string :=
  toLowerCase (join_space (List.filter nonempty
    (omap (str_field b) ["title"; "subtitle"; "publisher"; "notes"]
     ++ strs_field b "authors" ++ strs_field b "tags"))).

Definition q_match (n : string) (b : object) : bool := includes (hay b) n.

Definition author_match (a : string) (b : object) : bool :=
  existsb (λ x, includes (toLowerCase x) a) (strs_field b "authors").

Definition tag_match (t : string) (b : object) : bool :=
  existsb (λ x, bool_decide (toLowerCase x = t)) (strs_field b "tags").

(** [b.purchaseDate && b.purchaseDate <= bound] *)
Definition purchased_by (bound : string) (b : object) : bool :=
  match str_field b "purchaseDate" with
  | Some d => nonempty d && string_le d bound
  | None => false
  end.

(** [b.purchaseDate && b.purchaseDate >= bound] *)
Definition purchased_from (bound : string) (b : object) : bool :=
  match str_field b "purchaseDate" with
  | Some d => nonempty d && string_le bound d
  | None => false
  end.

(** [compare(field, dir)] *)
Definition compare (field : string) (asc : bool) (a b : object) : Z :=
  let av := default "" (str_field a field) in
  let bv := default "" (str_field b field) in
  if string_lt av bv then (if asc then -1 else 1)
  else if string_lt bv av then (if asc then 1 else -1)
  else 0.

Definition sortMap : list (string * (object → object → Z)) := [
  ("title", compare "title" true);
  ("-title", compare "title" false);
  ("purchaseDate", compare "purchaseDate" true);
  ("-purchaseDate", compare "purchaseDate" false);
  ("createdAt", compare "createdAt" true);
  ("-createdAt", compare "createdAt" false);
  ("updatedAt", compare "updatedAt" true);
  ("-updatedAt", compare "updatedAt" false)
].

Fixpoint assoc {V} (k : string) (l : list (string * V)) : option V :=
  match l with
  | [] => None
  | (k', v) :: r => if bool_decide (k' = k) then Some v else assoc k r
  end.

(** [sortMap[sort] || sortMap.title], for a [sort] that is [undefined]
    or names no property the table inherits
    ([object_prototype_names]): one of the eight names gives its
    comparator, any other such string gives [sortMap.title].  The query
    schema admits the eight names and no other. *)
Definition comparator (s : option string) : object → object → Z :=
  default (compare "title" true) (s ≫= λ k, assoc k sortMap).

(** The rows after the five filters and the sort. *)
Definition rows (s : store) (p : list_query) : list object :=
  let r := s in
  let r := filter_if (needle (q p)) q_match r in
  let r := filter_if (needle (author p)) author_match r in
  let r := filter_if (needle (tag p)) tag_match r in
  let r := filter_if (present (beforePurchaseDate p)) purchased_by r in
  let r := filter_if (present (afterPurchaseDate p)) purchased_from r in
  sort_by (comparator (sort p)) r.

Definition list (s : store) (p : list_query) : page :=
  let r := rows s p in
  {| total := length r; items := slice (offset p) (offset p + limit p) r |}.

(** *** get, upsert, remove *)

Definition has_id (id : option json) (b : object) : bool :=
  strict_eq (b !! "id") id.

(** [find(...) || null] *)
Definition get (s : store) (id : string) : option object :=
  List.find (has_id (Some (JStr id))) s.

(** [books[findIndex(p)] = x], or [None] when [findIndex] gives -1 *)
Fixpoint replace_first {A} (p : A → bool) (f : A → A) (l : Datatypes.list A)
  : option (Datatypes.list A) :=
  match l with
  | [] => None
  | b :: r => if p b then Some (f b :: r)
              else (b ::.) <$> replace_first p f r
  end.

Definition upsert (s : store) (book : object) : store :=
  match replace_first (has_id (book !! "id")) (λ _, book) s with
  | Some s' => s'
  | None => s ++ [book]
  end.

Definition remove (s : store) (id : string) : bool * store :=
  let s' := List.filter (λ b, negb (has_id (Some (JStr id)) b)) s in
  (negb (length s =? length s')%nat, s').

(** *** importJson *)

(** [b.isbn13 || b.isbn10 || ''] *)
Definition isbn_of (b : object) : string :=
  match str_field b "isbn13" with
  | Some s13 =>
      if nonempty s13 then s13 else default "" (str_field b "isbn10")
  | None => default "" (str_field b "isbn10")
  end.

Definition isbnKey (b : object) : string :=
  toUpperCase (strip_hyphens (isbn_of b)).

(** [new Map(books.map((b) => [isbnKey(b), b.id]))]: a later entry with
    the same key replaces the earlier one. *)
Definition index_by_isbn (s : store) : gmap string (option json) :=
  foldl (λ m b, <[isbnKey b := b !! "id"]> m) ∅ s.

Record import_state := ImportState {
  books : store;
  byIsbn : gmap string (option json);
  created : nat;
  updated : nat
}.

(** [Object.assign(existing, { ...incoming, id, updatedAt: now })] *)
Definition merge_into (existing incoming : object) (id : option json)
    (now : string) : object :=
  set_prop "updatedAt" (Some (JStr now)) (set_prop "id" id incoming)
  ∪ existing.

(** The loop body; [now] is the clock at a merge.  [None] is the
    TypeError of [Object.assign] when [find] gives [undefined]. *)
Definition import_step (dedupe : bool) (now : string) (st : import_state)
    (incoming : object) : option import_state :=
  let key := isbnKey incoming in
  match (if dedupe && nonempty key then byIsbn st !! key else None) with
  | Some id =>
      s' ← replace_first (has_id id)
              (λ existing, merge_into existing incoming id now) (books st);
      Some {| books := s'; byIsbn := byIsbn st;
              created := created st; updated := S (updated st) |}
  | None =>
      Some {| books := books st ++ [incoming];
              byIsbn := if dedupe && nonempty key
                        then <[key := incoming !! "id"]> (byIsbn st)
                        else byIsbn st;
              created := S (created st); updated := updated st |}
  end.

(** [for (const incoming of array)]; [clock i] is the time read while the
    element at index [i] is handled. *)
Fixpoint import_loop (dedupe : bool) (clock : nat → string) (i : nat)
    (array : Datatypes.list object) (st : import_state)
  : option import_state :=
  match array with
  | [] => Some st
  | incoming :: rest =>
      st' ← import_step dedupe (clock i) st incoming;
      import_loop dedupe clock (S i) rest st'
  end.

Definition importJson (s : store) (array : Datatypes.list object) (dedupe : bool)
    (clock : nat → string) : option (store * (nat * nat)) :=
  st ← import_loop dedupe clock 0 array
         {| books := s; byIsbn := index_by_isbn s;
            created := 0; updated := 0 |};
  Some (books st, (created st, updated st)).

(** *** allTags, exportJson *)

(** [for (const b of books) (b.tags || []).forEach((t) => set.add(t))],
    then [Array.from(set).sort()]. *)
Definition allTags (s : store) : Datatypes.list string :=
  let set :=
    foldl (λ set b, foldl (λ set t, set_add t set) set (strs_field b "tags"))
      [] s in
  sort_by default_compare set.

(** [JSON.parse(JSON.stringify(books))]: a copy of the records, equal to
    them as JSON values. *)
Definition exportJson (s : store) : store := s.

End store.

End Store.

(** ** server.js *)

Module Server.
Import Js Validators Store.

(** The status and the part of the JSON body the properties below speak
    about.  [Crashed] is a handler that raised. *)
Inductive response :=
| Ok (book : object)                      (* 200, res.json(saved) *)
| Created (book : object)                 (* 201 *)
| NoContent                               (* 204 *)
| BadRequest                              (* 400 *)
| NotFound                                (* 404 *)
| Conflict (existingId : option json)     (* 409 *)
| Imported (created updated : nat)        (* 200, { ok: true, ...stats } *)
| Crashed.

Definition status (r : response) : option nat :=
  match r with
  | Ok _ | Imported _ _ => Some 200%nat
  | Created _ => Some 201%nat
  | NoContent => Some 204%nat
  | BadRequest => Some 400%nat
  | NotFound => Some 404%nat
  | Conflict _ => Some 409%nat
  | Crashed => None
  end.

Section handlers.
Context `{Formats} {unicode : CaseMapping}.

(** [store.list({ limit: 50000, offset: 0, sort: 'title' })] *)
Definition all_query : list_query := {|
  q := None; author := None; tag := None;
  beforePurchaseDate := None; afterPurchaseDate := None;
  sort := Some "title"; limit := 50000; offset := 0
|}.

(** [app.get('/api/books/:id')] *)
Definition get_book (s : store) (id : string) : response :=
  match get s id with
  | Some item => Ok item
  | None => NotFound
  end.

(** [app.post('/api/books')]; the normalized ISBN is written out twice in
    the handler, with the text of [isbnKey]. *)
Definition post_book (s : store) (body : json) (uuid now : string)
  : response * store :=
  let incoming :=
    <["updatedAt" := JStr now]> (<["createdAt" := JStr now]>
      (<["id" := JStr uuid]> (spread body))) in
  let '(valid, incoming) := validateNewBook incoming in
  if negb valid then (BadRequest, s) else
  let all := Store.list s all_query in
  let normalizedIncomingIsbn := isbnKey incoming in
  let dupe :=
    if nonempty normalizedIncomingIsbn
    then List.find (λ b, bool_decide (isbnKey b = normalizedIncomingIsbn))
           (items all)
    else None in
  match dupe with
  | Some d => (Conflict (d !! "id"), s)
  | None => (Created incoming, upsert s incoming)
  end.

(** [app.put('/api/books/:id')] *)
Definition put_book (s : store) (id : string) (body : json) (now : string)
  : response * store :=
  match get s id with
  | None => (NotFound, s)
  | Some existing =>
      let replacement :=
        <["updatedAt" := JStr now]>
          (set_prop "createdAt" (existing !! "createdAt")
            (set_prop "id" (existing !! "id") (spread body))) in
      let '(valid, replacement) := validateNewBook replacement in
      if negb valid then (BadRequest, s)
      else (Ok replacement, upsert s replacement)
  end.

(** [{ ...existing, ...req.body, id: existing.id, updatedAt: now }], with
    [req.body] as [validatePatchBook] left it. *)
Definition patch_merged (existing : object) (body : json) (now : string)
  : object :=
  <["updatedAt" := JStr now]>
    (set_prop "id" (existing !! "id") (spread body ∪ existing)).

(** [app.patch('/api/books/:id')] *)
Definition patch_book (s : store) (id : string) (body : json) (now : string)
  : response * store :=
  match get s id with
  | None => (NotFound, s)
  | Some existing =>
      let '(valid, body) := validatePatchBook body in
      if negb valid then (BadRequest, s) else
      let merged := patch_merged existing body now in
      let '(valid, merged) := validateNewBook merged in
      if negb valid then (BadRequest, s)
      else (Ok merged, upsert s merged)
  end.

(** [app.delete('/api/books/:id')] *)
Definition delete_book (s : store) (id : string) : response * store :=
  let '(removed, s') := remove s id in
  if removed then (NoContent, s') else (NotFound, s').

(** The loop of [app.post('/api/import/json')] over [req.body]; [uuid i]
    is the id drawn for the item at index [i]. *)
Inductive normalized :=
| Books (incoming : Datatypes.list object)
| Invalid
| Raised.

Fixpoint normalize (uuid : nat → string) (now : string) (i : nat)
    (raws : Datatypes.list json) : normalized :=
  match raws with
  | [] => Books []
  | raw :: rest =>
      match get_prop raw "id", get_prop raw "createdAt" with
      | Some raw_id, Some raw_createdAt =>
          let book :=
            <["updatedAt" := JStr now]>
              (set_prop "createdAt" (js_or raw_createdAt (Some (JStr now)))
                (set_prop "id" (js_or raw_id (Some (JStr (uuid i))))
                  (spread raw))) in
          let '(valid, book) := validateNewBook book in
          if negb valid then Invalid else
          match normalize uuid now (S i) rest with
          | Books incoming => Books (book :: incoming)
          | r => r
          end
      | _, _ => Raised
      end
  end.

(** [app.post('/api/import/json')] *)
Definition import_json (s : store) (body : json) (uuid : nat → string)
    (now : string) (clock : nat → string) : response * store :=
  match body with
  | JArr raws =>
      match normalize uuid now 0 raws with
      | Books incoming =>
          match importJson s incoming true clock with
          | Some (s', (created, updated)) => (Imported created updated, s')
          | None => (Crashed, s)
          end
      | Invalid => (BadRequest, s)
      | Raised => (Crashed, s)
      end
  | _ => (BadRequest, s)
  end.

(** *** The requests that change the store *)

Inductive request :=
| POST (body : json) (uuid now : string)
| PUT (id : string) (body : json) (now : string)
| PATCH (id : string) (body : json) (now : string)
| DELETE (id : string)
| IMPORT (body : json) (uuid : nat → string) (now : string)
    (clock : nat → string).

Definition handle (s : store) (r : request) : response * store :=
  match r with
  | POST body uuid now => post_book s body uuid now
  | PUT id body now => put_book s id body now
  | PATCH id body now => patch_book s id body now
  | DELETE id => delete_book s id
  | IMPORT body uuid now clock => import_json s body uuid now clock
  end.

End handlers.

(** *** The requests that read the store *)

(** [Number(v)] for a value of the query string: the conversion of the
    language, an interface as the formats are.  [None] is NaN or an
    infinity. *)
Class Conversions := Number : json → option Qc.

Section readers.
Context `{Formats} `{Conversions} {unicode : CaseMapping}.

(** [Number(v ?? d)]; [Number] leaves the number [d] as it is. *)
Definition number_or (v : option json) (d : Z) : option Qc :=
  match v with
  | None | Some JNull => Some (Q2Qc (inject_Z d))
  | Some x => Number x
  end.

(** A property of the validated query, as [store.list] reads it. *)
Definition as_string (v : option json) : option string :=
  match v with
  | Some (JStr s) => Some s
  | _ => None
  end.

Definition as_integer (n : option Qc) : Z :=
  match n with
  | Some q => Qnum q
  | None => 0
  end.

Inductive listing :=
| Listed (result : page)                  (* 200, res.json(result) *)
| InvalidQuery.                           (* 400 *)

(** [app.get('/api/books')]; [req_query] is [req.query]. *)
Definition list_books (s : store) (req_query : object) : listing :=
  let query := {|
    query_q := req_query !! "q";
    query_author := req_query !! "author";
    query_tag := req_query !! "tag";
    query_beforePurchaseDate := req_query !! "beforePurchaseDate";
    query_afterPurchaseDate := req_query !! "afterPurchaseDate";
    query_sort := req_query !! "sort";
    query_limit := number_or (req_query !! "limit") 50;
    query_offset := number_or (req_query !! "offset") 0
  |} in
  if negb (validateListQuery query) then InvalidQuery else
  Listed (Store.list s {|
    q := as_string (query_q query);
    author := as_string (query_author query);
    tag := as_string (query_tag query);
    beforePurchaseDate := as_string (query_beforePurchaseDate query);
    afterPurchaseDate := as_string (query_afterPurchaseDate query);
    sort := as_string (query_sort query);
    limit := as_integer (query_limit query);
    offset := as_integer (query_offset query)
  |}).

(** [app.get('/api/tags')]: [count] and [items] of the body. *)
Definition get_tags (s : store) : nat * Datatypes.list string :=
  let tags := allTags s in (length tags, tags).

(** [app.get('/api/export/json')]: the body. *)
Definition export_json (s : store) : json := JArr (JObj <$> exportJson s).

End readers.

End Server.

(** ** An instance of the formats

    Calendar dates, the timestamps that [toISOString] prints
    ([YYYY-MM-DDTHH:mm:ss.sssZ]) and http(s) URLs without white space.
    ajv-formats accepts each of these strings; the instance is what the
    examples are evaluated with. *)

Module Iso.
Import Js Validators.

Definition digit (c : ascii) : option nat :=
  if is_digit c then Some (N.to_nat (N_of_ascii c) - 48)%nat else None.

Definition two (a b : ascii) : option nat :=
  x ← digit a; y ← digit b; Some (10 * x + y)%nat.

Definition leap (y : nat) : bool :=
  ((y mod 4 =? 0) && (negb (y mod 100 =? 0) || (y mod 400 =? 0)))%nat.

Definition days_in (y m : nat) : nat :=
  match m with
  | 2 => if leap y then 29 else 28
  | 4 | 6 | 9 | 11 => 30
  | _ => 31
  end%nat.

(** A date at the front of [s], and what follows it. *)
Definition date_prefix (s : string) : option string :=
  match s with
  | String a (String b (String c (String d (String "-"
      (String m1 (String m2 (String "-" (String d1 (String d2 r))))))))) =>
      hi ← two a b; lo ← two c d; m ← two m1 m2; dd ← two d1 d2;
      if ((1 <=? m) && (m <=? 12) && (1 <=? dd)
          && (dd <=? days_in (100 * hi + lo) m))%nat
      then Some r else None
  | _ => None
  end.

Definition is_date (s : string) : bool :=
  bool_decide (date_prefix s = Some "").

Definition is_time_of_day (s : string) : bool :=
  match s with
  | String h1 (String h2 (String ":" (String m1 (String m2 (String ":"
      (String s1 (String s2 (String "." (String f1 (String f2 (String f3
        "Z"))))))))))) =>
      match two h1 h2, two m1 m2, two s1 s2, two f1 f2, digit f3 with
      | Some h, Some m, Some sec, Some _, Some _ =>
          ((h <=? 23) && (m <=? 59) && (sec <=? 59))%nat
      | _, _, _, _, _ => false
      end
  | _ => false
  end.

Definition is_date_time (s : string) : bool :=
  match date_prefix s with
  | Some (String "T" r) => is_time_of_day r
  | _ => false
  end.

Definition is_uri (s : string) : bool :=
  (String.prefix "http://" s || String.prefix "https://" s)
  && all_chars (λ c, negb (is_space c)) s.

#[export] Instance formats : Formats := λ f,
  match f with
  | FmtDate => is_date
  | FmtDateTime => is_date_time
  | FmtUri => is_uri
  end.

(** The case mapping on ASCII text. *)
#[export] Instance case_mapping : CaseMapping := {|
  toLowerCase := map_chars lower_char;
  toLowerCase_ascii := λ _ _, eq_refl
|}.

(** [Number(v)] on a number, and on a string of decimal digits (the empty
    string is 0).  The other numeric literals of the language are not
    read: the instance is what the examples are evaluated with. *)
Fixpoint decimal (acc : nat) (s : string) : option nat :=
  match s with
  | EmptyString => Some acc
  | String c r => d ← digit c; decimal (10 * acc + d) r
  end.

#[export] Instance conversions : Server.Conversions := λ v,
  match v with
  | JNum q => Some q
  | JStr s => (λ n, Q2Qc (inject_Z (Z.of_nat n))) <$> decimal 0 s
  | _ => None
  end.

End Iso.


(** ** The properties, in the words of the specification *)

Module Spec.
Import Js Validators Store Server.

(** *** Records *)

Definition id_of (b : object) : option json := b !! "id".
Definition ids (s : store) : Datatypes.list (option json) := id_of <$> s.

(** ISO timestamps are compared as strings, as [list] compares dates. *)
Definition time_le (a b : string) : Prop := String.leb a b = true.

(** [updatedAt ≥ createdAt] *)
Definition monotonic (b : object) : Prop :=
  ∃ c u, b !! "createdAt" = Some (JStr c) ∧ b !! "updatedAt" = Some (JStr u)
         ∧ time_le c u.

(** Both timestamps are set and neither is ahead of the clock [t]. *)
Definition stamped (t : string) (b : object) : Prop :=
  ∃ c u, b !! "createdAt" = Some (JStr c) ∧ b !! "updatedAt" = Some (JStr u)
         ∧ time_le c u ∧ time_le u t.

Definition has_string_id (b : object) : Prop := ∃ i, b !! "id" = Some (JStr i).

Section with_formats.
Context `{Formats} {unicode : CaseMapping}.

(** A record the full-book validator accepts and leaves as it is. *)
Definition conforms (b : object) : Prop := validateNewBook b = (true, b).

Definition is_time (t : string) : Prop := format_ok FmtDateTime t = true.

(** A record as the API leaves it: the validator accepts it as it is,
    and it carries an id and the two timestamps. *)
Definition well_formed (b : object) : Prop :=
  conforms b ∧ has_string_id b
  ∧ (∃ c, b !! "createdAt" = Some (JStr c) ∧ is_time c)
  ∧ (∃ u, b !! "updatedAt" = Some (JStr u) ∧ is_time u).

(** *** Reachable stores

    [ticks t r t']: the clock readings taken while [r] is served are
    date-times, none before [t] (the clock when the request arrives) and
    none after [t']; the clock does not run backwards. *)
Definition ticks (t : string) (r : request) (t' : string) : Prop :=
  match r with
  | POST _ _ now | PUT _ _ now | PATCH _ _ now =>
      is_time now ∧ time_le t now ∧ time_le now t'
  | DELETE _ => time_le t t'
  | IMPORT _ _ now clock =>
      is_time now ∧ time_le t now ∧ time_le now t'
      ∧ ∀ i, is_time (clock i) ∧ time_le now (clock i) ∧ time_le (clock i) t'
  end.

(** The stores reached from the empty document by requests that satisfy
    [allowed], with the clock at [t] once they are served. *)
Inductive reachable (allowed : request → Prop) : string → store → Prop :=
| reach_empty t : reachable allowed t []
| reach_step t s r t' :
    reachable allowed t s → allowed r → ticks t r t' →
    reachable allowed t' (handle s r).2.

Definition any_request (_ : request) : Prop := True.

(** No imported item carries a [createdAt] later than the import. *)
Definition not_postdated (r : request) : Prop :=
  match r with
  | IMPORT (JArr raws) _ now _ =>
      ∀ raw c, raw ∈ raws → get_prop raw "createdAt" = Some (Some (JStr c)) →
               time_le c now
  | _ => True
  end.

End with_formats.

(** *** list *)

Section listing.
Context {unicode : CaseMapping}.

(** The text searched by [q]: title, subtitle, publisher, notes, authors
    and tags, the ones that are set, separated by a space. *)
Definition text (b : object) : string :=
  join_space (List.filter nonempty
    (omap (str_field b) ["title"; "subtitle"; "publisher"; "notes"]
     ++ strs_field b "authors" ++ strs_field b "tags")).

Definition insensitive_includes (hay needle : string) : bool :=
  includes (toLowerCase hay) (toLowerCase needle).

Definition insensitive_eq (a b : string) : bool :=
  bool_decide (toLowerCase a = toLowerCase b).

Definition purchase_date (b : object) : option string :=
  match str_field b "purchaseDate" with
  | Some d => if nonempty d then Some d else None
  | None => None
  end.

(** The four criteria. *)
Definition matches_q (n : string) (b : object) : bool :=
  insensitive_includes (text b) n.

Definition matches_author (a : string) (b : object) : bool :=
  existsb (λ x, insensitive_includes x a) (strs_field b "authors").

Definition matches_tag (t : string) (b : object) : bool :=
  existsb (λ x, insensitive_eq x t) (strs_field b "tags").

Definition bought_by (hi : string) (b : object) : bool :=
  match purchase_date b with
  | Some d => string_le d hi
  | None => false
  end.

Definition bought_from (lo : string) (b : object) : bool :=
  match purchase_date b with
  | Some d => string_le lo d
  | None => false
  end.

(** A criterion holds of every record when its parameter is not given. *)
Definition when_given {X} (p : option X) (c : X → object → bool)
    (b : object) : bool :=
  match p with
  | Some x => c x b
  | None => true
  end.

(** The records that meet the criteria, on the parameters as they are
    given. *)
Definition selected_as_written (p : list_query) (b : object) : bool :=
  when_given (q p) matches_q b
  && when_given (author p) matches_author b
  && when_given (tag p) matches_tag b
  && when_given (beforePurchaseDate p) bought_by b
  && when_given (afterPurchaseDate p) bought_from b.

(** The filters one after the other, in the order of the claim. *)
Definition filtered_as_written (s : store) (p : list_query)
  : Datatypes.list object :=
  let r := List.filter (when_given (q p) matches_q) s in
  let r := List.filter (when_given (author p) matches_author) r in
  let r := List.filter (when_given (tag p) matches_tag) r in
  let r := List.filter (when_given (beforePurchaseDate p) bought_by) r in
  List.filter (when_given (afterPurchaseDate p) bought_from) r.

(** A text parameter counts once trimmed, and only if something is left;
    a date bound counts if it is not the empty string. *)
Definition trimmed (p : option string) : option string :=
  match p with
  | Some s => if nonempty (trim s) then Some (trim s) else None
  | None => None
  end.

Definition bound (p : option string) : option string :=
  match p with
  | Some s => if nonempty s then Some s else None
  | None => None
  end.

Definition effective (p : list_query) : list_query :=
  {| q := trimmed (q p); author := trimmed (author p);
     tag := trimmed (tag p);
     beforePurchaseDate := bound (beforePurchaseDate p);
     afterPurchaseDate := bound (afterPurchaseDate p);
     sort := sort p; limit := limit p; offset := offset p |}.

Definition selected (p : list_query) : object → bool :=
  selected_as_written (effective p).

Definition filtered (s : store) (p : list_query) : Datatypes.list object :=
  filtered_as_written s (effective p).

(** The requested field and direction: one of the four sortable fields,
    descending after a leading [-]; [title] ascending otherwise. *)
Definition sortable : Datatypes.list string :=
  ["title"; "purchaseDate"; "createdAt"; "updatedAt"].

Definition sort_field (s : option string) : string * bool :=
  match s with
  | Some k =>
      if bool_decide (k ∈ sortable) then (k, true) else
      match k with
      | String c f =>
          if Ascii.eqb c "-" && bool_decide (f ∈ sortable)
          then (f, false) else ("title", true)
      | EmptyString => ("title", true)
      end
  | None => ("title", true)
  end.

Definition sort_value (field : string) (b : object) : string :=
  default "" (str_field b field).

(** [a] is not above [b], as strings are ordered: by UTF-16 code
    units. *)
Definition not_above (a b : string) : Prop := string_le a b = true.

(** [a] may stand before [b] in the requested order. *)
Definition in_order (s : option string) (a b : object) : Prop :=
  let '(field, asc) := sort_field s in
  if asc then not_above (sort_value field a) (sort_value field b)
  else not_above (sort_value field b) (sort_value field a).

(** The sort parameter names no property that the table of comparators
    inherits: the parameter is absent, one of the eight names, or a
    string that [sortMap] does not have. *)
Definition plain_sort (p : list_query) : Prop :=
  ∀ k, sort p = Some k → k ∉ object_prototype_names.

(** The same query for another page. *)
Definition paged (p : list_query) (limit offset : Z) : list_query :=
  {| q := q p; author := author p; tag := tag p;
     beforePurchaseDate := beforePurchaseDate p;
     afterPurchaseDate := afterPurchaseDate p;
     sort := sort p; limit := limit; offset := offset |}.

End listing.

(** *** POST *)

(** The record equals the payload extended with the three system
    fields: every property of the payload is in it unchanged, and it has
    no other property than those and the three. *)
Definition extends_payload (payload r : object) : Prop :=
  (∀ k v, payload !! k = Some v → r !! k = Some v)
  ∧ (∀ k, is_Some (r !! k) → is_Some (payload !! k) ∨ k ∈ system_fields).

(** The body carries an ISBN. *)
Definition carries_isbn (payload : object) : Prop :=
  is_Some (payload !! "isbn13") ∨ is_Some (payload !! "isbn10").

(** *** importJson *)

(** The record that replaces [existing] when [incoming] is merged into
    it at time [now]: the incoming fields over the existing ones, the id
    of the existing record, [updatedAt] bumped. *)
Definition merged (existing incoming : object) (now : string) : object :=
  <["updatedAt" := JStr now]> (set_prop "id" (existing !! "id")
    (incoming ∪ existing)).

(** [imports clock i s array s' c u]: taking the elements of [array] in
    turn (the first has index [i]), each one with a non-empty normalized
    ISBN that some record of the collection shares is merged into such a
    record, every other one is appended; [s'] is the collection at the
    end, [c] the number of records appended and [u] the number of
    merges. *)
Inductive imports (clock : nat → string)
  : nat → store → Datatypes.list object → store → nat → nat → Prop :=
| imports_nil i s : imports clock i s [] s 0 0
| imports_merge i s j existing incoming rest s' c u :
    isbnKey incoming ≠ "" →
    s !! j = Some existing →
    isbnKey existing = isbnKey incoming →
    imports clock (S i) (<[j := merged existing incoming (clock i)]> s)
      rest s' c u →
    imports clock i s (incoming :: rest) s' c (S u)
| imports_insert i s incoming rest s' c u :
    (isbnKey incoming = "" ∨ ∀ b, b ∈ s → isbnKey b ≠ isbnKey incoming) →
    imports clock (S i) (s ++ [incoming]) rest s' c u →
    imports clock i s (incoming :: rest) s' (S c) u.

(** Books that have the same id have the same normalized ISBN. *)
Definition ids_follow_isbns (l : Datatypes.list object) : Prop :=
  ∀ a b, a ∈ l → b ∈ l → a !! "id" = b !! "id" → isbnKey a = isbnKey b.

(** The import of [array] into [s] returns, and does what the
    specification says. *)
Definition import_dedupes (s : store) (array : Datatypes.list object)
    (clock : nat → string) : Prop :=
  ∃ s' c u, importJson s array true clock = Some (s', (c, u))
            ∧ imports clock 0 s array s' c u.

End Spec.

(** ** Sample requests and records *)

Module Samples.
Import Js Validators Store Server Spec Iso.

Definition t0 : string := "2024-01-01T00:00:00.000Z".
Definition t1 : string := "2024-06-01T12:00:00.000Z".
Definition far : string := "2999-01-01T00:00:00.000Z".

(** The payload of [tools/smoke-test.js]. *)
Definition knuth : object := list_to_map [
  ("title", JStr "The Art of Computer Programming, Vol. 1");
  ("authors", JArr [JStr "Donald E. Knuth"]);
  ("publisher", JStr "Addison-Wesley");
  ("publicationDate", JStr "1997-07-10");
  ("isbn13", JStr "978-0201558029");
  ("purchaseDate", JStr "2020-01-15");
  ("pricePaid", JNum (Q2Qc (8999 # 100)));
  ("tags", JArr [JStr "CS"; JStr "Algorithms"]);
  ("readStatus", JStr "Reading")].

(** The record created from it with id [id-1] at [t0]. *)
Definition knuth_stored : object :=
  <["updatedAt" := JStr t0]> (<["createdAt" := JStr t0]>
    (<["id" := JStr "id-1"]> knuth)).

(** The same ISBN without the hyphen. *)
Definition knuth_again : object :=
  <["isbn13" := JStr "9780201558029"]>
    (<["title" := JStr "TAOCP, second copy"]> knuth).

Definition rating_six : object := {["rating" := JNum (Q2Qc 6)]}.

(** A payload that names the id itself. *)
Definition with_client_id : object := list_to_map [
  ("title", JStr "Concrete Mathematics"); ("id", JStr "client-id")].

Definition with_client_id_stored : object := list_to_map [
  ("title", JStr "Concrete Mathematics"); ("id", JStr "id-1");
  ("createdAt", JStr t0); ("updatedAt", JStr t0)].

(** An imported item dated after the import. *)
Definition postdated : object := list_to_map [
  ("title", JStr "Concrete Mathematics"); ("createdAt", JStr far)].

Definition postdated_stored : object := list_to_map [
  ("title", JStr "Concrete Mathematics"); ("id", JStr "id-0");
  ("createdAt", JStr far); ("updatedAt", JStr t0)].

(** A payload with a property the schema does not have. *)
Definition with_shelf : object := list_to_map [
  ("title", JStr "Concrete Mathematics"); ("shelf", JStr "A3")].

Definition with_shelf_stored : object := list_to_map [
  ("title", JStr "Concrete Mathematics"); ("id", JStr "id-1");
  ("createdAt", JStr t0); ("updatedAt", JStr t0)].

(** A body with the ISBN of [knuth] and no title. *)
Definition untitled : object := {["isbn13" := JStr "9780201558029"]}.

(** An ISBN made of hyphens: the pattern accepts it, and nothing is left
    of it once normalized. *)
Definition hyphens : object := list_to_map [
  ("title", JStr "Untitled"); ("isbn13", JStr "----------")].

Definition hyphens_stored (id now : string) : object :=
  <["updatedAt" := JStr now]> (<["createdAt" := JStr now]>
    (<["id" := JStr id]> hyphens)).

(** A patch that names a system field. *)
Definition redated : object := list_to_map [
  ("createdAt", JStr far); ("rating", JNum (Q2Qc 5))].

Definition numbered (i : nat) : string := "id-" ++ pretty i.

(** A query for [q] alone. *)
Definition query (text : option string) : list_query := {|
  q := text; author := None; tag := None;
  beforePurchaseDate := None; afterPurchaseDate := None;
  sort := None; limit := 50; offset := 0
|}.

(** Seven records, titled [Volume 0] to [Volume 6]. *)
Definition volume (i : nat) : object := list_to_map [
  ("title", JStr ("Volume " ++ pretty i)); ("id", JStr (numbered i));
  ("createdAt", JStr t0); ("updatedAt", JStr t0)].

Definition shelf : store := volume <$> seq 0 7.

(** Three imported items: the first two arrive with the same id, the
    last two with the same ISBN. *)
Definition batch_raw : Datatypes.list json := [
  JObj (list_to_map [("title", JStr "A"); ("id", JStr "x")]);
  JObj (list_to_map [("title", JStr "B"); ("id", JStr "x");
                     ("isbn13", JStr "9780201558029")]);
  JObj (list_to_map [("title", JStr "C"); ("isbn13", JStr "978-0201558029")])
].

Definition item (title id : string) (isbn13 : option string) : object :=
  set_prop "isbn13" (JStr <$> isbn13) (list_to_map [
    ("title", JStr title); ("id", JStr id);
    ("createdAt", JStr t0); ("updatedAt", JStr t0)]).

Definition batch : Datatypes.list object := [
  item "A" "x" None;
  item "B" "x" (Some "9780201558029");
  item "C" "id-2" (Some "978-0201558029")].

(** A collection larger than the listing of the POST handler: 50000
    records without an ISBN, then one with the ISBN of [knuth]. *)
Definition filler : object := list_to_map [
  ("title", JStr "A"); ("id", JStr "id-0");
  ("createdAt", JStr t0); ("updatedAt", JStr t0)].

Definition last_one : object := list_to_map [
  ("title", JStr "Z"); ("id", JStr "id-z"); ("isbn13", JStr "9780201558029");
  ("createdAt", JStr t0); ("updatedAt", JStr t0)].

Definition crowded : store := replicate (Z.to_nat 50000) filler ++ [last_one].

(** The record a PUT of [with_shelf] at [t1] leaves in place of
    [knuth_stored]. *)
Definition replaced : object := list_to_map [
  ("title", JStr "Concrete Mathematics"); ("id", JStr "id-1");
  ("createdAt", JStr t0); ("updatedAt", JStr t1)].

(** [knuth_stored] once patched at [t1] with a rating and a read
    status. *)
Definition rated : object := list_to_map [
  ("rating", JNum (Q2Qc 5)); ("readStatus", JStr "Finished")].

Definition knuth_patched : object :=
  <["updatedAt" := JStr t1]> (<["readStatus" := JStr "Finished"]>
    (<["rating" := JNum (Q2Qc 5)]> knuth_stored)).

(** The query string [limit=5&offset=5]. *)
Definition second_page : object := list_to_map [
  ("limit", JStr "5"); ("offset", JStr "5")].

(** A query string that asks for a page of 501 records. *)
Definition oversized : object := {["limit" := JStr "501"]}.

(** The smoke-test payload as an import creates it: the first id drawn,
    both timestamps at [t0]. *)
Definition knuth_imported : object :=
  <["updatedAt" := JStr t0]> (<["createdAt" := JStr t0]>
    (<["id" := JStr "id-0"]> knuth)).

(** Two records with different ids, one of them with an ISBN. *)
Definition library : store := [knuth_stored; volume 2].

(** A patch that names [createdAt] alone, with a value that is no
    timestamp. *)
Definition garbage : object := {["createdAt" := JStr "garbage"]}.

(** The no-break space U+00A0, as UTF-8. *)
Definition nbsp : string :=
  String (ascii_of_N 194) (String (ascii_of_N 160) "").

(** A query for [q] in the order [sort]. *)
Definition sorted_query (text sort : option string) : list_query := {|
  q := text; author := None; tag := None;
  beforePurchaseDate := None; afterPurchaseDate := None;
  sort := sort; limit := 50; offset := 0
|}.

(** Two records whose titles are outside the Basic Latin block: U+FF21,
    one code unit FF21, and U+1F600, the code units D83D DE00. *)
Definition titled (title id : string) (tags : Datatypes.list string)
    : object := list_to_map [
  ("title", JStr title); ("id", JStr id); ("tags", JArr (JStr <$> tags));
  ("createdAt", JStr t0); ("updatedAt", JStr t0)].

Definition fullwidth_a : string := "Ａ".
Definition grinning_face : string := "😀".

Definition wide : store := [
  titled fullwidth_a "id-1" [fullwidth_a];
  titled grinning_face "id-2" [grinning_face]].

End Samples.

(** ** tools/smoke-test.js

    The requests of [run], served one after the other by the handlers.
    [uuid] is the id the server draws for the POST, [t_post] and
    [t_patch] are its clock at the POST and at the PATCH. *)

Module SmokeTest.
Import Js Validators Store Server.

Inductive outcome :=
| Passed                                  (* exit code 0 *)
| Failed (message : string).              (* exit code 1 *)

Definition book : object := Samples.knuth.

Definition patch : object := list_to_map [
  ("rating", JNum (Q2Qc 5)); ("readStatus", JStr "Finished")].

(** [/api/books?q=Algorithms&limit=5&offset=0] *)
Definition list_params : object := list_to_map [
  ("q", JStr "Algorithms"); ("limit", JStr "5"); ("offset", JStr "0")].

(** [created.json.id] in the path of a request; the id of a created
    book is a string. *)
Definition id_text (r : object) : string :=
  default "undefined" (str_field r "id").

(** The record the POST creates. *)
Definition stored (uuid now : string) : object :=
  <["updatedAt" := JStr now]> (<["createdAt" := JStr now]>
    (<["id" := JStr uuid]> book)).

Section run.
Context `{Formats} `{Conversions} {unicode : CaseMapping}.

Definition run (s : store) (uuid t_post t_patch : string)
  : outcome * store :=
  let '(created, s) := post_book s (JObj book) uuid t_post in
  match created with
  | Created r =>
      let id := id_text r in
      match get_book s id with
      | Ok _ =>
          match list_books s list_params with
          | Listed result =>
              if (length (items result) <? 1)%nat
              then (Failed "List failed", s) else
              let '(patched, s) := patch_book s id (JObj patch) t_patch in
              match patched with
              | Ok m =>
                  if negb (strict_eq (m !! "rating") (Some (JNum (Q2Qc 5))))
                  then (Failed "Patch failed", s) else
                  let '(del, s) := delete_book s id in
                  match del with
                  | NoContent => (Passed, s)
                  | _ => (Failed "Delete failed", s)
                  end
              | _ => (Failed "Patch failed", s)
              end
          | InvalidQuery => (Failed "List failed", s)
          end
      | _ => (Failed "Get failed", s)
      end
  | _ => (Failed "Create failed", s)
  end.

End run.

End SmokeTest.

(** * Proofs *)

Import Js Validators Store Server Spec.

(** The properties hold whatever the case mapping of the language. *)
Section language.
Context {unicode : CaseMapping}.

(** ** Identifiers *)

Lemma strict_eq_str (v : option json) (i : string) :
  strict_eq v (Some (JStr i)) = true ↔ v = Some (JStr i).
Proof.
  destruct v as [[]|]; simpl; try (split; [discriminate | congruence]).
  rewrite bool_decide_eq_true. split; congruence.
Qed.

Lemma has_id_str (b : object) (i : string) :
  has_id (Some (JStr i)) b = true ↔ b !! "id" = Some (JStr i).
Proof. apply strict_eq_str. Qed.

Lemma get_Some (s : store) (id : string) (B : object) :
  get s id = Some B → B ∈ s ∧ B !! "id" = Some (JStr id).
Proof.
  intros Hfind. apply find_some in Hfind as [Hin Hid].
  split; [by apply list_elem_of_In | by apply has_id_str].
Qed.

Lemma get_None (s : store) (id : string) :
  get s id = None ↔ ∀ b, b ∈ s → b !! "id" ≠ Some (JStr id).
Proof.
  unfold get. induction s as [|b s IH]; simpl.
  - split; [intros _ b Hb; by apply elem_of_nil in Hb | done].
  - destruct (has_id (Some (JStr id)) b) eqn:Hb.
    + split; [done | intros Hall].
      apply has_id_str in Hb. exfalso. by apply (Hall b); [left |].
    + rewrite IH. split.
      * intros Hall b' [->|Hin]%elem_of_cons; [| by apply Hall].
        intros Hid%has_id_str. congruence.
      * intros Hall b' Hin. apply Hall. by right.
Qed.

Section not_found.
Context `{Formats}.

(** ** C10: an unknown id is answered 404 before the body is looked at *)

(** C10.  When no record of the store has the id of the request, PUT and
    PATCH answer 404 whatever the body is, valid or not, and leave the
    store as it was. *)
Theorem unknown_id_not_found (s : store) (id : string) (body : json)
    (now : string) :
  (∀ b, b ∈ s → b !! "id" ≠ Some (JStr id)) →
  put_book s id body now = (NotFound, s)
  ∧ patch_book s id body now = (NotFound, s)
  ∧ status NotFound = Some 404%nat.
Proof.
  intros Hnone%get_None. unfold put_book, patch_book. by rewrite Hnone.
Qed.

(** ** C1: a patch that fails validation changes nothing *)

Lemma patch_book_cases (s : store) (id : string) (body : json) (now : string) :
  (get s id = None ∧ patch_book s id body now = (NotFound, s))
  ∨ (∃ B, get s id = Some B
      ∧ (validatePatchBook body).1 = false
      ∧ patch_book s id body now = (BadRequest, s))
  ∨ (∃ B, get s id = Some B
      ∧ (validatePatchBook body).1 = true
      ∧ (validateNewBook
           (patch_merged B (validatePatchBook body).2 now)).1 = false
      ∧ patch_book s id body now = (BadRequest, s))
  ∨ (∃ B m, get s id = Some B
      ∧ (validatePatchBook body).1 = true
      ∧ validateNewBook (patch_merged B (validatePatchBook body).2 now)
        = (true, m)
      ∧ patch_book s id body now = (Ok m, upsert s m)).
Proof.
  unfold patch_book. destruct (get s id) as [B|]; [| by left].
  right. destruct (validatePatchBook body) as [[] body'] eqn:Hp;
    cbn [fst snd negb].
  - destruct (validateNewBook (patch_merged B body' now)) as [[] m] eqn:Hm;
      cbn [fst snd negb].
    + right. right. by exists B, m.
    + right. left. exists B. by rewrite Hm.
  - left. by exists B.
Qed.

Lemma rating_out_of_range (o : object) (n : Z) :
  o !! "rating" = Some (JNum (Q2Qc (inject_Z n))) → ¬ (1 ≤ n ≤ 5) →
  (validatePatchBook (JObj o)).1 = false.
Proof.
  intros Hr Hn. unfold validatePatchBook, compile, validate_object.
  cbn [fst]. apply andb_false_intro2, not_true_is_false. intros Hall.
  unfold properties_ok in Hall. rewrite forallb_forall in Hall.
  specialize (Hall ("rating", SInteger 1 5)).
  cbn [fst snd] in Hall. rewrite Hr in Hall. cbn [opt_check check] in Hall.
  assert (Hin : In ("rating", SInteger 1 5) (properties partialBookSchema)).
  { vm_compute. do 17 right. by left. }
  apply Hall in Hin. clear Hall.
  apply andb_prop in Hin as [[_ Hlo]%andb_prop Hhi].
  apply bool_decide_eq_true in Hlo, Hhi.
  apply Hn. unfold Qcle in *. simpl in *.
  rewrite !Qred_correct in *. unfold Qle in *. simpl in *. lia.
Qed.

End not_found.

(** ** The validator *)

Section validator.
Context `{Formats}.

Lemma strip_lookup_Some (sc : object_schema) (o : object) k v :
  strip sc o !! k = Some v ↔ o !! k = Some v ∧ known sc k = true.
Proof. unfold strip. by rewrite map_lookup_filter_Some. Qed.

Lemma strip_lookup_known (sc : object_schema) (o : object) k :
  known sc k = true → strip sc o !! k = o !! k.
Proof.
  intros Hk. apply option_eq. intros v. rewrite strip_lookup_Some. tauto.
Qed.

Lemma strip_id (sc : object_schema) (o : object) :
  (∀ k v, o !! k = Some v → known sc k = true) → strip sc o = o.
Proof. intros Hall. apply map_filter_id. exact Hall. Qed.

Lemma strip_insert (sc : object_schema) (o : object) k v :
  known sc k = true → strip sc (<[k := v]> o) = <[k := v]> (strip sc o).
Proof. intros Hk. unfold strip. by rewrite map_filter_insert_True. Qed.

Lemma known_property (sc : object_schema) k c :
  (k, c) ∈ properties sc → known sc k = true.
Proof.
  intros Hin. apply bool_decide_eq_true, list_elem_of_fmap.
  by exists (k, c).
Qed.

Lemma properties_ok_spec (sc : object_schema) (o : object) :
  properties_ok sc o = true
  ↔ ∀ k c v, (k, c) ∈ properties sc → o !! k = Some v → check c v = true.
Proof.
  unfold properties_ok. rewrite forallb_forall. split.
  - intros Hall k c v Hin%list_elem_of_In Hv.
    apply Hall in Hin. cbn [fst snd] in Hin. by rewrite Hv in Hin.
  - intros Hall [k c] Hin%list_elem_of_In. cbn [fst snd].
    destruct (o !! k) as [v|] eqn:Hv; [| done]. by apply (Hall k c v).
Qed.

Lemma properties_ok_strip (sc : object_schema) (o : object) :
  properties_ok sc (strip sc o) = properties_ok sc o.
Proof.
  apply eq_true_iff_eq. rewrite !properties_ok_spec.
  split; intros Hall k c v Hin Hv; apply (Hall k c v Hin).
  - rewrite strip_lookup_known; [done | by eapply known_property].
  - rewrite strip_lookup_known in Hv; [done | by eapply known_property].
Qed.

Lemma required_ok_book (o : object) :
  required_ok bookSchema o = true ↔ is_Some (o !! "title").
Proof.
  unfold required_ok. cbn [required bookSchema forallb].
  by rewrite andb_true_r, bool_decide_eq_true.
Qed.

Lemma known_title : known bookSchema "title" = true.
Proof. reflexivity. Qed.

Lemma NoDup_book_keys : NoDup (properties bookSchema).*1.
Proof. by apply (bool_decide_unpack (NoDup _)); vm_compute. Qed.

(** The schema of a property of a book, read off the table. *)
Lemma book_property k c :
  (k, c) ∈ properties bookSchema
  ↔ (list_to_map (properties bookSchema) : gmap string schema) !! k = Some c.
Proof. apply elem_of_list_to_map, NoDup_book_keys. Qed.

Lemma known_book k :
  known bookSchema k = true
  ↔ is_Some ((list_to_map (properties bookSchema) : gmap string schema) !! k).
Proof.
  unfold known. rewrite bool_decide_eq_true, list_elem_of_fmap. split.
  - intros [[k' c] [-> Hin]]. exists c. by apply book_property.
  - intros [c Hc%book_property]. by exists (k, c).
Qed.

Lemma conforms_iff (b : object) :
  conforms b
  ↔ is_Some (b !! "title")
    ∧ (∀ k v, b !! k = Some v → known bookSchema k = true)
    ∧ properties_ok bookSchema b = true.
Proof.
  unfold conforms, validateNewBook, validate_object. split.
  - intros [= Hok Hstrip]. apply andb_prop in Hok as [Hreq Hprops].
    split_and!; [by apply required_ok_book | | done].
    intros k v Hv. rewrite <- Hstrip in Hv.
    by apply strip_lookup_Some in Hv as [_ ?].
  - intros (Htitle & Hknown & Hprops).
    rewrite strip_id by done. rewrite Hprops.
    apply required_ok_book in Htitle. by rewrite Htitle.
Qed.

(** What [validateNewBook] leaves behind when it accepts is the object
    without its additional properties, and it is accepted again as is. *)
Lemma validateNewBook_accepts (o m : object) :
  validateNewBook o = (true, m) → m = strip bookSchema o ∧ conforms m.
Proof.
  unfold validateNewBook, validate_object. intros [= Hok <-].
  split; [done |]. apply andb_prop in Hok as [Hreq Hprops].
  apply conforms_iff. split_and!.
  - rewrite strip_lookup_known by apply known_title.
    by apply required_ok_book.
  - by intros k v [_ ?]%strip_lookup_Some.
  - by rewrite properties_ok_strip.
Qed.

Lemma conforms_insert (b : object) k c v :
  conforms b →
  (list_to_map (properties bookSchema) : gmap string schema) !! k = Some c →
  check c v = true →
  conforms (<[k := v]> b).
Proof.
  rewrite !conforms_iff. intros (Htitle & Hknown & Hprops) Hc Hv.
  split_and!.
  - destruct (decide (k = "title")) as [->|Hne].
    + rewrite lookup_insert_eq. by eexists.
    + by rewrite lookup_insert_ne.
  - intros k' v'. destruct (decide (k = k')) as [<-|Hne].
    + intros _. apply known_book. by eexists.
    + rewrite lookup_insert_ne by done. apply Hknown.
  - rewrite properties_ok_spec in *. intros k' c' v' Hin.
    destruct (decide (k = k')) as [<-|Hne].
    + rewrite lookup_insert_eq. intros [= <-].
      apply book_property in Hin. congruence.
    + rewrite lookup_insert_ne by done. by apply Hprops.
Qed.

Lemma conforms_union (a b : object) :
  conforms a → conforms b → conforms (a ∪ b).
Proof.
  rewrite !conforms_iff.
  intros (Ht1 & Hk1 & Hp1) (Ht2 & Hk2 & Hp2). split_and!.
  - apply lookup_union_is_Some. by left.
  - intros k v [?|[_ ?]]%lookup_union_Some_raw; eauto.
  - rewrite properties_ok_spec in *. intros k c v Hin.
    intros [?|[_ ?]]%lookup_union_Some_raw; eauto.
Qed.

(** The value of a property of a conforming record passes its schema. *)
Lemma conforms_lookup (b : object) k c v :
  conforms b →
  (list_to_map (properties bookSchema) : gmap string schema) !! k = Some c →
  b !! k = Some v → check c v = true.
Proof.
  intros (_ & _ & Hp)%conforms_iff Hc%book_property Hv.
  rewrite properties_ok_spec in Hp. by apply (Hp k c v).
Qed.

Lemma conforms_string (b : object) k v :
  conforms b → k ∈ system_fields ∨ k ∈ ["isbn13"; "isbn10"; "title"] →
  b !! k = Some v → ∃ s, v = JStr s.
Proof.
  intros Hb Hk Hv.
  assert (∃ c, (list_to_map (properties bookSchema) : gmap string schema)
               !! k = Some (SString c)) as [c Hc].
  { unfold system_fields in Hk.
    repeat match goal with
    | H : _ ∨ _ |- _ => destruct H
    | H : _ ∈ _ :: _ |- _ => apply elem_of_cons in H
    | H : _ ∈ [] |- _ => by apply elem_of_nil in H
    end; subst; by eexists. }
  pose proof (conforms_lookup _ _ _ _ Hb Hc Hv) as Hchk.
  destruct v; try discriminate. by eexists.
Qed.

Lemma check_time (t : string) :
  is_time t → check (str_fmt FmtDateTime) (JStr t) = true.
Proof.
  unfold is_time. intros Ht.
  unfold str_fmt, check, is_string, check_string. cbn. by rewrite Ht.
Qed.

Lemma conforms_touch (b : object) (t : string) :
  conforms b → is_time t → conforms (<["updatedAt" := JStr t]> b).
Proof.
  intros Hb Ht. eapply conforms_insert; [done | reflexivity |].
  by apply check_time.
Qed.

End validator.

(** ** The store *)

Lemma strict_eq_eq (a b : option json) : strict_eq a b = true → a = b.
Proof.
  destruct a as [[]|], b as [[]|]; simpl; try discriminate; try done;
    by intros ->%bool_decide_eq_true.
Qed.

Lemma replace_first_Some {A} (p : A → bool) (f : A → A)
    (l l' : Datatypes.list A) :
  replace_first p f l = Some l' →
  ∃ j x, l !! j = Some x ∧ p x = true
         ∧ (∀ i y, (i < j)%nat → l !! i = Some y → p y = false)
         ∧ l' = <[j := f x]> l.
Proof.
  revert l'. induction l as [|b l IH]; intros l'; simpl; [done |].
  destruct (p b) eqn:Hb.
  - intros [= <-]. exists 0%nat, b. split_and!; [done | done | lia | done].
  - destruct (replace_first p f l) as [r|]; [| done]. intros [= <-].
    destruct (IH r eq_refl) as (j & x & Hj & Hx & Hbefore & ->).
    exists (S j), x. split_and!; [done | done | | done].
    intros [|i] y Hi; simpl; [congruence |]. apply Hbefore. lia.
Qed.

Lemma replace_first_None {A} (p : A → bool) (f : A → A) (l : Datatypes.list A) :
  replace_first p f l = None ↔ ∀ x, x ∈ l → p x = false.
Proof.
  induction l as [|b l IH]; simpl.
  - split; [intros _ x Hx; by apply elem_of_nil in Hx | done].
  - destruct (p b) eqn:Hb.
    + split; [done | intros Hall]. rewrite Hall in Hb; [done | by left].
    + destruct (replace_first p f l) as [l'|]; simpl.
      * split; [done | intros Hall].
        assert (Some l' = None); [| done].
        apply IH. intros x Hx. apply Hall. by right.
      * split; [| done]. intros _ x [->|Hx]%elem_of_cons; [done |].
        by apply IH.
Qed.

Lemma upsert_cons (b book : object) (s : store) :
  upsert (b :: s) book
  = if has_id (book !! "id") b then book :: s else b :: upsert s book.
Proof.
  unfold upsert. simpl. destruct (has_id (book !! "id") b); [done |].
  by destruct (replace_first _ _ s).
Qed.

Lemma get_upsert (s : store) (book : object) (i : string) :
  book !! "id" = Some (JStr i) → get (upsert s book) i = Some book.
Proof.
  intros Hid. assert (Hbook : has_id (Some (JStr i)) book = true)
    by by apply has_id_str.
  unfold get. induction s as [|b s IH].
  - unfold upsert. simpl. by rewrite Hbook.
  - rewrite upsert_cons, Hid. destruct (has_id (Some (JStr i)) b) eqn:Hb.
    + simpl. by rewrite Hbook.
    + simpl. by rewrite Hb.
Qed.

Lemma Forall_upsert (P : object → Prop) (s : store) (book : object) :
  Forall P s → P book → Forall P (upsert s book).
Proof.
  intros Hs Hbook. induction Hs as [|b s Hb Hs IH].
  - unfold upsert. simpl. by constructor.
  - rewrite upsert_cons. destruct (has_id _ b); by constructor.
Qed.

Section patch_and_post.
Context `{Formats}.

(** C1, as amended.  [validatePatchBook] removes from the body every
    property the patch schema does not have, [id], [createdAt] and
    [updatedAt] among them, and the handler merges what is left over the
    stored book [B].  When the body fails the patch schema, or when that
    merge fails the full-book validator, the answer is 400 and the store
    is the one before the request; in particular the book found under
    the id is still [B].  Nothing is written unless both validations
    pass. *)
Theorem patch_invalid_rejected (s : store) (id : string) (body : json)
    (now : string) (B : object) :
  get s id = Some B →
  (validatePatchBook body).1 = false
  ∨ (validateNewBook (patch_merged B (validatePatchBook body).2 now)).1
    = false →
  patch_book s id body now = (BadRequest, s)
  ∧ status (patch_book s id body now).1 = Some 400%nat
  ∧ get (patch_book s id body now).2 id = Some B.
Proof.
  intros HB Hbad.
  assert (patch_book s id body now = (BadRequest, s)) as ->; [| done].
  destruct (patch_book_cases s id body now)
    as [[Hg _]|[(B' & _ & _ & ?)|[(B' & _ & _ & _ & ?)|
        (B' & m & Hg & Hv & Hm & _)]]]; [congruence | done | done |].
  assert (B' = B) as -> by congruence.
  destruct Hbad as [Hbad|Hbad]; [congruence | by rewrite Hm in Hbad].
Qed.

(** A rating outside 1..5 in the body is such a request. *)
Lemma patch_rating_rejected (s : store) (id : string) (o : object)
    (now : string) (B : object) (n : Z) :
  get s id = Some B →
  o !! "rating" = Some (JNum (Q2Qc (inject_Z n))) → ¬ (1 ≤ n ≤ 5) →
  patch_book s id (JObj o) now = (BadRequest, s).
Proof.
  intros HB Hr Hn. pose proof (rating_out_of_range o n Hr Hn) as Hp.
  destruct (patch_book_cases s id (JObj o) now)
    as [[Hg _]|[(B' & _ & _ & ?)|[(B' & _ & Hp' & _)|
        (B' & m & _ & Hp' & _)]]]; congruence.
Qed.

(** A PATCH writes only what the full-book validator accepted. *)
Lemma patch_book_writes (s s' : store) (id : string) (body : json)
    (now : string) (r : response) :
  patch_book s id body now = (r, s') → s' ≠ s →
  ∃ B m, get s id = Some B
    ∧ validateNewBook (patch_merged B (validatePatchBook body).2 now)
      = (true, m)
    ∧ r = Ok m ∧ s' = upsert s m.
Proof.
  intros Hp Hne.
  destruct (patch_book_cases s id body now)
    as [[_ Hq]|[(B & _ & _ & Hq)|[(B & _ & _ & _ & Hq)|
        (B & m & Hg & _ & Hm & Hq)]]]; rewrite Hq in Hp;
    injection Hp as <- <-; try done.
  by exists B, m.
Qed.

(** ** POST then GET *)

Lemma post_book_created (s s' : store) (body : json) (uuid now : string)
    (r : object) :
  post_book s body uuid now = (Created r, s') →
  validateNewBook
    (<["updatedAt" := JStr now]> (<["createdAt" := JStr now]>
      (<["id" := JStr uuid]> (spread body)))) = (true, r)
  ∧ s' = upsert s r.
Proof.
  unfold post_book.
  match goal with
  | |- context [validateNewBook ?o] =>
      destruct (validateNewBook o) as [[] m] eqn:Hv; cbn [negb]; [| done]
  end.
  destruct (if nonempty _ then _ else _); [done |].
  by intros [= <- <-].
Qed.

Lemma post_book_record (s s' : store) (body : json) (uuid now : string)
    (r : object) :
  post_book s body uuid now = (Created r, s') →
  r = <["updatedAt" := JStr now]> (<["createdAt" := JStr now]>
        (<["id" := JStr uuid]> (strip bookSchema (spread body))))
  ∧ s' = upsert s r.
Proof.
  intros [Hv ->]%post_book_created.
  apply validateNewBook_accepts in Hv as [-> _].
  by rewrite !strip_insert by reflexivity.
Qed.

(** C7, as amended.  When POST answers 201, the record it returns is the
    payload restricted to the properties of the book schema, with [id],
    [createdAt] and [updatedAt] set to the server's values (whatever the
    client sent for these three), and GET with that id returns the same
    record. *)
Theorem post_then_get (s s' : store) (body : json) (uuid now : string)
    (r : object) :
  post_book s body uuid now = (Created r, s') →
  r = <["updatedAt" := JStr now]> (<["createdAt" := JStr now]>
        (<["id" := JStr uuid]> (strip bookSchema (spread body))))
  ∧ r !! "id" = Some (JStr uuid)
  ∧ get_book s' uuid = Ok r.
Proof.
  intros [Hr ->]%post_book_record.
  assert (Hid : r !! "id" = Some (JStr uuid)).
  { rewrite Hr. by simplify_map_eq. }
  split_and!; [done | done |].
  unfold get_book. by rewrite (get_upsert _ _ uuid).
Qed.

End patch_and_post.

(** ** The order on timestamps *)

Lemma ascii_compare_N (a b : ascii) :
  Ascii.compare a b = (N_of_ascii a ?= N_of_ascii b)%N.
Proof. reflexivity. Qed.

Lemma string_compare_refl (s : string) : String.compare s s = Eq.
Proof.
  induction s as [|a s IH]; simpl; [done |].
  by rewrite ascii_compare_N, N.compare_refl.
Qed.

Lemma time_le_refl (s : string) : time_le s s.
Proof. unfold time_le, String.leb. by rewrite string_compare_refl. Qed.

Lemma string_compare_trans (c : comparison) (s1 s2 s3 : string) :
  String.compare s1 s2 = c → String.compare s2 s3 = c →
  String.compare s1 s3 = c.
Proof.
  revert s2 s3. induction s1 as [|a s1 IH]; intros [|b s2] [|d s3]; simpl;
    try congruence.
  rewrite !ascii_compare_N.
  destruct (N.compare_spec (N_of_ascii a) (N_of_ascii b)) as [Hab|Hab|Hab];
    destruct (N.compare_spec (N_of_ascii b) (N_of_ascii d)) as [Hbd|Hbd|Hbd];
    intros H1 H2; subst c; try discriminate.
  - rewrite Hab, Hbd, N.compare_refl. by eapply IH.
  - rewrite Hab. by apply N.compare_lt_iff in Hbd as ->.
  - rewrite Hab. by apply N.compare_gt_iff in Hbd as ->.
  - rewrite <- Hbd. by apply N.compare_lt_iff in Hab as ->.
  - assert (N_of_ascii a < N_of_ascii d)%N as Hlt by lia.
    by apply N.compare_lt_iff in Hlt as ->.
  - rewrite <- Hbd. by apply N.compare_gt_iff in Hab as ->.
  - assert (N_of_ascii d < N_of_ascii a)%N as Hlt by lia.
    by apply N.compare_gt_iff in Hlt as ->.
Qed.

Lemma string_compare_Eq (s1 s2 : string) :
  String.compare s1 s2 = Eq ↔ s1 = s2.
Proof.
  split; [apply String.compare_eq_iff | intros ->; apply string_compare_refl].
Qed.

Lemma time_le_trans (s1 s2 s3 : string) :
  time_le s1 s2 → time_le s2 s3 → time_le s1 s3.
Proof.
  unfold time_le, String.leb.
  destruct (String.compare s1 s2) eqn:H12; [| | done];
    destruct (String.compare s2 s3) eqn:H23; try done; intros _ _.
  - apply string_compare_Eq in H12 as ->. by rewrite H23.
  - apply string_compare_Eq in H12 as ->. by rewrite H23.
  - apply string_compare_Eq in H23 as <-. by rewrite H12.
  - by rewrite (string_compare_trans Lt s1 s2 s3).
Qed.

Lemma time_le_total (s1 s2 : string) : time_le s1 s2 ∨ time_le s2 s1.
Proof. apply String.leb_total. Qed.

Lemma ltb_false_le (s1 s2 : string) :
  String.ltb s1 s2 = false ↔ time_le s2 s1.
Proof.
  unfold time_le, String.ltb, String.leb.
  rewrite (String.compare_antisym s1 s2).
  by destruct (String.compare s2 s1).
Qed.

Lemma ltb_true_le (s1 s2 : string) :
  String.ltb s1 s2 = true → time_le s1 s2.
Proof.
  unfold time_le, String.ltb, String.leb. by destruct (String.compare s1 s2).
Qed.

Lemma stamped_monotonic (t : string) (b : object) : stamped t b → monotonic b.
Proof. intros (c & u & ? & ? & ? & _). by exists c, u. Qed.

Lemma stamped_later (t t' : string) (b : object) :
  time_le t t' → stamped t b → stamped t' b.
Proof.
  intros Ht (c & u & ? & ? & ? & Hu). exists c, u. split_and!; try done.
  by eapply time_le_trans.
Qed.

(** ** importJson *)

Lemma nonempty_true (s : string) : nonempty s = true ↔ s ≠ "".
Proof. unfold nonempty. by rewrite negb_true_iff, bool_decide_eq_false. Qed.

Lemma nonempty_false (s : string) : nonempty s = false ↔ s = "".
Proof. unfold nonempty. by rewrite negb_false_iff, bool_decide_eq_true. Qed.

Lemma has_id_eq (id : option json) (b : object) :
  has_id id b = true → b !! "id" = id.
Proof. apply strict_eq_eq. Qed.

(** [Object.assign] writes the record the specification describes. *)
Lemma merge_into_merged (existing incoming : object) (id : option json)
    (now : string) :
  has_id id existing = true →
  merge_into existing incoming id now = merged existing incoming now.
Proof.
  intros Hid%has_id_eq. unfold merge_into, merged. rewrite Hid.
  apply map_eq. intros k. unfold set_prop at 1 3.
  destruct (decide (k = "updatedAt")) as [->|Hu].
  { by rewrite lookup_union_l', !lookup_insert_eq by by rewrite lookup_insert_eq. }
  rewrite lookup_insert_ne by done.
  rewrite lookup_union, lookup_insert_ne by done.
  destruct id as [v|]; unfold set_prop.
  - destruct (decide (k = "id")) as [->|Hi].
    + rewrite !lookup_insert_eq. by destruct (existing !! "id").
    + by rewrite !lookup_insert_ne, lookup_union by done.
  - destruct (decide (k = "id")) as [->|Hi].
    + by rewrite !lookup_delete_eq, Hid.
    + by rewrite !lookup_delete_ne, lookup_union by done.
Qed.

Lemma import_step_cases (dedupe : bool) (now : string) (st st' : import_state)
    (x : object) :
  import_step dedupe now st x = Some st' →
  (∃ id j e,
      dedupe = true ∧ isbnKey x ≠ ""
      ∧ byIsbn st !! isbnKey x = Some id
      ∧ books st !! j = Some e ∧ has_id id e = true
      ∧ (∀ i y, (i < j)%nat → books st !! i = Some y → has_id id y = false)
      ∧ st' = {| books := <[j := merged e x now]> (books st);
                 byIsbn := byIsbn st;
                 created := created st; updated := S (updated st) |})
  ∨ ((dedupe = false ∨ isbnKey x = "" ∨ byIsbn st !! isbnKey x = None)
     ∧ st' = {| books := books st ++ [x];
                byIsbn := if dedupe && nonempty (isbnKey x)
                          then <[isbnKey x := x !! "id"]> (byIsbn st)
                          else byIsbn st;
                created := S (created st); updated := updated st |}).
Proof.
  unfold import_step.
  destruct (dedupe && nonempty (isbnKey x)) eqn:Hd.
  - apply andb_prop in Hd as [-> Hk%nonempty_true].
    destruct (byIsbn st !! isbnKey x) as [id|] eqn:Hm.
    + destruct (replace_first _ _ (books st)) as [s'|] eqn:Hr; [| done].
      cbn. intros [= <-]. left.
      apply replace_first_Some in Hr as (j & e & Hj & He & Hbefore & ->).
      exists id, j, e. split_and!; try done.
      by rewrite merge_into_merged.
    + intros [= <-]. right. split; [by right; right | done].
  - intros [= <-]. right. split; [| done].
    apply andb_false_iff in Hd as [->|Hk%nonempty_false]; auto.
Qed.

Lemma import_loop_Forall (P Q : object → Prop) (dedupe : bool)
    (clock : nat → string) (array : Datatypes.list object) :
  (∀ x, Q x → P x) →
  (∀ e x k, P e → Q x → P (merged e x (clock k))) →
  Forall Q array →
  ∀ i st st', import_loop dedupe clock i array st = Some st' →
  Forall P (books st) → Forall P (books st').
Proof.
  intros Hpush Hmerge. induction 1 as [|x array Hx Harray IH];
    intros i st st'; simpl.
  - by intros [= <-].
  - destruct (import_step dedupe (clock i) st x) as [st1|] eqn:Hstep;
      [| done]. cbn. intros Hloop Hst. apply (IH _ _ _ Hloop).
    apply import_step_cases in Hstep
      as [(id & j & e & _ & _ & _ & Hj & _ & _ & ->)|[_ ->]]; cbn.
    + apply Forall_insert; [done |]. apply Hmerge; [| done].
      by eapply Forall_lookup_1.
    + apply Forall_app. split; [done |]. constructor; [by apply Hpush | done].
Qed.

Lemma importJson_Forall (P Q : object → Prop) (clock : nat → string)
    (s s' : store) (array : Datatypes.list object) (dedupe : bool) (n : nat * nat) :
  (∀ x, Q x → P x) →
  (∀ e x k, P e → Q x → P (merged e x (clock k))) →
  Forall Q array → Forall P s →
  importJson s array dedupe clock = Some (s', n) → Forall P s'.
Proof.
  intros Hpush Hmerge Harray Hs. unfold importJson.
  destruct (import_loop _ _ _ _ _) as [st|] eqn:Hloop; [| done].
  cbn. intros [= <- _].
  by eapply (import_loop_Forall P Q); [done | done | done | apply Hloop |].
Qed.

Section import_handler.
Context `{Formats}.

Lemma conforms_delete (b : object) k :
  conforms b → k ≠ "title" → conforms (delete k b).
Proof.
  rewrite !conforms_iff. intros (Htitle & Hknown & Hprops) Hk. split_and!.
  - by rewrite lookup_delete_ne.
  - intros k' v [_ Hv]%lookup_delete_Some. by eapply Hknown.
  - rewrite properties_ok_spec in *. intros k' c v Hin
      [_ Hv]%lookup_delete_Some. by eapply Hprops.
Qed.

Lemma conforms_merged (existing incoming : object) (now : string) :
  conforms existing → conforms incoming → is_time now →
  conforms (merged existing incoming now).
Proof.
  intros He Hi Hnow. unfold merged. apply conforms_touch; [| done].
  pose proof (conforms_union _ _ Hi He) as Hu.
  destruct (existing !! "id") as [v|] eqn:Hid; cbn.
  - eapply conforms_insert; [done | reflexivity |].
    eapply (conforms_lookup existing "id"); [done | reflexivity | done].
  - by apply conforms_delete.
Qed.

(** What the import handler passes to the store. *)
Lemma normalize_Books (uuid : nat → string) (now : string)
    (raws : Datatypes.list json) :
  ∀ i incoming, normalize uuid now i raws = Books incoming →
  Forall (λ b, conforms b ∧ b !! "updatedAt" = Some (JStr now)
      ∧ ∃ c, b !! "createdAt" = Some (JStr c)
          ∧ (c = now ∨ ∃ raw, raw ∈ raws
                ∧ get_prop raw "createdAt" = Some (Some (JStr c))))
    incoming.
Proof.
  induction raws as [|raw raws IH]; intros i incoming; cbn [normalize].
  - by intros [= <-].
  - destruct (get_prop raw "id") as [raw_id|]; [| done].
    destruct (get_prop raw "createdAt") as [raw_createdAt|] eqn:Hraw; [| done].
    match goal with
    | |- context [validateNewBook ?o] =>
        destruct (validateNewBook o) as [[] b] eqn:Hv; cbn [negb]; [| done]
    end.
    destruct (normalize uuid now (S i) raws) as [rest| |] eqn:Hrest;
      try done.
    intros [= <-]. apply validateNewBook_accepts in Hv as [Hb Hconf].
    constructor.
    + split; [done |].
      assert (Hu : b !! "updatedAt" = Some (JStr now)).
      { rewrite Hb, strip_lookup_known by reflexivity.
        by rewrite lookup_insert_eq. }
      split; [done |].
      assert (Hc : b !! "createdAt"
                   = js_or raw_createdAt (Some (JStr now))).
      { rewrite Hb, strip_lookup_known by reflexivity.
        rewrite lookup_insert_ne by done. unfold js_or.
        destruct (truthy raw_createdAt) eqn:Ht.
        - destruct raw_createdAt as [v|]; [| done]. cbn.
          by rewrite lookup_insert_eq.
        - cbn. by rewrite lookup_insert_eq. }
      unfold js_or in Hc. destruct (truthy raw_createdAt) eqn:Ht.
      * destruct raw_createdAt as [v|]; [| done].
        destruct (conforms_string b "createdAt" v Hconf) as [c ->];
          [left; set_solver | done |].
        exists c. split; [done |]. right. exists raw. split; [by left | done].
      * exists now. by split; [| left].
    + eapply Forall_impl; [by eapply IH |]. cbn.
      intros b' (? & ? & c & ? & [->|(raw' & ? & ?)]); split_and!; try done.
      * exists now. by split; [| left].
      * exists c. split; [done |]. right. exists raw'. split; [by right | done].
Qed.

End import_handler.

(** ** What each handler does to the store *)

Section requests.
Context `{Formats}.

Lemma post_book_cases (s : store) (body : json) (uuid now : string) :
  (post_book s body uuid now).2 = s
  ∨ ∃ r, post_book s body uuid now = (Created r, upsert s r).
Proof.
  destruct (post_book s body uuid now) as [resp s'] eqn:Hp.
  unfold post_book in Hp.
  match type of Hp with
  | context [validateNewBook ?o] =>
      destruct (validateNewBook o) as [[] m]; cbn [negb] in Hp
  end; [| left; by injection Hp as _ <-].
  destruct (if nonempty _ then _ else _); injection Hp as <- <-;
    [by left | right; by eexists].
Qed.

Lemma put_book_cases (s : store) (id : string) (body : json) (now : string) :
  (put_book s id body now).2 = s
  ∨ ∃ existing r,
      get s id = Some existing
      ∧ validateNewBook
          (<["updatedAt" := JStr now]>
            (set_prop "createdAt" (existing !! "createdAt")
              (set_prop "id" (existing !! "id") (spread body)))) = (true, r)
      ∧ put_book s id body now = (Ok r, upsert s r).
Proof.
  unfold put_book. destruct (get s id) as [existing|]; [| by left].
  match goal with
  | |- context [validateNewBook ?o] =>
      destruct (validateNewBook o) as [[] m] eqn:Hv; cbn [negb]
  end; [| by left].
  right. by exists existing, m.
Qed.

(** The body, once [validatePatchBook] has accepted it, names no system
    field. *)
Lemma patch_body_no_system_field (body body' : json) k :
  validatePatchBook body = (true, body') → k ∈ system_fields →
  spread body' !! k = None.
Proof.
  unfold validatePatchBook, compile.
  destruct body as [| | | | |o]; try done. intros [= _ <-] Hk. cbn [spread].
  apply eq_None_not_Some. intros [v [_ Hv]%strip_lookup_Some].
  unfold system_fields in Hk.
  repeat match goal with
  | H : _ ∨ _ |- _ => destruct H
  | H : _ ∈ _ :: _ |- _ => apply elem_of_cons in H
  | H : _ ∈ [] |- _ => by apply elem_of_nil in H
  end; by subst.
Qed.

(** A body that names patchable properties only is merged as it was
    sent. *)
Lemma patch_body_unchanged (o : object) :
  (∀ k v, o !! k = Some v → known partialBookSchema k = true) →
  (validatePatchBook (JObj o)).2 = JObj o.
Proof.
  intros Hknown. unfold validatePatchBook, compile, validate_object.
  cbn [snd]. by rewrite strip_id.
Qed.

Lemma Forall_remove (P : object → Prop) (s : store) (id : string) :
  Forall P s → Forall P (remove s id).2.
Proof.
  intros Hs. cbn. apply Forall_forall. intros b [Hb _]%list_elem_of_In%filter_In.
  rewrite Forall_forall in Hs. by apply Hs, list_elem_of_In.
Qed.

Lemma delete_book_store (s : store) (id : string) :
  (delete_book s id).2 = (remove s id).2.
Proof. unfold delete_book. by destruct (remove s id) as [[] s']. Qed.

Lemma import_json_cases (s : store) (body : json) (uuid : nat → string)
    (now : string) (clock : nat → string) :
  (import_json s body uuid now clock).2 = s
  ∨ ∃ raws incoming s' n,
      body = JArr raws
      ∧ normalize uuid now 0 raws = Books incoming
      ∧ importJson s incoming true clock = Some (s', n)
      ∧ import_json s body uuid now clock = (Imported n.1 n.2, s').
Proof.
  unfold import_json. destruct body as [| | | |raws|]; try by left.
  destruct (normalize uuid now 0 raws) as [incoming| |] eqn:Hn; try by left.
  destruct (importJson s incoming true clock) as [[s' [c u]]|] eqn:Hi;
    [| by left].
  right. by exists raws, incoming, s', (c, u).
Qed.

(** Every record of the store stays a record the validator accepts. *)
Lemma handle_conforms (s : store) (r : request) (t t' : string) :
  Forall conforms s → ticks t r t' → Forall conforms (handle s r).2.
Proof.
  intros Hs Hticks. destruct r as [body uuid now|id body now|id body now|id|
    body uuid now clock]; cbn [handle].
  - destruct (post_book_cases s body uuid now) as [->|[r Hp]]; [done |].
    rewrite Hp. apply post_book_created in Hp as [Hv _].
    apply Forall_upsert; [done |]. by apply validateNewBook_accepts in Hv as [_ ?].
  - destruct (put_book_cases s id body now)
      as [->|(existing & r & _ & Hv & ->)]; [done |].
    apply Forall_upsert; [done |]. by apply validateNewBook_accepts in Hv as [_ ?].
  - destruct (patch_book_cases s id body now)
      as [[_ ->]|[(B & _ & _ & ->)|[(B & _ & _ & _ & ->)|
          (B & m & _ & _ & Hv & ->)]]]; try done.
    apply Forall_upsert; [done |]. by apply validateNewBook_accepts in Hv as [_ ?].
  - rewrite delete_book_store. by apply Forall_remove.
  - destruct (import_json_cases s body uuid now clock)
      as [->|(raws & incoming & s' & n & _ & Hn & Hi & ->)]; [done |].
    destruct Hticks as (_ & _ & _ & Hclock).
    eapply (importJson_Forall conforms conforms); [done | | | done | done].
    + intros e x k He Hx. apply conforms_merged; [done | done |].
      apply Hclock.
    + eapply Forall_impl; [by eapply normalize_Books |]. by intros b [? _].
Qed.

Lemma reachable_conforms (allowed : request → Prop) (t : string) (s : store) :
  reachable allowed t s → Forall conforms s.
Proof.
  induction 1 as [|t s r t' _ IH _ Hticks]; [done |].
  by eapply handle_conforms.
Qed.

(** ** C8: an empty patch *)



End requests.

(** ** Ids and timestamps *)

Lemma lookup_set_prop (o : object) k k' (v : option json) :
  set_prop k v o !! k' = if decide (k = k') then v else o !! k'.
Proof.
  unfold set_prop. destruct v as [x|]; case_decide as Hk; subst.
  - by rewrite lookup_insert_eq.
  - by rewrite lookup_insert_ne.
  - by rewrite lookup_delete_eq.
  - by rewrite lookup_delete_ne.
Qed.

Lemma merged_id (existing incoming : object) (now : string) :
  id_of (merged existing incoming now) = id_of existing.
Proof.
  unfold id_of, merged. rewrite lookup_insert_ne by done.
  by rewrite lookup_set_prop, decide_True.
Qed.

Lemma ids_insert_same (s : store) (j : nat) (e b : object) :
  s !! j = Some e → id_of b = id_of e → ids (<[j := b]> s) = ids s.
Proof.
  intros Hj Hb. unfold ids. rewrite list_fmap_insert, Hb.
  apply list_insert_id. by rewrite list_lookup_fmap, Hj.
Qed.

Lemma ids_upsert_existing (s : store) (book existing : object) (i : string) :
  get s i = Some existing → book !! "id" = Some (JStr i) →
  ids (upsert s book) = ids s.
Proof.
  intros Hget Hid. unfold get in Hget.
  induction s as [|b s IH]; [done |].
  rewrite upsert_cons, Hid. simpl in Hget.
  destruct (has_id (Some (JStr i)) b) eqn:Hb.
  - apply has_id_str in Hb. unfold ids, id_of. simpl. congruence.
  - unfold ids in *. simpl. f_equal. by apply IH.
Qed.

Lemma import_loop_ids (dedupe : bool) (clock : nat → string)
    (array : Datatypes.list object) :
  ∀ i st st', import_loop dedupe clock i array st = Some st' →
  ids (books st) `prefix_of` ids (books st').
Proof.
  induction array as [|x array IH]; intros i st st'; simpl.
  - by intros [= <-].
  - destruct (import_step dedupe (clock i) st x) as [st1|] eqn:Hstep;
      [| done]. cbn. intros Hloop%IH. etrans; [| done].
    apply import_step_cases in Hstep
      as [(id & j & e & _ & _ & _ & Hj & _ & _ & ->)|[_ ->]]; cbn.
    + rewrite (ids_insert_same _ j e); [done | done | apply merged_id].
    + unfold ids. rewrite fmap_app. by apply prefix_app_r.
Qed.

Lemma importJson_ids (s s' : store) (array : Datatypes.list object)
    (dedupe : bool) (clock : nat → string) (n : nat * nat) :
  importJson s array dedupe clock = Some (s', n) →
  ids s `prefix_of` ids s'.
Proof.
  unfold importJson.
  destruct (import_loop _ _ _ _ _) as [st|] eqn:Hloop; [| done].
  cbn. intros [= <- _]. by apply import_loop_ids in Hloop.
Qed.

Section stamps.
Context `{Formats}.

Lemma post_book_stamps (s s' : store) (body : json) (uuid now : string)
    (r : object) :
  post_book s body uuid now = (Created r, s') →
  r !! "id" = Some (JStr uuid) ∧ r !! "createdAt" = Some (JStr now)
  ∧ r !! "updatedAt" = Some (JStr now).
Proof. intros [-> _]%post_book_record. by simplify_map_eq. Qed.

Lemma put_book_stamps (s s' : store) (id : string) (body : json)
    (now : string) (r : object) :
  put_book s id body now = (Ok r, s') →
  ∃ B, get s id = Some B ∧ s' = upsert s r
       ∧ r !! "id" = Some (JStr id) ∧ r !! "createdAt" = B !! "createdAt"
       ∧ r !! "updatedAt" = Some (JStr now).
Proof.
  unfold put_book. destruct (get s id) as [B|] eqn:HB; [| done].
  match goal with
  | |- context [validateNewBook ?o] =>
      destruct (validateNewBook o) as [[] m] eqn:Hv; cbn [negb]
  end; [| done]. intros [= <- <-]. exists B.
  apply validateNewBook_accepts in Hv as [-> _].
  pose proof (get_Some _ _ _ HB) as [_ Hid].
  rewrite !strip_lookup_known by reflexivity.
  rewrite lookup_insert_eq, !lookup_insert_ne, !lookup_set_prop by done.
  split_and!; try done; repeat case_decide; congruence.
Qed.

Lemma patch_book_stamps (s s' : store) (id : string) (body : json)
    (now : string) (r : object) :
  patch_book s id body now = (Ok r, s') →
  ∃ B, get s id = Some B ∧ s' = upsert s r
       ∧ r !! "id" = Some (JStr id) ∧ r !! "createdAt" = B !! "createdAt"
       ∧ r !! "updatedAt" = Some (JStr now).
Proof.
  intros Hp. destruct (patch_book_cases s id body now)
    as [[_ Hq]|[(B & _ & _ & Hq)|[(B & _ & _ & _ & Hq)|
        (B & m & HB & Hb & Hv & Hq)]]]; rewrite Hq in Hp; try done.
  injection Hp as <- <-. exists B.
  apply validateNewBook_accepts in Hv as [-> _].
  destruct (validatePatchBook body) as [ok body'] eqn:Hpb.
  cbn [fst snd] in *. subst ok.
  pose proof (patch_body_no_system_field body body' "createdAt" Hpb
    (list_elem_of_further _ _ _ (list_elem_of_here _ _))) as Hnone.
  pose proof (get_Some _ _ _ HB) as [_ Hid].
  rewrite !strip_lookup_known by reflexivity. unfold patch_merged.
  rewrite lookup_insert_eq, !lookup_insert_ne, !lookup_set_prop by done.
  split_and!; [done | done | by rewrite decide_True | | done].
  rewrite decide_False by done. by rewrite lookup_union_r.
Qed.

(** Each record carries its two timestamps, in order and not ahead of the
    clock, as long as no import brings a later [createdAt]. *)
Lemma handle_stamped (s : store) (r : request) (t t' : string) :
  Forall (stamped t) s → not_postdated r → ticks t r t' →
  Forall (stamped t') (handle s r).2.
Proof.
  intros Hs Hpast Hticks.
  assert (Hold : time_le t t' → Forall (stamped t') s).
  { intros Ht. eapply Forall_impl; [done |]. intros b. by apply stamped_later. }
  destruct r as [body uuid now|id body now|id body now|id|
    body uuid now clock]; cbn [handle ticks] in *.
  - destruct Hticks as (_ & Ht & Ht').
    specialize (Hold (time_le_trans _ _ _ Ht Ht')).
    destruct (post_book_cases s body uuid now) as [->|[r Hp]]; [done |].
    rewrite Hp. apply Forall_upsert; [done |].
    apply post_book_stamps in Hp as (_ & Hc & Hu).
    exists now, now. split_and!; try done. apply time_le_refl.
  - destruct Hticks as (_ & Ht & Ht').
    specialize (Hold (time_le_trans _ _ _ Ht Ht')).
    destruct (put_book s id body now) as [resp s'] eqn:Hp.
    destruct (put_book_cases s id body now)
      as [Hsame|(_ & r & _ & _ & Hq)]; rewrite Hp in *; [by subst |].
    injection Hq as -> ->.
    apply put_book_stamps in Hp as (B & HB & _ & _ & Hc & Hu).
    apply Forall_upsert; [done |].
    apply get_Some in HB as [HB _]. rewrite Forall_forall in Hs.
    destruct (Hs B HB) as (c & u & HBc & _ & Hcu & Hut).
    exists c, now. split_and!; try congruence.
    eauto using time_le_trans.
  - destruct Hticks as (_ & Ht & Ht').
    specialize (Hold (time_le_trans _ _ _ Ht Ht')).
    destruct (patch_book s id body now) as [resp s'] eqn:Hp.
    destruct (patch_book_cases s id body now)
      as [[_ Hq]|[(B & _ & _ & Hq)|[(B & _ & _ & _ & Hq)|
          (_ & r & _ & _ & _ & Hq)]]]; rewrite Hp in Hq;
      injection Hq as -> ->; try done.
    apply patch_book_stamps in Hp as (B & HB & _ & _ & Hc & Hu).
    apply Forall_upsert; [done |].
    apply get_Some in HB as [HB _]. rewrite Forall_forall in Hs.
    destruct (Hs B HB) as (c & u & HBc & _ & Hcu & Hut).
    exists c, now. split_and!; try congruence.
    eauto using time_le_trans.
  - rewrite delete_book_store. by apply Forall_remove, Hold.
  - destruct Hticks as (_ & Ht & Ht' & Hclock).
    specialize (Hold (time_le_trans _ _ _ Ht Ht')).
    destruct (import_json_cases s body uuid now clock)
      as [->|(raws & incoming & s' & n & -> & Hn & Hi & ->)]; [done |].
    cbn [not_postdated] in Hpast.
    eapply (importJson_Forall (stamped t')
      (λ x, x !! "updatedAt" = Some (JStr now)
            ∧ ∃ c, x !! "createdAt" = Some (JStr c) ∧ time_le c now));
      [| | | done | done].
    + intros x (Hu & c & Hc & Hle). by exists c, now.
    + intros e x k _ (_ & c & Hc & Hle). destruct (Hclock k) as (_ & Hk & Hk').
      exists c, (clock k). unfold merged. split_and!; try done.
      * rewrite lookup_insert_ne, lookup_set_prop, decide_False by done.
        by rewrite lookup_union_l'.
      * by rewrite lookup_insert_eq.
      * eauto using time_le_trans.
    + eapply Forall_impl; [by eapply normalize_Books |]. cbn.
      intros b (_ & Hu & c & Hc & [->|(raw & Hraw & Hrc)]).
      * split; [done |]. exists now. split; [done | apply time_le_refl].
      * split; [done |]. exists c. split; [done |]. by eapply Hpast.
Qed.

Lemma reachable_stamped (t : string) (s : store) :
  reachable not_postdated t s → Forall (stamped t) s.
Proof.
  induction 1 as [|t s r t' _ IH Hpast Hticks]; [done |].
  by eapply handle_stamped.
Qed.

End stamps.

Section invariants.
Context `{Formats}.

Lemma put_book_ids (s : store) (id : string) (body : json) (now : string) :
  ids (put_book s id body now).2 = ids s.
Proof.
  destruct (put_book s id body now) as [resp s'] eqn:Hp.
  destruct (put_book_cases s id body now)
    as [Hsame|(B & r & HB & _ & Hq)]; rewrite Hp in *; [by subst |].
  injection Hq as -> ->.
  apply put_book_stamps in Hp as (_ & _ & _ & Hid & _).
  by apply (ids_upsert_existing s r B id).
Qed.

Lemma patch_book_ids (s : store) (id : string) (body : json) (now : string) :
  ids (patch_book s id body now).2 = ids s.
Proof.
  destruct (patch_book s id body now) as [resp s'] eqn:Hp.
  destruct (patch_book_cases s id body now)
    as [[_ Hq]|[(B & _ & _ & Hq)|[(B & _ & _ & _ & Hq)|
        (B & r & HB & _ & _ & Hq)]]]; rewrite Hp in Hq;
    injection Hq as -> ->; try done.
  apply patch_book_stamps in Hp as (_ & _ & _ & Hid & _).
  by apply (ids_upsert_existing s r B id).
Qed.

Lemma import_json_ids (s : store) (body : json) (uuid : nat → string)
    (now : string) (clock : nat → string) :
  ids s `prefix_of` ids (import_json s body uuid now clock).2.
Proof.
  destruct (import_json_cases s body uuid now clock)
    as [->|(raws & incoming & s' & n & _ & _ & Hi & ->)]; [done |].
  by eapply importJson_ids.
Qed.

(** C2, as amended.  In every store reached from the empty document
    while the clock does not run backwards and no imported item carries
    a [createdAt] later than its import, each record has
    [updatedAt ≥ createdAt].  PUT and PATCH leave the id at every
    position of the collection as it was, and an import only appends ids
    after them.  The record that POST creates has the id and the time of
    the server in [id], [createdAt] and [updatedAt]; the record that PUT
    or PATCH stores keeps the id and the [createdAt] of the record it
    replaces and has the time of the server in [updatedAt], whatever the
    body holds. *)
Theorem timestamps_and_ids :
  (∀ t s, reachable not_postdated t s → Forall monotonic s)
  ∧ (∀ s id body now, ids (put_book s id body now).2 = ids s)
  ∧ (∀ s id body now, ids (patch_book s id body now).2 = ids s)
  ∧ (∀ s body uuid now clock,
       ids s `prefix_of` ids (import_json s body uuid now clock).2)
  ∧ (∀ s s' body uuid now r,
       post_book s body uuid now = (Created r, s') →
       r !! "id" = Some (JStr uuid) ∧ r !! "createdAt" = Some (JStr now)
       ∧ r !! "updatedAt" = Some (JStr now))
  ∧ (∀ s s' id body now r,
       put_book s id body now = (Ok r, s') →
       ∃ B, get s id = Some B ∧ r !! "id" = B !! "id"
            ∧ r !! "createdAt" = B !! "createdAt"
            ∧ r !! "updatedAt" = Some (JStr now))
  ∧ (∀ s s' id body now r,
       patch_book s id body now = (Ok r, s') →
       ∃ B, get s id = Some B ∧ r !! "id" = B !! "id"
            ∧ r !! "createdAt" = B !! "createdAt"
            ∧ r !! "updatedAt" = Some (JStr now)).
Proof.
  split_and!.
  - intros t s Hreach%reachable_stamped.
    eapply Forall_impl; [done |]. apply stamped_monotonic.
  - apply put_book_ids.
  - apply patch_book_ids.
  - apply import_json_ids.
  - intros s s' body uuid now r. apply post_book_stamps.
  - intros s s' id body now r (B & HB & _ & Hid & Hc & Hu)%put_book_stamps.
    exists B. apply get_Some in HB as Hg. destruct Hg as [_ HBid].
    split_and!; congruence.
  - intros s s' id body now r (B & HB & _ & Hid & Hc & Hu)%patch_book_stamps.
    exists B. apply get_Some in HB as Hg. destruct Hg as [_ HBid].
    split_and!; congruence.
Qed.

End invariants.

(** ** Sorting and slicing *)

Lemma sort_insert_Permutation {A} (cmp : A → A → Z) (x : A)
    (l : Datatypes.list A) :
  sort_insert cmp x l ≡ₚ x :: l.
Proof.
  induction l as [|y l IH]; simpl; [done |].
  destruct (cmp x y <=? 0); [done |]. rewrite IH. apply Permutation_swap.
Qed.

Lemma sort_by_Permutation {A} (cmp : A → A → Z) (l : Datatypes.list A) :
  sort_by cmp l ≡ₚ l.
Proof.
  induction l as [|x l IH]; simpl; [done |].
  by rewrite sort_insert_Permutation, IH.
Qed.

Section sorted.
Context {A : Type} (cmp : A → A → Z).
Hypothesis cmp_total : ∀ a b, cmp a b ≤ 0 ∨ cmp b a ≤ 0.
Hypothesis cmp_trans : ∀ a b c, cmp a b ≤ 0 → cmp b c ≤ 0 → cmp a c ≤ 0.

Lemma sort_insert_sorted (x : A) (l : Datatypes.list A) :
  StronglySorted (λ a b, cmp a b ≤ 0) l →
  StronglySorted (λ a b, cmp a b ≤ 0) (sort_insert cmp x l).
Proof.
  induction 1 as [|y l Hl IH Hy]; simpl.
  - repeat constructor.
  - destruct (Z.leb_spec (cmp x y) 0) as [Hxy|Hxy].
    + constructor; [by constructor |]. constructor; [done |].
      eapply Forall_impl; [done |]. intros z Hz. by eapply cmp_trans.
    + constructor; [done |]. rewrite sort_insert_Permutation.
      constructor; [| done]. destruct (cmp_total x y); [lia | done].
Qed.

Lemma sort_by_sorted (l : Datatypes.list A) :
  StronglySorted (λ a b, cmp a b ≤ 0) (sort_by cmp l).
Proof.
  induction l as [|x l IH]; simpl; [constructor |].
  by apply sort_insert_sorted.
Qed.

End sorted.

(** A sorted array is left as it is. *)
Lemma sort_by_id {A} (cmp : A → A → Z) (l : Datatypes.list A) :
  StronglySorted (λ a b, cmp a b ≤ 0) l → sort_by cmp l = l.
Proof.
  induction 1 as [|x l Hl IH Hx]; simpl; [done |]. rewrite IH.
  destruct Hx as [|y l Hxy _]; simpl; [done |].
  by destruct (Z.leb_spec (cmp x y) 0); [| lia].
Qed.

Lemma slice_nonneg {A} (a b : Z) (l : Datatypes.list A) :
  0 ≤ a ≤ b →
  slice a b l = take (Z.to_nat (b - a)) (drop (Z.to_nat a) l).
Proof.
  intros Hab. unfold slice, clamp_index.
  destruct (Z.ltb_spec a 0) as [?|_]; [lia |].
  destruct (Z.ltb_spec b 0) as [?|_]; [lia |].
  destruct (Z.le_gt_cases (Z.of_nat (length l)) a) as [Hlen|Hlen].
  - rewrite (drop_ge l (Z.to_nat a)) by lia. rewrite take_nil.
    rewrite !Z.min_r by lia. rewrite Z.sub_diag. by rewrite take_0.
  - rewrite (Z.min_l a) by lia.
    destruct (Z.le_gt_cases b (Z.of_nat (length l))) as [Hb|Hb].
    + by rewrite Z.min_l by lia.
    + rewrite Z.min_r by lia.
      rewrite !take_ge; [done | |]; rewrite length_drop; lia.
Qed.

Lemma slice_all {A} (n : Z) (l : Datatypes.list A) :
  Z.of_nat (length l) ≤ n → slice 0 n l = l.
Proof.
  intros Hn. rewrite slice_nonneg by lia. rewrite drop_0.
  apply take_ge. lia.
Qed.

(** ** list *)

Lemma list_paged (s : store) (p : list_query) (lim off : Z) :
  list s (paged p lim off)
  = {| total := length (rows s p);
       items := slice off (off + lim) (rows s p) |}.
Proof. reflexivity. Qed.

Lemma NoDup_List_filter {A} (f : A → bool) (l : Datatypes.list A) :
  NoDup l → NoDup (List.filter f l).
Proof.
  induction 1 as [|x l Hx Hl IH]; simpl; [constructor |].
  destruct (f x); [| done]. constructor; [| done].
  intros [Hin _]%list_elem_of_In%filter_In. by apply Hx, list_elem_of_In.
Qed.

Lemma NoDup_filter_if {X} (c : option X) (p : X → object → bool)
    (l : Datatypes.list object) :
  NoDup l → NoDup (filter_if c p l).
Proof. destruct c; [apply NoDup_List_filter | done]. Qed.

Lemma NoDup_rows (s : store) (p : list_query) : NoDup s → NoDup (rows s p).
Proof.
  intros Hs. unfold rows. rewrite sort_by_Permutation.
  by do 5 apply NoDup_filter_if.
Qed.

(** C5.  For a fixed collection and fixed filters and sort, the calls
    with limit 5, offset 0 and with limit 5, offset 5 return the first
    five and the next five rows of the filtered and sorted result: put
    end to end they are its first ten rows (all of them when there are
    fewer), both report the number of rows of that result as [total],
    and, the records of the collection being distinct, no record is on
    both pages. *)
Theorem pages_partition (s : store) (p : list_query) :
  let full := rows s p in
  let first := list s (paged p 5 0) in
  let second := list s (paged p 5 5) in
  (items first ++ items second)%list = take 10 full
  ∧ items first = take 5 full
  ∧ items second = take 5 (drop 5 full)
  ∧ total first = length full
  ∧ total second = length full
  ∧ (NoDup s → ∀ b, b ∈ items first → b ∉ items second).
Proof.
  intros full first second.
  assert (H1 : items first = take 5 full).
  { unfold first. rewrite list_paged. cbn [items].
    by rewrite slice_nonneg by lia. }
  assert (H2 : items second = take 5 (drop 5 full)).
  { unfold second. rewrite list_paged. cbn [items].
    by rewrite slice_nonneg by lia. }
  split_and!; try done.
  - rewrite H1, H2. by rewrite take_take_drop.
  - intros Hs b. rewrite H1, H2. intros Hb1 Hb2.
    apply NoDup_rows with (p := p) in Hs. fold full in Hs.
    rewrite <- (take_drop 5 full) in Hs.
    apply NoDup_app in Hs as (_ & Hdisj & _).
    apply (Hdisj b Hb1). by eapply subseteq_take.
Qed.

Lemma List_filter_filter {A} (f g : A → bool) (l : Datatypes.list A) :
  List.filter f (List.filter g l) = List.filter (λ x, g x && f x) l.
Proof.
  induction l as [|x l IH]; simpl; [done |].
  destruct (g x); simpl; [| done]. destruct (f x); by rewrite IH.
Qed.

Lemma List_filter_true {A} (l : Datatypes.list A) :
  List.filter (λ _, true) l = l.
Proof. induction l as [|x l IH]; simpl; by rewrite ?IH. Qed.

Lemma filter_if_when_given {X} (c : option X) (f : X → object → bool)
    (l : Datatypes.list object) :
  filter_if c f l = List.filter (when_given c f) l.
Proof. destruct c; simpl; [done | by rewrite List_filter_true]. Qed.

Lemma trim_empty : trim "" = "".
Proof. reflexivity. Qed.

(** The code's test [p && p.trim()] and its needle, in the words of the
    specification. *)
Lemma needle_trimmed (p : option string) :
  needle p = toLowerCase <$> trimmed p.
Proof.
  destruct p as [s|]; [| done]. unfold needle, trimmed.
  destruct (nonempty s) eqn:Hs; simpl.
  - by destruct (nonempty (trim s)).
  - apply nonempty_false in Hs as ->. by rewrite trim_empty.
Qed.

Lemma q_filter (p : option string) (l : Datatypes.list object) :
  filter_if (needle p) q_match l
  = List.filter (when_given (trimmed p) matches_q) l.
Proof.
  rewrite filter_if_when_given, needle_trimmed. by destruct (trimmed p).
Qed.

Lemma author_filter (p : option string) (l : Datatypes.list object) :
  filter_if (needle p) author_match l
  = List.filter (when_given (trimmed p) matches_author) l.
Proof.
  rewrite filter_if_when_given, needle_trimmed. by destruct (trimmed p).
Qed.

Lemma tag_filter (p : option string) (l : Datatypes.list object) :
  filter_if (needle p) tag_match l
  = List.filter (when_given (trimmed p) matches_tag) l.
Proof.
  rewrite filter_if_when_given, needle_trimmed. by destruct (trimmed p).
Qed.

Lemma purchased_by_bought_by (hi : string) (b : object) :
  purchased_by hi b = bought_by hi b.
Proof.
  unfold purchased_by, bought_by, purchase_date.
  destruct (str_field b "purchaseDate") as [d|]; [| done].
  by destruct (nonempty d).
Qed.

Lemma purchased_from_bought_from (lo : string) (b : object) :
  purchased_from lo b = bought_from lo b.
Proof.
  unfold purchased_from, bought_from, purchase_date.
  destruct (str_field b "purchaseDate") as [d|]; [| done].
  by destruct (nonempty d).
Qed.

Lemma before_filter (p : option string) (l : Datatypes.list object) :
  filter_if (present p) purchased_by l
  = List.filter (when_given (bound p) bought_by) l.
Proof.
  rewrite filter_if_when_given. apply List.filter_ext. intros b.
  change (present p) with (bound p).
  destruct (bound p); [apply purchased_by_bought_by | done].
Qed.

Lemma after_filter (p : option string) (l : Datatypes.list object) :
  filter_if (present p) purchased_from l
  = List.filter (when_given (bound p) bought_from) l.
Proof.
  rewrite filter_if_when_given. apply List.filter_ext. intros b.
  change (present p) with (bound p).
  destruct (bound p); [apply purchased_from_bought_from | done].
Qed.

Lemma rows_filtered (s : store) (p : list_query) :
  rows s p = sort_by (comparator (sort p)) (filtered s p).
Proof.
  unfold rows, filtered, filtered_as_written. cbn [effective q author tag
    beforePurchaseDate afterPurchaseDate].
  by rewrite q_filter, author_filter, tag_filter, before_filter, after_filter.
Qed.

Lemma filtered_selected (s : store) (p : list_query) :
  filtered_as_written s p = List.filter (selected_as_written p) s.
Proof.
  unfold filtered_as_written. rewrite !List_filter_filter.
  apply List.filter_ext. intros b. unfold selected_as_written.
  by rewrite !andb_assoc.
Qed.

(** *** The comparator *)

Lemma comparator_sort_field (s : option string) :
  comparator s = compare (sort_field s).1 (sort_field s).2.
Proof.
  destruct s as [k|]; [| done]. unfold comparator, sort_field.
  cbn [mbind option_bind]. case_bool_decide as Hk.
  { unfold sortable in Hk.
    repeat (apply elem_of_cons in Hk as [->|Hk]; [done |]).
    by apply elem_of_nil in Hk. }
  destruct k as [|c f]; [done |].
  destruct (Ascii.eqb_spec c "-") as [->|Hc]; cbn [andb].
  - case_bool_decide as Hf.
    { unfold sortable in Hf.
      repeat (apply elem_of_cons in Hf as [->|Hf]; [done |]).
      by apply elem_of_nil in Hf. }
    unfold sortMap, assoc.
    repeat (case_bool_decide;
      [exfalso; simplify_eq; apply Hf; unfold sortable;
       rewrite !elem_of_cons; intuition congruence |]).
    done.
  - unfold sortMap, assoc.
    repeat (case_bool_decide;
      [exfalso; simplify_eq; first [done | apply Hk; unfold sortable;
       rewrite !elem_of_cons; intuition congruence] |]).
    done.
Qed.

(** The order of strings: the byte order of the keyed text. *)
Lemma string_le_keys (a b : string) :
  string_le a b = true
  ↔ time_le (map_chars utf16_key a) (map_chars utf16_key b).
Proof.
  unfold string_le, string_lt. by rewrite negb_true_iff, ltb_false_le.
Qed.

Lemma string_lt_asym (a b : string) :
  string_lt a b = true → string_lt b a = false.
Proof. unfold string_lt. by intros ?%ltb_true_le%ltb_false_le. Qed.

Lemma string_lt_irrefl (a : string) : string_lt a a = false.
Proof. unfold string_lt. apply ltb_false_le, time_le_refl. Qed.

Lemma not_above_refl (a : string) : not_above a a.
Proof. apply string_le_keys, time_le_refl. Qed.

Lemma not_above_total (a b : string) : not_above a b ∨ not_above b a.
Proof. unfold not_above. rewrite !string_le_keys. apply time_le_total. Qed.

Lemma not_above_trans (a b c : string) :
  not_above a b → not_above b c → not_above a c.
Proof. unfold not_above. rewrite !string_le_keys. apply time_le_trans. Qed.

Lemma compare_in_order (s : option string) (a b : object) :
  comparator s a b ≤ 0 ↔ in_order s a b.
Proof.
  rewrite comparator_sort_field. unfold in_order, compare, sort_value.
  destruct (sort_field s) as [field asc]. cbn [fst snd].
  set (av := default "" (str_field a field)).
  set (bv := default "" (str_field b field)).
  unfold not_above, string_le.
  destruct asc;
    destruct (string_lt av bv) eqn:Hab; destruct (string_lt bv av) eqn:Hba;
    cbn [negb]; split; try done; try lia.
  apply string_lt_asym in Hab. congruence.
Qed.

Lemma in_order_total (s : option string) (a b : object) :
  in_order s a b ∨ in_order s b a.
Proof.
  unfold in_order. destruct (sort_field s) as [field []];
    apply not_above_total.
Qed.

Lemma in_order_trans (s : option string) (a b c : object) :
  in_order s a b → in_order s b c → in_order s a c.
Proof.
  unfold in_order. destruct (sort_field s) as [field []]; intros;
    by eapply not_above_trans.
Qed.

Lemma StronglySorted_impl {A} (R R' : A → A → Prop) (l : Datatypes.list A) :
  (∀ a b, R a b → R' a b) → StronglySorted R l → StronglySorted R' l.
Proof.
  intros HR. induction 1 as [|x l _ IH Hx]; constructor; [done |].
  eapply Forall_impl; [done |]. apply HR.
Qed.

Lemma rows_sorted (s : store) (p : list_query) :
  StronglySorted (in_order (sort p)) (rows s p).
Proof.
  rewrite rows_filtered.
  apply (StronglySorted_impl (λ a b, comparator (sort p) a b ≤ 0)).
  { intros a b. apply compare_in_order. }
  apply sort_by_sorted.
  - intros a b. rewrite !compare_in_order. apply in_order_total.
  - intros a b c. rewrite !compare_in_order. apply in_order_trans.
Qed.

(** On strings of the Basic Latin block the comparison that ignores the
    case is the one of the strings with [A] to [Z] replaced by [a] to
    [z], whatever the case mapping is elsewhere. *)
Lemma insensitive_includes_ascii (hay needle : string) :
  is_ascii hay = true → is_ascii needle = true →
  insensitive_includes hay needle
  = includes (map_chars lower_char hay) (map_chars lower_char needle).
Proof.
  intros Hh Hn. unfold insensitive_includes.
  by rewrite !toLowerCase_ascii.
Qed.

(** C4, as amended.  For a [sort] parameter that names no property the
    table of comparators inherits (the query schema admits none), [list]
    keeps the records that meet the criteria taken in this order: the
    text of title, subtitle, publisher, notes, authors and tags contains
    [q], whatever the case; some author contains [author], whatever the
    case; some tag equals [tag], whatever the case; the purchase date is
    set and lies between the two bounds, these included, dates compared
    as strings.  [q], [author] and [tag] count with the white space of
    the language around them removed and are ignored when nothing is
    left; a bound that is the empty string is ignored.  The kept records
    are put in the requested order, strings compared by UTF-16 code
    units, the page is the slice from [offset] to [offset + limit], and
    [total] is the number of kept records. *)
Theorem list_filters_sorts_pages (s : store) (p : list_query) :
  plain_sort p →
  rows s p = sort_by (comparator (sort p)) (filtered s p)
  ∧ filtered s p = List.filter (selected p) s
  ∧ rows s p ≡ₚ List.filter (selected p) s
  ∧ StronglySorted (in_order (sort p)) (rows s p)
  ∧ items (list s p) = slice (offset p) (offset p + limit p) (rows s p)
  ∧ total (list s p) = length (List.filter (selected p) s).
Proof.
  intros _.
  assert (Hf : filtered s p = List.filter (selected p) s)
    by apply filtered_selected.
  assert (Hp : rows s p ≡ₚ List.filter (selected p) s).
  { by rewrite rows_filtered, sort_by_Permutation, Hf. }
  split_and!; try done.
  - apply rows_filtered.
  - apply rows_sorted.
  - unfold list. cbn [total]. by rewrite Hp.
Qed.

(** ** POST and the ISBN check *)

Lemma str_field_insert_ne (o : object) k k' v :
  k ≠ k' → str_field (<[k := v]> o) k' = str_field o k'.
Proof. intros Hk. unfold str_field. by rewrite lookup_insert_ne. Qed.

Lemma isbnKey_insert (o : object) k v :
  k ≠ "isbn13" → k ≠ "isbn10" → isbnKey (<[k := v]> o) = isbnKey o.
Proof.
  intros H13 H10. unfold isbnKey, isbn_of.
  by rewrite !str_field_insert_ne.
Qed.

Lemma elem_of_upsert (s : store) (book b : object) :
  b ∈ upsert s book → b = book ∨ b ∈ s.
Proof.
  induction s as [|x s IH].
  - unfold upsert. simpl. intros ->%list_elem_of_singleton. by left.
  - rewrite upsert_cons. destruct (has_id _ x).
    + intros [->|Hb]%elem_of_cons; [by left | right; by right].
    + intros [->|Hb]%elem_of_cons; [right; by left |].
      destruct (IH Hb); [by left | right; by right].
Qed.

Lemma upsert_elem (s : store) (book : object) : book ∈ upsert s book.
Proof.
  induction s as [|x s IH].
  - unfold upsert. simpl. by left.
  - rewrite upsert_cons. destruct (has_id _ x); [by left | by right].
Qed.

Lemma upsert_length (s : store) (book : object) :
  (length (upsert s book) ≤ S (length s))%nat.
Proof.
  induction s as [|x s IH].
  - unfold upsert. simpl. lia.
  - rewrite upsert_cons. destruct (has_id _ x); simpl; lia.
Qed.

(** With at most 50000 records, the listing of the handler is the whole
    collection, sorted by title. *)
Lemma items_all (s : store) :
  Z.of_nat (length s) ≤ 50000 → items (list s all_query) ≡ₚ s.
Proof.
  intros Hlen. unfold list. cbn [items all_query offset limit].
  assert (Hrows : rows s all_query ≡ₚ s) by apply sort_by_Permutation.
  rewrite slice_all; [done |]. rewrite Hrows. lia.
Qed.

Section isbn_check.
Context `{Formats}.

Lemma isbnKey_strip (o : object) :
  isbnKey (strip bookSchema o) = isbnKey o.
Proof.
  unfold isbnKey, isbn_of, str_field.
  by rewrite !strip_lookup_known by reflexivity.
Qed.

Lemma isbnKey_incoming (o : object) (uuid now : string) :
  isbnKey (strip bookSchema (<["updatedAt" := JStr now]>
     (<["createdAt" := JStr now]> (<["id" := JStr uuid]> o))))
  = isbnKey o.
Proof. by rewrite isbnKey_strip, !isbnKey_insert. Qed.

Lemma post_book_valid (s : store) (body : json) (uuid now : string)
    (incoming : object) :
  validateNewBook
    (<["updatedAt" := JStr now]> (<["createdAt" := JStr now]>
      (<["id" := JStr uuid]> (spread body)))) = (true, incoming) →
  isbnKey incoming = isbnKey (spread body)
  ∧ post_book s body uuid now =
    match (if nonempty (isbnKey (spread body))
           then List.find
                  (λ b, bool_decide (isbnKey b = isbnKey (spread body)))
                  (items (list s all_query))
           else None) with
    | Some d => (Conflict (d !! "id"), s)
    | None => (Created incoming, upsert s incoming)
    end.
Proof.
  intros Hv. unfold post_book. rewrite Hv. cbn [negb].
  apply validateNewBook_accepts in Hv as [-> _].
  by rewrite isbnKey_incoming.
Qed.

Lemma post_book_isbn (s : store) (body : json) (uuid now : string)
    (incoming : object) :
  validateNewBook
    (<["updatedAt" := JStr now]> (<["createdAt" := JStr now]>
      (<["id" := JStr uuid]> (spread body)))) = (true, incoming) →
  isbnKey (spread body) ≠ "" →
  Z.of_nat (length s) ≤ 50000 →
  ((∃ b, b ∈ s ∧ isbnKey b = isbnKey (spread body)) →
   ∃ b, b ∈ s ∧ isbnKey b = isbnKey (spread body)
        ∧ post_book s body uuid now = (Conflict (b !! "id"), s))
  ∧ ((∀ b, b ∈ s → isbnKey b ≠ isbnKey (spread body)) →
     post_book s body uuid now = (Created incoming, upsert s incoming)).
Proof.
  intros [_ ->]%(post_book_valid s) Hkey%nonempty_true Hlen%items_all.
  rewrite Hkey.
  destruct (List.find _ _) as [d|] eqn:Hfind.
  - apply find_some in Hfind as [Hd%list_elem_of_In Hk%bool_decide_eq_true].
    rewrite Hlen in Hd. split.
    + intros _. by exists d.
    + intros Hnone. by destruct (Hnone d Hd).
  - split; [| done]. intros (b & Hb & Hk). exfalso.
    rewrite <- Hlen in Hb. apply list_elem_of_In in Hb.
    apply (find_none _ _ Hfind) in Hb. by apply bool_decide_eq_false in Hb.
Qed.

Lemma post_twice (s s1 : store) (bodyA bodyB : json)
    (uuidA nowA uuidB nowB : string) (A : object) :
  post_book s bodyA uuidA nowA = (Created A, s1) →
  Z.of_nat (length s) < 50000 →
  isbnKey (spread bodyA) ≠ "" →
  isbnKey (spread bodyB) = isbnKey (spread bodyA) →
  (validateNewBook
    (<["updatedAt" := JStr nowB]> (<["createdAt" := JStr nowB]>
      (<["id" := JStr uuidB]> (spread bodyB))))).1 = true →
  post_book s1 bodyB uuidB nowB = (Conflict (Some (JStr uuidA)), s1).
Proof.
  intros HA Hlen Hkey HAB HvB.
  pose proof (post_book_stamps _ _ _ _ _ _ HA) as (HidA & _ & _).
  pose proof (post_book_created _ _ _ _ _ _ HA) as [HvA ->].
  pose proof (post_book_valid s _ _ _ _ HvA) as [HkA _].
  assert (Hfresh : ∀ b, b ∈ s → isbnKey b ≠ isbnKey (spread bodyA)).
  { intros b Hb Hk.
    destruct (post_book_isbn s bodyA uuidA nowA A HvA Hkey) as [Hdup _];
      [lia |].
    destruct Hdup as (d & _ & _ & Hd); [by exists b |]. congruence. }
  match type of HvB with
  | (validateNewBook ?o).1 = true =>
      destruct (validateNewBook o) as [ok B] eqn:HB
  end. cbn [fst] in HvB. subst ok.
  destruct (post_book_isbn (upsert s A) bodyB uuidB nowB B HB) as [Hdup _].
  { congruence. }
  { pose proof (upsert_length s A). lia. }
  destruct Hdup as (d & Hd & Hk & ->).
  { exists A. split; [apply upsert_elem | congruence]. }
  apply elem_of_upsert in Hd as [->|Hd]; [by rewrite HidA |].
  destruct (Hfresh d Hd). congruence.
Qed.

(** C3, as amended.  Take a POST whose body passes validation and has a
    non-empty normalized ISBN, on a collection of at most 50000 records.
    If a record of the collection has the same normalized ISBN, the
    answer is 409 with [existingId] the id of such a record and the
    collection is unchanged; if none has, the answer is 201 with the
    created book, which is inserted.  A body that fails validation is
    answered 400 before any ISBN is compared, and one that passes with an
    empty normalized ISBN is created without a check.  So, once a book A
    with an ISBN has been created in a collection of fewer than 50000
    records, a second valid POST with the same ISBN up to hyphens and
    case is answered 409 with [existingId] the id of A. *)
Theorem duplicate_isbn_conflict :
  (∀ s body uuid now,
     (validateNewBook
       (<["updatedAt" := JStr now]> (<["createdAt" := JStr now]>
         (<["id" := JStr uuid]> (spread body))))).1 = false →
     post_book s body uuid now = (BadRequest, s))
  ∧ (∀ s body uuid now incoming,
     validateNewBook
       (<["updatedAt" := JStr now]> (<["createdAt" := JStr now]>
         (<["id" := JStr uuid]> (spread body)))) = (true, incoming) →
     isbnKey (spread body) ≠ "" →
     Z.of_nat (length s) ≤ 50000 →
     ((∃ b, b ∈ s ∧ isbnKey b = isbnKey (spread body)) →
      ∃ b, b ∈ s ∧ isbnKey b = isbnKey (spread body)
           ∧ post_book s body uuid now = (Conflict (b !! "id"), s))
     ∧ ((∀ b, b ∈ s → isbnKey b ≠ isbnKey (spread body)) →
        post_book s body uuid now = (Created incoming, upsert s incoming)))
  ∧ (∀ s body uuid now incoming,
       validateNewBook
         (<["updatedAt" := JStr now]> (<["createdAt" := JStr now]>
           (<["id" := JStr uuid]> (spread body)))) = (true, incoming) →
       isbnKey (spread body) = "" →
       post_book s body uuid now = (Created incoming, upsert s incoming))
  ∧ (∀ s s1 bodyA bodyB uuidA nowA uuidB nowB A,
       post_book s bodyA uuidA nowA = (Created A, s1) →
       Z.of_nat (length s) < 50000 →
       isbnKey (spread bodyA) ≠ "" →
       isbnKey (spread bodyB) = isbnKey (spread bodyA) →
       (validateNewBook
         (<["updatedAt" := JStr nowB]> (<["createdAt" := JStr nowB]>
           (<["id" := JStr uuidB]> (spread bodyB))))).1 = true →
       post_book s1 bodyB uuidB nowB = (Conflict (Some (JStr uuidA)), s1)).
Proof.
  split_and!.
  - intros s body uuid now Hv. unfold post_book.
    match goal with
    | |- context [validateNewBook ?o] =>
        destruct (validateNewBook o) as [ok m]
    end. cbn [fst] in Hv. by subst ok.
  - apply post_book_isbn.
  - intros s body uuid now incoming [_ ->]%(post_book_valid s)
      Hk%nonempty_false. by rewrite Hk.
  - apply post_twice.
Qed.

End isbn_check.

(** ** importJson merges or inserts *)

Lemma str_field_set_prop_ne (o : object) k k' (v : option json) :
  k ≠ k' → str_field (set_prop k v o) k' = str_field o k'.
Proof.
  intros Hk. unfold str_field. by rewrite lookup_set_prop, decide_False.
Qed.

Lemma isbnKey_empty (b : object) : isbn_of b = "" → isbnKey b = "".
Proof. unfold isbnKey. by intros ->. Qed.

Lemma str_field_union (a b : object) k :
  str_field (a ∪ b) k
  = match a !! k with Some _ => str_field a k | None => str_field b k end.
Proof.
  unfold str_field. rewrite lookup_union.
  destruct (a !! k) as [v|] eqn:Ha; [by destruct (b !! k) | ].
  by rewrite (left_id_L None _).
Qed.

Lemma isbn_of_union (incoming existing : object) :
  isbn_of incoming ≠ "" →
  isbn_of (incoming ∪ existing) = isbn_of incoming
  ∨ isbn_of (incoming ∪ existing) = isbn_of existing.
Proof.
  unfold isbn_of. rewrite !str_field_union. unfold str_field.
  destruct (incoming !! "isbn13") as [[| | |s13| |]|] eqn:H13;
    destruct (incoming !! "isbn10") as [[| | |s10| |]|] eqn:H10;
    cbn; try done; try (destruct (nonempty s13) eqn:Hs13; cbn);
    try done; auto.
  all: intros _.
  all: destruct (existing !! "isbn13") as [[| | |e13| |]|];
    cbn; auto.
  all: destruct (nonempty e13); cbn; auto.
Qed.

(** Merging keeps the normalized ISBN the two records share. *)
Lemma isbnKey_merged (existing incoming : object) (now : string) :
  isbnKey incoming ≠ "" → isbnKey existing = isbnKey incoming →
  isbnKey (merged existing incoming now) = isbnKey incoming.
Proof.
  intros Hne He.
  assert (Hraw : isbn_of incoming ≠ "").
  { intros Hraw. by apply Hne, isbnKey_empty. }
  unfold merged. rewrite isbnKey_insert by done.
  assert (isbnKey (set_prop "id" (existing !! "id") (incoming ∪ existing))
          = isbnKey (incoming ∪ existing)) as ->.
  { unfold isbnKey, isbn_of. by rewrite !str_field_set_prop_ne. }
  unfold isbnKey at 1.
  destruct (isbn_of_union incoming existing Hraw) as [->| ->];
    [done | exact He].
Qed.

(** *** The index from ISBN to id *)

Lemma index_by_isbn_snoc (s : store) (b : object) :
  index_by_isbn (s ++ [b]) = <[isbnKey b := b !! "id"]> (index_by_isbn s).
Proof. unfold index_by_isbn. by rewrite foldl_app. Qed.

(** [indexes m s]: every non-empty ISBN under which [m] has an id is the
    normalized ISBN of a record of [s] with that id, and the normalized
    ISBN of every record of [s], when not empty, is in [m]. *)
Lemma index_by_isbn_sound (s : store) (k : string) (i : option json) :
  index_by_isbn s !! k = Some i →
  ∃ r, r ∈ s ∧ r !! "id" = i ∧ isbnKey r = k.
Proof.
  induction s as [|b s IH] using rev_ind; [done |].
  rewrite index_by_isbn_snoc.
  destruct (decide (isbnKey b = k)) as [<-|Hne].
  - rewrite lookup_insert_eq. intros [= <-]. exists b.
    split; [| done]. apply elem_of_app. right. by left.
  - rewrite lookup_insert_ne by done. intros (r & Hr & ? & ?)%IH.
    exists r. split; [| done]. apply elem_of_app. by left.
Qed.

Lemma index_by_isbn_complete (s : store) (r : object) :
  r ∈ s → is_Some (index_by_isbn s !! isbnKey r).
Proof.
  induction s as [|b s IH] using rev_ind;
    [by intros ?%elem_of_nil |].
  rewrite index_by_isbn_snoc.
  intros [Hr| ->%list_elem_of_singleton]%elem_of_app.
  - destruct (decide (isbnKey b = isbnKey r)) as [->|Hne].
    + rewrite lookup_insert_eq. by eexists.
    + rewrite lookup_insert_ne by done. by apply IH.
  - rewrite lookup_insert_eq. by eexists.
Qed.

(** *** The loop *)

Lemma has_id_string (r : object) :
  has_string_id r → has_id (r !! "id") r = true.
Proof.
  intros [i Hi]. unfold has_id. rewrite Hi. cbn.
  by apply bool_decide_eq_true.
Qed.

Lemma elem_of_list_insert {A} (l : Datatypes.list A) (j : nat) (x y : A) :
  x ∈ <[j := y]> l → x = y ∨ x ∈ l.
Proof.
  intros [k Hk]%list_elem_of_lookup.
  destruct (decide (j = k)) as [->|Hne].
  - destruct (decide (k < length l)%nat) as [Hlt|Hge].
    + rewrite list_lookup_insert_eq in Hk by done. left. congruence.
    + rewrite list_insert_ge in Hk by lia. right.
      by eapply list_elem_of_lookup_2.
  - rewrite list_lookup_insert_ne in Hk by done. right.
    by eapply list_elem_of_lookup_2.
Qed.

(** Merging leaves the id and the normalized ISBN of the record as they
    were, so that the ids go on following the ISBNs. *)
Lemma ids_follow_isbns_merge (s : store) (x : object)
    (array : Datatypes.list object) (j : nat) (e m : object) :
  ids_follow_isbns (s ++ x :: array) → s !! j = Some e →
  m !! "id" = e !! "id" → isbnKey m = isbnKey e →
  ids_follow_isbns (<[j := m]> s ++ array).
Proof.
  intros Hfol Hj Hid Hkey.
  assert (Hrep : ∀ a : object, a ∈ (<[j := m]> s ++ array)%list →
            ∃ a', a' ∈ (s ++ x :: array)%list ∧ a' !! "id" = a !! "id"
                  ∧ isbnKey a' = isbnKey a).
  { intros a [[->|Ha]%elem_of_list_insert|Ha]%elem_of_app.
    - exists e. split; [| done]. apply elem_of_app. left.
      by eapply list_elem_of_lookup_2.
    - exists a. split; [| done]. apply elem_of_app. by left.
    - exists a. split; [| done]. apply elem_of_app. right. by right. }
  intros a b (a' & Ha' & Hida & Hka)%Hrep (b' & Hb' & Hidb & Hkb)%Hrep Hab.
  rewrite <- Hka, <- Hkb. apply Hfol; congruence.
Qed.

Lemma import_loop_imports (clock : nat → string)
    (array : Datatypes.list object) :
  ∀ i st,
    Forall has_string_id (books st ++ array) →
    ids_follow_isbns (books st ++ array) →
    (∀ k id, k ≠ "" → byIsbn st !! k = Some id →
             ∃ r, r ∈ books st ∧ r !! "id" = id ∧ isbnKey r = k) →
    (∀ r, r ∈ books st → isbnKey r ≠ "" → is_Some (byIsbn st !! isbnKey r)) →
    ∃ st' c u,
      import_loop true clock i array st = Some st'
      ∧ created st' = (created st + c)%nat
      ∧ updated st' = (updated st + u)%nat
      ∧ imports clock i (books st) array (books st') c u.
Proof.
  induction array as [|x array IH]; intros i st Hstr Hfol Hsound Hcomplete.
  { exists st, 0%nat, 0%nat. cbn. split_and!; try done; try lia.
    constructor. }
  cbn [import_loop].
  apply Forall_app in Hstr as [Hstr [Hx Harray]%Forall_cons].
  destruct (import_step true (clock i) st x) as [st1|] eqn:Hstep.
  - cbn [mbind option_bind].
    apply import_step_cases in Hstep
      as [(id & j & e & _ & Hkey & Hm & Hj & He & _ & ->)|[Hwhy ->]].
    + (* the element is merged into the record found by id *)
      destruct (Hsound _ _ Hkey Hm) as (r & Hr & Hrid & Hrk).
      assert (Hek : isbnKey e = isbnKey x).
      { rewrite <- Hrk. apply Hfol.
        - apply elem_of_app. left. by eapply list_elem_of_lookup_2.
        - apply elem_of_app. by left.
        - apply has_id_eq in He. congruence. }
      clear r Hr Hrid Hrk.
      set (m := merged e x (clock i)).
      assert (Hids : ids (<[j := m]> (books st)) = ids (books st)).
      { apply (ids_insert_same _ _ e); [done | apply merged_id]. }
      destruct (IH (S i) {| books := <[j := m]> (books st);
                  byIsbn := byIsbn st; created := created st;
                  updated := S (updated st) |})
        as (st' & c & u & Hloop & Hc & Hu & Himp); cbn [books byIsbn].
      * apply Forall_app. split; [| done].
        apply Forall_insert; [done |].
        pose proof (Forall_lookup_1 _ _ _ _ Hstr Hj) as [i0 Hi0].
        exists i0. pose proof (merged_id e x (clock i)) as Hmid.
        unfold id_of in Hmid. unfold m. by rewrite Hmid.
      * apply (ids_follow_isbns_merge _ x _ _ e); try done.
        -- apply (merged_id e x (clock i)).
        -- unfold m. by rewrite isbnKey_merged.
      * intros k id' Hk Hk'.
        destruct (Hsound _ _ Hk Hk') as (r & [j1 Hr]%list_elem_of_lookup
          & Hrid' & Hrk').
        destruct (decide (j = j1)) as [<-|Hne].
        -- exists m. assert (r = e) as -> by congruence. split_and!.
           ++ apply list_elem_of_lookup. exists j.
              apply list_lookup_insert_eq. by eapply lookup_lt_Some.
           ++ by rewrite <- Hrid'; apply (merged_id e x (clock i)).
           ++ rewrite <- Hrk'. unfold m. rewrite isbnKey_merged; congruence.
        -- exists r. split; [| done]. apply list_elem_of_lookup. exists j1.
           by rewrite list_lookup_insert_ne.
      * intros r [->|Hr]%elem_of_list_insert Hk.
        -- unfold m. rewrite isbnKey_merged by done. by eexists.
        -- by apply Hcomplete.
      * exists st', c, (S u). cbn in Hc, Hu. split_and!; try done; try lia.
        by eapply imports_merge.
    + (* the element is appended *)
      destruct (IH (S i) {| books := books st ++ [x];
                  byIsbn := if true && nonempty (isbnKey x)
                            then <[isbnKey x := x !! "id"]> (byIsbn st)
                            else byIsbn st;
                  created := S (created st); updated := updated st |})
        as (st' & c & u & Hloop & Hc & Hu & Himp); cbn [books byIsbn andb].
      * rewrite <- app_assoc. apply Forall_app. split; [done |].
        by constructor.
      * by rewrite <- app_assoc.
      * intros k id Hk. destruct (nonempty (isbnKey x)) eqn:Hkx.
        -- destruct (decide (isbnKey x = k)) as [<-|Hne].
           ++ rewrite lookup_insert_eq. intros [= <-]. exists x.
              split; [| done]. apply elem_of_app. right. by left.
           ++ rewrite lookup_insert_ne by done.
              intros (r & Hr & ? & ?)%Hsound; [| done].
              exists r. split; [| done]. apply elem_of_app. by left.
        -- intros (r & Hr & ? & ?)%Hsound; [| done].
           exists r. split; [| done]. apply elem_of_app. by left.
      * intros r [Hr| ->%list_elem_of_singleton]%elem_of_app Hk.
        -- destruct (nonempty (isbnKey x)); [| by apply Hcomplete].
           destruct (decide (isbnKey x = isbnKey r)) as [->|Hne].
           ++ rewrite lookup_insert_eq. by eexists.
           ++ rewrite lookup_insert_ne by done. by apply Hcomplete.
        -- apply nonempty_true in Hk as Hk'. rewrite Hk'.
           rewrite lookup_insert_eq. by eexists.
      * exists st', (S c), u. cbn in Hc, Hu. split_and!; try done; try lia.
        apply imports_insert; [| done].
        destruct Hwhy as [?|[?|Hnone]]; [done | by left |].
        destruct (decide (isbnKey x = "")) as [Hblank|Hkey]; [by left |].
        right. intros b Hb Hk.
        destruct (Hcomplete b Hb) as [v Hv]; congruence.
  - (* [find] cannot miss: the index names a record of the collection *)
    exfalso. unfold import_step in Hstep.
    destruct (true && nonempty (isbnKey x)) eqn:Hd; [| done].
    apply nonempty_true in Hd.
    destruct (byIsbn st !! isbnKey x) as [id|] eqn:Hm; [| done].
    destruct (replace_first _ _ (books st)) eqn:Hr; [done |].
    destruct (Hsound _ _ Hd Hm) as (r & Hin & Hrid & _).
    rewrite replace_first_None in Hr. specialize (Hr r Hin).
    rewrite Forall_forall in Hstr. apply Hstr in Hin.
    apply has_id_string in Hin. congruence.
Qed.

Lemma imports_counts (clock : nat → string) i (s s' : store)
    (array : Datatypes.list object) (c u : nat) :
  imports clock i s array s' c u →
  (c + u = length array ∧ length s' = length s + c)%nat.
Proof.
  induction 1 as [| i s j e x rest s' c u _ _ _ _ IH
                  | i s x rest s' c u _ _ IH]; simpl.
  - lia.
  - rewrite length_insert in IH. lia.
  - rewrite length_app in IH. simpl in IH. lia.
Qed.

(** C6, as amended.  With deduplication on, when the ids of the stored
    records and of the incoming books are strings, and books that have
    the same id have the same normalized ISBN (as when an export is
    imported again), the import returns and goes through the array in
    order:
    an incoming book whose normalized ISBN is not empty and is that of a
    record of the collection is merged into such a record, which keeps
    its place and its id, takes the incoming fields over its own and
    gets a new [updatedAt]; any other incoming book is appended.  The
    counts returned are the number of appended and of merged books, they
    add up to the length of the array, and the collection grows by the
    number of appended books only. *)
Theorem import_merges_or_inserts (s : store) (array : Datatypes.list object)
    (clock : nat → string) :
  Forall has_string_id (s ++ array) →
  ids_follow_isbns (s ++ array) →
  ∃ s' c u,
    importJson s array true clock = Some (s', (c, u))
    ∧ imports clock 0 s array s' c u
    ∧ (c + u = length array)%nat
    ∧ (length s' = length s + c)%nat
    ∧ ids s `prefix_of` ids s'.
Proof.
  intros Hstr Hfol.
  destruct (import_loop_imports clock array 0
    {| books := s; byIsbn := index_by_isbn s; created := 0; updated := 0 |})
    as (st' & c & u & Hloop & Hc & Hu & Himp); cbn [books byIsbn]; try done.
  - intros k id _. apply index_by_isbn_sound.
  - intros r Hr _. by apply index_by_isbn_complete.
  - exists (books st'), c, u. cbn in Hc, Hu.
    assert (Hi : importJson s array true clock = Some (books st', (c, u))).
    { unfold importJson. rewrite Hloop. cbn. by rewrite Hc, Hu. }
    pose proof (imports_counts _ _ _ _ _ _ _ Himp) as [? ?].
    split_and!; try done. by eapply importJson_ids.
Qed.

End language.


(** ** The properties on the sample data *)

Section samples.
Import Samples Iso.

(** Both sides are closed terms: compare their values. *)
Ltac evaluate :=
  lazymatch goal with
  | |- ?x = ?y => exact (eq_refl y <: x = y)
  end.

Lemma post_knuth :
  post_book [] (JObj knuth) "id-1" t0 = (Created knuth_stored, [knuth_stored]).
Proof. evaluate. Qed.

Lemma knuth_reachable (allowed : request → Prop) :
  allowed (POST (JObj knuth) "id-1" t0) →
  reachable allowed t0 [knuth_stored].
Proof.
  intros Hallowed.
  assert ((handle [] (POST (JObj knuth) "id-1" t0)).2 = [knuth_stored])
    as <- by evaluate.
  apply (reach_step allowed t0); [constructor | done |].
  vm_compute. auto.
Qed.

Lemma unknown_id_not_found_witness :
  (∀ b, b ∈ [knuth_stored] → b !! "id" ≠ Some (JStr "id-2"))
  ∧ put_book [knuth_stored] "id-2" (JObj rating_six) t1
    = (NotFound, [knuth_stored])
  ∧ patch_book [knuth_stored] "id-2" (JObj rating_six) t1
    = (NotFound, [knuth_stored]).
Proof.
  assert (Hnone : ∀ b, b ∈ [knuth_stored] → b !! "id" ≠ Some (JStr "id-2")).
  { intros b ->%list_elem_of_singleton. vm_compute. discriminate. }
  split; [exact Hnone |].
  destruct (unknown_id_not_found [knuth_stored] "id-2" (JObj rating_six) t1
              Hnone) as (Hput & Hpatch & _).
  split; [exact Hput | exact Hpatch].
Defined.

Lemma patch_invalid_rejected_witness :
  get [knuth_stored] "id-1" = Some knuth_stored
  ∧ ((validatePatchBook (JObj rating_six)).1 = false
     ∨ (validateNewBook
          (patch_merged knuth_stored (validatePatchBook (JObj rating_six)).2
             t1)).1 = false)
  ∧ patch_book [knuth_stored] "id-1" (JObj rating_six) t1
    = (BadRequest, [knuth_stored])
  ∧ get (patch_book [knuth_stored] "id-1" (JObj rating_six) t1).2 "id-1"
    = Some knuth_stored.
Proof.
  assert (Hget : get [knuth_stored] "id-1" = Some knuth_stored)
    by evaluate.
  assert (Hbad : (validatePatchBook (JObj rating_six)).1 = false
     ∨ (validateNewBook
          (patch_merged knuth_stored (validatePatchBook (JObj rating_six)).2
             t1)).1 = false) by (left; evaluate).
  split; [exact Hget |]. split; [exact Hbad |].
  destruct (patch_invalid_rejected [knuth_stored] "id-1" (JObj rating_six) t1
              knuth_stored Hget Hbad) as (Hresp & _ & Hstill).
  split; [exact Hresp | exact Hstill].
Defined.

(** C1, as stated, fails on a body that names a system field.  The body
    [garbage] merged over the stored record gives a [createdAt] that is
    no timestamp, which the full-book validator rejects; the handler
    merges the body as [validatePatchBook] left it, without [createdAt],
    answers 200 and writes the record with a new [updatedAt]. *)
Lemma patch_garbage_createdAt_accepted :
  get [knuth_stored] "id-1" = Some knuth_stored
  ∧ patch_merged knuth_stored (JObj garbage) t1 !! "createdAt"
    = Some (JStr "garbage")
  ∧ (validateNewBook (patch_merged knuth_stored (JObj garbage) t1)).1 = false
  ∧ validatePatchBook (JObj garbage) = (true, JObj ∅)
  ∧ patch_book [knuth_stored] "id-1" (JObj garbage) t1
    = (Ok (<["updatedAt" := JStr t1]> knuth_stored),
       [<["updatedAt" := JStr t1]> knuth_stored])
  ∧ status (patch_book [knuth_stored] "id-1" (JObj garbage) t1).1
    = Some 200%nat
  ∧ get (patch_book [knuth_stored] "id-1" (JObj garbage) t1).2 "id-1"
    ≠ Some knuth_stored.
Proof.
  split_and!; [evaluate .. |].
  assert (get (patch_book [knuth_stored] "id-1" (JObj garbage) t1).2 "id-1"
          = Some (<["updatedAt" := JStr t1]> knuth_stored)) as -> by evaluate.
  intros Heq.
  apply (f_equal (λ r : option object, r ≫= (.!! "updatedAt"))) in Heq.
  vm_compute in Heq. discriminate.
Qed.


Lemma post_then_get_witness :
  post_book [] (JObj knuth) "id-1" t0 = (Created knuth_stored, [knuth_stored])
  ∧ knuth_stored
    = <["updatedAt" := JStr t0]> (<["createdAt" := JStr t0]>
        (<["id" := JStr "id-1"]> (strip bookSchema (spread (JObj knuth)))))
  ∧ get_book [knuth_stored] "id-1" = Ok knuth_stored.
Proof.
  split; [exact post_knuth |].
  destruct (post_then_get [] [knuth_stored] (JObj knuth) "id-1" t0
              knuth_stored post_knuth) as (Hrec & _ & Hget).
  split; [exact Hrec | exact Hget].
Defined.

(** C7, as stated, fails on a payload that names an id: the payload is
    accepted, and the record created and returned by GET has the id of
    the server in place of the one sent. *)
Lemma post_overrides_client_id :
  post_book [] (JObj with_client_id) "id-1" t0
  = (Created with_client_id_stored, [with_client_id_stored])
  ∧ get_book [with_client_id_stored] "id-1" = Ok with_client_id_stored
  ∧ with_client_id !! "id" = Some (JStr "client-id")
  ∧ with_client_id_stored !! "id" = Some (JStr "id-1")
  ∧ ¬ extends_payload with_client_id with_client_id_stored.
Proof.
  split_and!; try (evaluate).
  intros [Hkeep _].
  specialize (Hkeep "id" (JStr "client-id") eq_refl).
  vm_compute in Hkeep. discriminate.
Qed.

(** C2, as stated, fails: an import at [t0] of one item dated [far]
    leaves a record whose [updatedAt] is before its [createdAt]. *)
Lemma import_postdated_not_monotonic :
  import_json [] (JArr [JObj postdated]) numbered t0 (λ _, t0)
  = (Imported 1 0, [postdated_stored])
  ∧ reachable any_request t0 [postdated_stored]
  ∧ postdated_stored !! "createdAt" = Some (JStr far)
  ∧ postdated_stored !! "updatedAt" = Some (JStr t0)
  ∧ ¬ Forall monotonic [postdated_stored].
Proof.
  assert (Himport : import_json [] (JArr [JObj postdated]) numbered t0 (λ _, t0)
                    = (Imported 1 0, [postdated_stored]))
    by evaluate.
  split; [exact Himport |]. split; [| split; [| split]].
  - change [postdated_stored] with (Imported 1 0, [postdated_stored]).2.
    rewrite <- Himport.
    apply (reach_step any_request t0 []
             (IMPORT (JArr [JObj postdated]) numbered t0 (λ _, t0)));
      [constructor | exact I |].
    split; [by vm_compute |]. split; [by vm_compute |].
    split; [by vm_compute |]. intros _. split_and!; by vm_compute.
  - evaluate.
  - evaluate.
  - intros (c & u & Hc & Hu & Hle)%Forall_inv.
    vm_compute in Hc, Hu. injection Hc as <-. injection Hu as <-.
    vm_compute in Hle. discriminate.
Qed.

Lemma timestamps_and_ids_witness :
  reachable not_postdated t0 [knuth_stored]
  ∧ Forall monotonic [knuth_stored]
  ∧ post_book [] (JObj with_client_id) "id-1" t0
    = (Created with_client_id_stored, [with_client_id_stored])
  ∧ with_client_id_stored !! "id" = Some (JStr "id-1")
  ∧ with_client_id_stored !! "createdAt" = Some (JStr t0)
  ∧ with_client_id_stored !! "updatedAt" = Some (JStr t0).
Proof.
  assert (Hreach : reachable not_postdated t0 [knuth_stored])
    by (apply knuth_reachable; exact I).
  assert (Hpost : post_book [] (JObj with_client_id) "id-1" t0
                  = (Created with_client_id_stored, [with_client_id_stored]))
    by evaluate.
  split; [exact Hreach |].
  destruct timestamps_and_ids as (Hmono & _ & _ & _ & Hcreate & _).
  split; [exact (Hmono t0 [knuth_stored] Hreach) |].
  split; [exact Hpost |].
  exact (Hcreate [] [with_client_id_stored] (JObj with_client_id) "id-1" t0
           with_client_id_stored Hpost).
Defined.

(** C2: a PATCH that names [createdAt] is answered 200 and the record
    keeps the [createdAt] it had. *)
Lemma patch_keeps_createdAt :
  ∃ r, patch_book [knuth_stored] "id-1" (JObj redated) t1
       = (Ok r, [r])
       ∧ r !! "createdAt" = Some (JStr t0)
       ∧ r !! "updatedAt" = Some (JStr t1)
       ∧ r !! "rating" = Some (JNum (Q2Qc 5)).
Proof.
  exists (<["rating" := JNum (Q2Qc 5)]>
            (<["updatedAt" := JStr t1]> knuth_stored)).
  split_and!; evaluate.
Qed.

(** C7: a property the schema does not have is dropped from the record. *)
Lemma post_drops_unknown_property :
  post_book [] (JObj with_shelf) "id-1" t0
  = (Created with_shelf_stored, [with_shelf_stored])
  ∧ with_shelf !! "shelf" = Some (JStr "A3")
  ∧ with_shelf_stored !! "shelf" = None.
Proof. split_and!; evaluate. Qed.

(** *** C3 *)

(** The body is validated before any ISBN is compared. *)
Lemma post_invalid_with_known_isbn :
  isbnKey knuth_stored = isbnKey untitled
  ∧ post_book [knuth_stored] (JObj untitled) "id-2" t1
    = (BadRequest, [knuth_stored]).
Proof. split; evaluate. Qed.

(** An ISBN that normalizes to the empty string is not compared. *)
Lemma post_hyphens_twice :
  post_book [] (JObj hyphens) "id-1" t0
  = (Created (hyphens_stored "id-1" t0), [hyphens_stored "id-1" t0])
  ∧ post_book [hyphens_stored "id-1" t0] (JObj hyphens) "id-2" t1
    = (Created (hyphens_stored "id-2" t1),
       [hyphens_stored "id-1" t0; hyphens_stored "id-2" t1])
  ∧ isbnKey (hyphens_stored "id-1" t0) = isbnKey hyphens.
Proof. split_and!; evaluate. Qed.

Lemma find_replicate {A} (f : A → bool) (n : nat) (x : A) :
  f x = false → List.find f (replicate n x) = None.
Proof. intros Hx. induction n as [|n IH]; simpl; [done |]. by rewrite Hx. Qed.

Lemma crowded_sorted (n : nat) :
  StronglySorted (λ a b, compare "title" true a b ≤ 0)
    (replicate n filler ++ [last_one]).
Proof.
  induction n as [|n IH]; simpl.
  - repeat constructor.
  - constructor; [done |]. apply Forall_app. split.
    + apply Forall_replicate. by vm_compute.
    + constructor; [by vm_compute | done].
Qed.

Lemma crowded_listing (n : nat) :
  50000 ≤ Z.of_nat n →
  items (list (replicate n filler ++ [last_one])%list all_query)
  = replicate (Z.to_nat 50000) filler.
Proof.
  intros Hn. unfold list. cbn [items all_query offset limit].
  assert (rows (replicate n filler ++ [last_one])%list all_query
          = (replicate n filler ++ [last_one])%list) as ->.
  { apply (sort_by_id (compare "title" true)), crowded_sorted. }
  rewrite slice_nonneg by lia. rewrite Z.sub_0_r. change (Z.to_nat 0) with 0%nat.
  rewrite drop_0, take_app_le by (rewrite length_replicate; lia).
  rewrite take_replicate. f_equal. lia.
Qed.

(** C3, as stated, fails past the 50000 records that the handler lists:
    the last record of [crowded] has the ISBN of the posted body, up to
    the hyphen, and the answer is 201. *)
Lemma post_beyond_listing :
  last_one ∈ crowded
  ∧ carries_isbn knuth_again
  ∧ isbnKey last_one = isbnKey knuth_again
  ∧ ∃ created,
      post_book crowded (JObj knuth_again) "id-new" t1
      = (Created created, upsert crowded created)
      ∧ status (Created created) = Some 201%nat.
Proof.
  split_and!.
  - apply elem_of_app. right. by left.
  - left. exists (JStr "9780201558029"). evaluate.
  - evaluate.
  - destruct (validateNewBook
      (<["updatedAt" := JStr t1]> (<["createdAt" := JStr t1]>
        (<["id" := JStr "id-new"]> (spread (JObj knuth_again))))))
      as [ok created] eqn:Hv.
    assert (ok = true) as ->.
    { apply (f_equal fst) in Hv. vm_compute in Hv. congruence. }
    exists created. split; [| done].
    destruct (post_book_valid crowded _ _ _ _ Hv) as [_ ->].
    unfold crowded. rewrite crowded_listing by lia.
    assert (nonempty (isbnKey (spread (JObj knuth_again))) = true) as ->
      by evaluate.
    rewrite find_replicate; [done |]. evaluate.
Qed.

Lemma duplicate_isbn_conflict_witness :
  post_book [] (JObj knuth) "id-1" t0 = (Created knuth_stored, [knuth_stored])
  ∧ Z.of_nat (length ([] : store)) < 50000
  ∧ isbnKey (spread (JObj knuth)) ≠ ""
  ∧ isbnKey (spread (JObj knuth_again)) = isbnKey (spread (JObj knuth))
  ∧ (validateNewBook
      (<["updatedAt" := JStr t1]> (<["createdAt" := JStr t1]>
        (<["id" := JStr "id-2"]> (spread (JObj knuth_again)))))).1 = true
  ∧ post_book [knuth_stored] (JObj knuth_again) "id-2" t1
    = (Conflict (Some (JStr "id-1")), [knuth_stored]).
Proof.
  assert (Hlen : Z.of_nat (length ([] : store)) < 50000) by (simpl; lia).
  assert (Hkey : isbnKey (spread (JObj knuth)) ≠ "")
    by (vm_compute; discriminate).
  assert (Hsame : isbnKey (spread (JObj knuth_again))
                  = isbnKey (spread (JObj knuth)))
    by evaluate.
  assert (Hvalid : (validateNewBook
      (<["updatedAt" := JStr t1]> (<["createdAt" := JStr t1]>
        (<["id" := JStr "id-2"]> (spread (JObj knuth_again)))))).1 = true)
    by evaluate.
  split; [exact post_knuth |]. split; [exact Hlen |]. split; [exact Hkey |].
  split; [exact Hsame |]. split; [exact Hvalid |].
  destruct duplicate_isbn_conflict as (_ & _ & _ & Htwice).
  exact (Htwice [] [knuth_stored] (JObj knuth) (JObj knuth_again)
           "id-1" t0 "id-2" t1 knuth_stored post_knuth Hlen Hkey Hsame Hvalid).
Defined.

(** *** C4 and C5 *)

(** C4, as stated, fails on a [q] with a space after the word: no text
    contains it as it is given, and [list] returns the record. *)
Lemma list_trims_q :
  total (list [knuth_stored] (query (Some "Algorithms "))) = 1%nat
  ∧ List.filter (selected_as_written (query (Some "Algorithms ")))
      [knuth_stored] = []
  ∧ matches_q "Algorithms " knuth_stored = false
  ∧ total (list [knuth_stored] (query (Some "Algorithms ")))
    ≠ length (List.filter (selected_as_written (query (Some "Algorithms ")))
                [knuth_stored]).
Proof. split_and!; by vm_compute. Qed.

(** A [q] in capitals, with a no-break space before it and a space
    after it, finds the record; the titles come in the order asked
    for. *)
Lemma list_filters_sorts_pages_witness :
  plain_sort (sorted_query (Some (nbsp ++ "ALGORITHMS ")) (Some "-title"))
  ∧ items (list library
             (sorted_query (Some (nbsp ++ "ALGORITHMS ")) (Some "-title")))
    = [knuth_stored]
  ∧ total (list library
             (sorted_query (Some (nbsp ++ "ALGORITHMS ")) (Some "-title")))
    = 1%nat
  ∧ items (list library (sorted_query None (Some "-title")))
    = [volume 2; knuth_stored]
  ∧ items (list library (sorted_query None None)) = [knuth_stored; volume 2]
  ∧ StronglySorted
      (in_order (sort (sorted_query (Some (nbsp ++ "ALGORITHMS "))
                         (Some "-title"))))
      (rows library
         (sorted_query (Some (nbsp ++ "ALGORITHMS ")) (Some "-title")))
  ∧ total (list library
             (sorted_query (Some (nbsp ++ "ALGORITHMS ")) (Some "-title")))
    = length (List.filter
                (selected (sorted_query (Some (nbsp ++ "ALGORITHMS "))
                             (Some "-title"))) library).
Proof.
  assert (Hplain : plain_sort
            (sorted_query (Some (nbsp ++ "ALGORITHMS ")) (Some "-title"))).
  { intros k [= <-]. apply (bool_decide_unpack _). by vm_compute. }
  split; [exact Hplain |].
  split; [evaluate |]. split; [evaluate |]. split; [evaluate |].
  split; [evaluate |].
  destruct (list_filters_sorts_pages library
              (sorted_query (Some (nbsp ++ "ALGORITHMS ")) (Some "-title"))
              Hplain) as (_ & _ & _ & Hsorted & _ & Htotal).
  split; [exact Hsorted | exact Htotal].
Defined.

(** Titles outside the Basic Latin block come in the order of their
    UTF-16 code units: U+1F600, whose first code unit is D83D, before
    U+FF21, although its UTF-8 bytes and its code point are the
    greater. *)
Lemma list_orders_by_code_units :
  items (list wide (sorted_query None (Some "title")))
  = [titled grinning_face "id-2" [grinning_face];
     titled fullwidth_a "id-1" [fullwidth_a]]
  ∧ String.ltb fullwidth_a grinning_face = true
  ∧ string_lt grinning_face fullwidth_a = true.
Proof. split_and!; evaluate. Qed.

Lemma shelf_NoDup : NoDup shelf.
Proof.
  apply (NoDup_fmap_1 (λ b, str_field b "id")).
  apply (bool_decide_unpack (NoDup _)). by vm_compute.
Qed.

Lemma pages_partition_witness :
  NoDup shelf
  ∧ items (list shelf (paged (query None) 5 0)) = volume <$> seq 0 5
  ∧ items (list shelf (paged (query None) 5 5)) = volume <$> seq 5 2
  ∧ ∀ b, b ∈ items (list shelf (paged (query None) 5 0)) →
         b ∉ items (list shelf (paged (query None) 5 5)).
Proof.
  split; [exact shelf_NoDup |].
  split; [evaluate |]. split; [evaluate |].
  destruct (pages_partition shelf (query None)) as (_ & _ & _ & _ & _ & Hdisj).
  exact (Hdisj shelf_NoDup).
Defined.

(** *** C6 *)

(** C6, as stated, fails when two records have the same id.  The first
    two items of the batch arrive with the id [x] and are both inserted;
    the third has the ISBN of the second and is merged into the first,
    which has no ISBN: the record titled B is left as it was. *)
Lemma import_merges_by_id :
  normalize numbered t0 0 batch_raw = Books batch
  ∧ importJson [] batch true (λ _, t1)
    = Some ([<["updatedAt" := JStr t1]> (item "C" "x" (Some "978-0201558029"));
             item "B" "x" (Some "9780201558029")], (2, 1)%nat)
  ∧ ¬ import_dedupes [] batch (λ _, t1).
Proof.
  split; [evaluate |]. split; [evaluate |].
  intros (s' & c & u & Himport & Hspec).
  assert (Hfirst : (s' !! 0%nat) ≫= (λ b, str_field b "title") = Some "A").
  { clear Himport. unfold batch in Hspec.
    inversion Hspec as [| ? ? j e ? ? ? ? ? Hk Hj He Hrest
                        | ? ? ? ? ? ? ? Hwhy Hrest]; subst; clear Hspec.
    { exfalso. apply Hk. evaluate. }
    inversion Hrest as [| ? ? j e ? ? ? ? ? Hk Hj He Hrest'
                        | ? ? ? ? ? ? ? Hwhy' Hrest']; subst; clear Hrest.
    { destruct j as [|j]; [| done]. injection Hj as <-.
      vm_compute in He. discriminate. }
    inversion Hrest' as [| ? ? j e ? ? ? ? ? Hk Hj He Hlast
                         | ? ? ? ? ? ? ? Hwhy'' Hlast]; subst; clear Hrest'.
    - inversion Hlast; subst.
      destruct j as [|[|j]]; [| | done].
      + injection Hj as <-. vm_compute in He. discriminate.
      + evaluate.
    - exfalso. destruct Hwhy'' as [Hblank|Hnone].
      + vm_compute in Hblank. discriminate.
      + apply (Hnone (item "B" "x" (Some "9780201558029"))).
        * right. by left.
        * evaluate. }
  apply (f_equal (λ r, r ≫= λ p, (p.1 !! 0%nat) ≫= λ b, str_field b "title"))
    in Himport.
  cbn [mbind option_bind fst] in Himport. rewrite Hfirst in Himport.
  vm_compute in Himport. discriminate.
Qed.

(** An export imported again: the incoming book carries the id of the
    stored record with its ISBN, and is merged into it. *)
Lemma import_merges_or_inserts_witness :
  Forall has_string_id ([knuth_stored] ++ [knuth_stored])
  ∧ ids_follow_isbns ([knuth_stored] ++ [knuth_stored])
  ∧ importJson [knuth_stored] [knuth_stored] true (λ _, t1)
    = Some ([<["updatedAt" := JStr t1]> knuth_stored], (0, 1)%nat)
  ∧ ∃ s' c u,
      importJson [knuth_stored] [knuth_stored] true (λ _, t1)
      = Some (s', (c, u))
      ∧ imports (λ _, t1) 0 [knuth_stored] [knuth_stored] s' c u
      ∧ (c + u = 1)%nat
      ∧ (length s' = 1 + c)%nat
      ∧ ids [knuth_stored] `prefix_of` ids s'.
Proof.
  assert (Hstr : Forall has_string_id ([knuth_stored] ++ [knuth_stored])).
  { cbn [app]. constructor; [exists "id-1"; evaluate |].
    constructor; [exists "id-1"; evaluate | constructor]. }
  assert (Hfol : ids_follow_isbns ([knuth_stored] ++ [knuth_stored])).
  { intros a b Ha Hb _. cbn [app] in Ha, Hb.
    apply elem_of_cons in Ha as [->|Ha];
      [| apply list_elem_of_singleton in Ha as ->];
      (apply elem_of_cons in Hb as [->|Hb];
         [| apply list_elem_of_singleton in Hb as ->]); reflexivity. }
  split; [exact Hstr |]. split; [exact Hfol |]. split; [evaluate |].
  exact (import_merges_or_inserts [knuth_stored] [knuth_stored] (λ _, t1)
           Hstr Hfol).
Defined.

End samples.

(** * Further properties of the store and the handlers *)

Section language_more.
Context {unicode : CaseMapping}.

(** ** remove and DELETE *)

Lemma List_filter_length_le {A} (f : A → bool) (l : Datatypes.list A) :
  (length (List.filter f l) ≤ length l)%nat.
Proof. induction l as [|a l IH]; simpl; [lia|]. destruct (f a); simpl; lia. Qed.

Lemma List_filter_length_eq {A} (f : A → bool) (l : Datatypes.list A) :
  length (List.filter f l) = length l ↔ ∀ x, x ∈ l → f x = true.
Proof.
  induction l as [|a l IH]; simpl.
  - split; [intros _ x Hx; inversion Hx|done].
  - pose proof (List_filter_length_le f l) as Hle.
    destruct (f a) eqn:Ha; simpl.
    + split.
      * intros Hl x [->|Hx]%elem_of_cons; [done|].
        apply IH; [lia|done].
      * intros Hall. f_equal. apply IH. intros x Hx. apply Hall. by right.
    + split; [lia|]. intros Hall.
      rewrite Hall in Ha; [done|by left].
Qed.

Lemma List_filter_id {A} (f : A → bool) (l : Datatypes.list A) :
  (∀ x, x ∈ l → f x = true) → List.filter f l = l.
Proof.
  induction l as [|a l IH]; simpl; [done|]. intros Hall.
  rewrite Hall; [|by left]. f_equal. apply IH. intros x Hx. apply Hall.
  by right.
Qed.

Lemma elem_of_List_filter {A} (f : A → bool) (l : Datatypes.list A) (x : A) :
  x ∈ List.filter f l ↔ x ∈ l ∧ f x = true.
Proof.
  rewrite !list_elem_of_In, List.filter_In. done.
Qed.

Lemma find_List_filter {A} (f g : A → bool) (l : Datatypes.list A) :
  (∀ x, f x = true → g x = true) →
  List.find f (List.filter g l) = List.find f l.
Proof.
  intros Hfg. induction l as [|a l IH]; simpl; [done|].
  destruct (g a) eqn:Hg; simpl.
  - by rewrite IH.
  - destruct (f a) eqn:Hf; [|done]. apply Hfg in Hf. congruence.
Qed.

Lemma find_none_filter {A} (f : A → bool) (l : Datatypes.list A) :
  List.find f (List.filter (λ x, negb (f x)) l) = None.
Proof.
  induction l as [|a l IH]; simpl; [done|].
  destruct (f a) eqn:Hf; simpl; [done|]. by rewrite Hf.
Qed.

Lemma delete_book_eq (s : store) (id : string) :
  delete_book s id
  = (if bool_decide (get s id = None) then NotFound else NoContent,
     List.filter (λ b, negb (has_id (Some (JStr id)) b)) s).
Proof.
  unfold delete_book, remove.
  set (s' := List.filter _ s).
  case_bool_decide as Hg.
  - rewrite get_None in Hg.
    assert (s' = s) as Hs.
    { apply List_filter_id. intros b Hb.
      destruct (has_id (Some (JStr id)) b) eqn:Hid; [|done].
      apply has_id_str in Hid. by apply Hg in Hid. }
    rewrite Hs, Nat.eqb_refl. done.
  - destruct (length s =? length s')%nat eqn:Hl; [|done].
    apply Nat.eqb_eq in Hl. symmetry in Hl. unfold s' in Hl.
    rewrite List_filter_length_eq in Hl.
    exfalso. apply Hg, get_None. intros b Hb Hid.
    apply Hl in Hb. apply has_id_str in Hid. by rewrite Hid in Hb.
Qed.

(** X1.  After DELETE of an id, whatever the store was, GET of that id
    answers 404, and a second DELETE answers 404 and leaves the store as
    the first one left it. *)
Theorem delete_then_get_and_delete_again (s : store) (id : string) :
  let s' := (delete_book s id).2 in
  get_book s' id = NotFound
  ∧ status (get_book s' id) = Some 404%nat
  ∧ delete_book s' id = (NotFound, s')
  ∧ status (delete_book s' id).1 = Some 404%nat.
Proof.
  cbn zeta. rewrite delete_book_eq. cbn [snd].
  set (s' := List.filter _ s).
  assert (get s' id = None) as Hg by apply find_none_filter.
  assert (delete_book s' id = (NotFound, s')) as Hd.
  { rewrite delete_book_eq, bool_decide_eq_true_2 by done. f_equal.
    apply List_filter_id. intros b Hb.
    by apply elem_of_List_filter in Hb as [_ Hb]. }
  unfold get_book. rewrite Hg, Hd. done.
Qed.

Lemma List_filter_sublist {A} (f : A → bool) (l : Datatypes.list A) :
  List.filter f l `sublist_of` l.
Proof.
  induction l as [|a l IH]; simpl; [done|].
  destruct (f a); [by apply sublist_skip|by apply sublist_cons].
Qed.

(** X2.  DELETE answers 204 exactly when some record has the id, and 404
    with the store untouched otherwise; it removes every record with that
    id and keeps the other records, in their order, so that GET of any
    other id answers as before. *)
Theorem delete_removes_by_id (s : store) (id : string) :
  ((delete_book s id).1 = NoContent
   ↔ ∃ b, b ∈ s ∧ b !! "id" = Some (JStr id))
  ∧ ((∀ b, b ∈ s → b !! "id" ≠ Some (JStr id))
     → delete_book s id = (NotFound, s))
  ∧ (∀ b, b ∈ (delete_book s id).2 ↔ b ∈ s ∧ b !! "id" ≠ Some (JStr id))
  ∧ (delete_book s id).2 `sublist_of` s
  ∧ (∀ id', id' ≠ id → get (delete_book s id).2 id' = get s id').
Proof.
  rewrite delete_book_eq. cbn [fst snd].
  split; [|split; [|split; [|split]]].
  - case_bool_decide as Hg.
    + split; [done|]. intros (b & Hb & Hid).
      rewrite get_None in Hg. by apply Hg in Hid.
    + split; [intros _|done].
      destruct (get s id) as [B|] eqn:HB; [|done].
      apply get_Some in HB as [HB Hid]. eauto.
  - intros Hno. rewrite bool_decide_eq_true_2 by by apply get_None.
    f_equal. apply List_filter_id. intros b Hb.
    destruct (has_id (Some (JStr id)) b) eqn:Hid; [|done].
    apply has_id_str in Hid. by apply Hno in Hid.
  - intros b. rewrite elem_of_List_filter, negb_true_iff.
    rewrite <- not_true_iff_false, has_id_str. done.
  - apply List_filter_sublist.
  - intros id' Hne. unfold get. apply find_List_filter.
    intros b Hb%has_id_str.
    destruct (has_id (Some (JStr id)) b) eqn:Hid; [|done].
    apply has_id_str in Hid. congruence.
Qed.

(** ** upsert, POST and PUT *)

Lemma has_id_other (b : object) (i i' : string) :
  b !! "id" = Some (JStr i) → i' ≠ i → has_id (Some (JStr i')) b = false.
Proof.
  intros Hb Hne. apply not_true_iff_false. intros Hid%has_id_str. congruence.
Qed.

Lemma upsert_fresh (s : store) (book : object) (i : string) :
  book !! "id" = Some (JStr i) → get s i = None →
  upsert s book = (s ++ [book])%list.
Proof.
  intros Hb Hg. unfold upsert. rewrite Hb.
  rewrite (proj2 (replace_first_None _ _ s)); [done|].
  intros b Hin. apply not_true_iff_false. intros Hid%has_id_str.
  rewrite get_None in Hg. by apply Hg in Hid.
Qed.

Lemma get_upsert_other (s : store) (book : object) (i i' : string) :
  book !! "id" = Some (JStr i) → i' ≠ i →
  get (upsert s book) i' = get s i'.
Proof.
  intros Hb Hne. induction s as [|b s IH].
  - unfold upsert, get. simpl. by rewrite (has_id_other book i i').
  - rewrite upsert_cons, Hb.
    destruct (has_id (Some (JStr i)) b) eqn:Hid; unfold get; simpl.
    + apply has_id_str in Hid.
      by rewrite (has_id_other book i i'), (has_id_other b i i').
    + destruct (has_id (Some (JStr i')) b); [done|]. apply IH.
Qed.

Lemma upsert_length_eq (s : store) (book : object) (i : string) :
  book !! "id" = Some (JStr i) →
  length (upsert s book)
  = match get s i with Some _ => length s | None => S (length s) end.
Proof.
  intros Hb. induction s as [|b s IH]; [done|].
  rewrite upsert_cons, Hb. unfold get in *. simpl.
  destruct (has_id (Some (JStr i)) b); simpl; [done|].
  rewrite IH. by destruct (List.find _ s).
Qed.

(** X3.  upsert followed by get is a round trip: the book just written
    is the one read under its id, reading any other id gives what it
    gave before, and the collection grows by one record exactly when no
    record had the id. *)
Theorem upsert_then_get (s : store) (book : object) (i : string) :
  book !! "id" = Some (JStr i) →
  get (upsert s book) i = Some book
  ∧ (∀ i', i' ≠ i → get (upsert s book) i' = get s i')
  ∧ length (upsert s book)
    = match get s i with Some _ => length s | None => S (length s) end.
Proof.
  intros Hb. split; [by apply (get_upsert s book i)|].
  split; [intros i' Hne; by apply (get_upsert_other s book i)|].
  by apply upsert_length_eq.
Qed.

Section create_and_replace.
Context `{Formats}.

(** X4.  Creating a book under an id no record has, and deleting that id,
    gives back the store as it was: DELETE answers 204 and the
    collection is the one before the POST. *)
Theorem post_then_delete (s s' : store) (body : json) (uuid now : string)
    (r : object) :
  post_book s body uuid now = (Created r, s') →
  get s uuid = None →
  delete_book s' uuid = (NoContent, s).
Proof.
  intros Hpost Hfresh.
  apply post_book_record in Hpost as [Hr ->].
  assert (r !! "id" = Some (JStr uuid)) as Hid.
  { rewrite Hr, lookup_insert_ne, lookup_insert_ne, lookup_insert_eq; done. }
  rewrite (upsert_fresh s r uuid) by done.
  rewrite delete_book_eq. f_equal.
  - rewrite bool_decide_eq_false_2; [done|].
    rewrite get_None. intros Hno. apply (Hno r); [|done].
    apply elem_of_app. right. by left.
  - rewrite List.filter_app. simpl.
    rewrite (proj2 (has_id_str r uuid) Hid). simpl.
    rewrite app_nil_r. apply List_filter_id. intros b Hb.
    apply negb_true_iff, not_true_iff_false. intros Hb'%has_id_str.
    rewrite get_None in Hfresh. by apply Hfresh in Hb'.
Qed.

(** X5.  A PUT that is answered 200 replaces the record wholesale: the
    stored record has the properties of the body that the schema knows
    and no property of the old record (other than id and createdAt);
    GET of the id returns it; the number of records and the answer of GET
    for every other id are unchanged. *)
Theorem put_replaces_record (s s' : store) (id : string) (body : json)
    (now : string) (r : object) :
  put_book s id body now = (Ok r, s') →
  ∃ B, get s id = Some B
    ∧ get_book s' id = Ok r
    ∧ (∀ k, k ∉ system_fields →
         r !! k = strip bookSchema (spread body) !! k)
    ∧ r !! "id" = Some (JStr id)
    ∧ r !! "createdAt" = B !! "createdAt"
    ∧ r !! "updatedAt" = Some (JStr now)
    ∧ length s' = length s
    ∧ (∀ id', id' ≠ id → get s' id' = get s id').
Proof.
  intros Hput.
  destruct (put_book_stamps _ _ _ _ _ _ Hput) as (B & HB & -> & Hid & Hc & Hu).
  exists B. split; [done|].
  pose proof (get_upsert s r id Hid) as Hget.
  pose proof (λ id' Hne, get_upsert_other s r id id' Hid Hne) as Hother.
  pose proof (upsert_length_eq s r id Hid) as Hlen.
  split; [unfold get_book; by rewrite Hget|].
  split.
  { unfold put_book in Hput. rewrite HB in Hput.
    match type of Hput with
    | context [validateNewBook ?o] =>
        destruct (validateNewBook o) as [v m] eqn:Hv
    end.
    destruct v; cbn [negb] in Hput; [|done].
    injection Hput as -> _.
    apply validateNewBook_accepts in Hv as [Hm _].
    intros k Hk. rewrite Hm at 1.
    apply option_eq. intros v. rewrite !strip_lookup_Some.
    rewrite lookup_insert_ne, !lookup_set_prop; [|set_solver].
    destruct (decide ("createdAt" = k)) as [<-|Hk1].
    { exfalso. apply Hk. unfold system_fields. set_solver. }
    destruct (decide ("id" = k)) as [<-|Hk2]; [|done].
    exfalso. apply Hk. unfold system_fields. set_solver. }
  split; [done|]. split; [done|]. split; [done|].
  split; [by rewrite Hlen, HB|done].
Qed.

End create_and_replace.

(** ** PATCH *)

Section patch.
Context `{Formats}.

Lemma partial_property k c :
  (k, c) ∈ properties partialBookSchema
  ↔ (k, c) ∈ properties bookSchema ∧ k ∉ system_fields.
Proof.
  unfold partialBookSchema. cbn [properties].
  rewrite list_elem_of_filter. cbn [fst]. tauto.
Qed.

Lemma known_partial k :
  known partialBookSchema k = true
  ↔ known bookSchema k = true ∧ k ∉ system_fields.
Proof.
  unfold known. rewrite !bool_decide_eq_true, !list_elem_of_fmap. split.
  - intros ([k' c] & -> & [Hin Hk]%partial_property). split; [|done].
    by exists (k', c).
  - intros [([k' c] & -> & Hin) Hk]. exists (k', c). split; [done|].
    by apply partial_property.
Qed.

Lemma patch_merged_conforms (B o : object) (now : string) :
  conforms B → is_time now →
  properties_ok partialBookSchema o = true →
  conforms (patch_merged B (JObj (strip partialBookSchema o)) now).
Proof.
  intros HB Hnow Ho. unfold patch_merged. cbn [spread].
  apply conforms_touch; [|done].
  assert (conforms (strip partialBookSchema o ∪ B)) as Hu.
  { pose proof HB as (Ht & Hk & Hp)%conforms_iff. apply conforms_iff.
    split_and!.
    - apply lookup_union_is_Some. by right.
    - intros k v [[_ Hv%known_partial]%strip_lookup_Some|[_ ?]]
        %lookup_union_Some_raw; [tauto|eauto].
    - rewrite properties_ok_spec in *. intros k c v Hin.
      intros [[Hv Hkn%known_partial]%strip_lookup_Some|[_ ?]]
        %lookup_union_Some_raw; [|eauto].
      apply (Ho k c v); [|done]. apply partial_property. tauto. }
  destruct (B !! "id") as [v|] eqn:Hid; cbn [set_prop].
  - eapply conforms_insert; [done|reflexivity|].
    eapply (conforms_lookup B "id"); [done|reflexivity|done].
  - by apply conforms_delete.
Qed.

Lemma validatePatchBook_true (body : json) :
  (validatePatchBook body).1 = true →
  ∃ o, body = JObj o ∧ properties_ok partialBookSchema o = true
       ∧ (validatePatchBook body).2 = JObj (strip partialBookSchema o).
Proof.
  unfold validatePatchBook, compile, validate_object.
  destruct body as [| | | | |o]; try done. cbn [fst snd].
  intros [_ Hp]%andb_prop. by exists o.
Qed.

Lemma patch_book_accepts (s : store) (id : string) (B : object)
    (body : json) (now : string) :
  get s id = Some B → conforms B → is_time now →
  (validatePatchBook body).1 = true →
  patch_book s id body now
  = (Ok (patch_merged B (validatePatchBook body).2 now),
     upsert s (patch_merged B (validatePatchBook body).2 now)).
Proof.
  intros HB Hconf Hnow Hv.
  destruct (validatePatchBook_true body Hv) as (o & -> & Ho & Hb).
  pose proof (patch_merged_conforms B o now Hconf Hnow Ho) as Hm.
  unfold patch_book. rewrite HB.
  destruct (validatePatchBook (JObj o)) as [v b] eqn:Hvb.
  cbn [fst snd] in Hv, Hb. subst v b. cbn [negb].
  unfold conforms in Hm. by rewrite Hm.
Qed.

(** X6.  In a store built through the API, a PATCH of an existing book
    is rejected only by the patch schema: when the body passes
    [validatePatchBook], the merged record always passes the full
    validator, the answer is 200 and the merged record is stored as it
    was built. *)
Theorem patch_rejected_only_by_patch_schema (t : string) (s : store)
    (id : string) (B : object) (body : json) (now : string) :
  reachable any_request t s → get s id = Some B → is_time now →
  ((validatePatchBook body).1 = false
   → patch_book s id body now = (BadRequest, s))
  ∧ ((validatePatchBook body).1 = true
     → (validateNewBook
          (patch_merged B (validatePatchBook body).2 now)).1 = true
       ∧ patch_book s id body now
         = (Ok (patch_merged B (validatePatchBook body).2 now),
            upsert s (patch_merged B (validatePatchBook body).2 now))).
Proof.
  intros Hreach HB Hnow.
  assert (conforms B) as Hconf.
  { apply reachable_conforms in Hreach. rewrite Forall_forall in Hreach.
    apply Hreach. by apply get_Some in HB as [? _]. }
  split.
  - intros Hv. unfold patch_book. rewrite HB.
    destruct (validatePatchBook body) as [v b]. cbn [fst] in Hv.
    by subst v.
  - intros Hv. split; [|by apply patch_book_accepts].
    destruct (validatePatchBook_true body Hv) as (o & -> & Ho & ->).
    pose proof (patch_merged_conforms B o now Hconf Hnow Ho) as Hm.
    unfold conforms in Hm. by rewrite Hm.
Qed.

(** X7.  A PATCH that is answered 200 on a store built through the API
    changes the named properties and nothing else: every patchable
    property takes the value the body gives it, or keeps the value of
    the stored book when the body does not name it; id and createdAt are
    those of the stored book whatever the body says; updatedAt is the
    time of the request.  GET of the id returns the result, and the
    other records are untouched. *)
Theorem patch_changes_named_properties (t : string) (s s' : store)
    (id : string) (B o r : object) (now : string) :
  reachable any_request t s → get s id = Some B →
  patch_book s id (JObj o) now = (Ok r, s') →
  r !! "updatedAt" = Some (JStr now)
  ∧ (∀ k, k ≠ "updatedAt" →
       r !! k = if known partialBookSchema k
                then match o !! k with Some v => Some v | None => B !! k end
                else B !! k)
  ∧ get_book s' id = Ok r
  ∧ length s' = length s
  ∧ (∀ id', id' ≠ id → get s' id' = get s id').
Proof.
  intros Hreach HB Hpatch.
  assert (conforms B) as Hconf.
  { apply reachable_conforms in Hreach. rewrite Forall_forall in Hreach.
    apply Hreach. by apply get_Some in HB as [? _]. }
  destruct (patch_book_stamps _ _ _ _ _ _ Hpatch)
    as (B' & HB' & -> & Hid & _ & Hu).
  pose proof (get_upsert s r id Hid) as Hget.
  pose proof (λ id' Hne, get_upsert_other s r id id' Hid Hne) as Hother.
  pose proof (upsert_length_eq s r id Hid) as Hlen.
  split; [done|]. split.
  2:{ split; [unfold get_book; by rewrite Hget|].
      split; [by rewrite Hlen, HB|done]. }
  unfold patch_book in Hpatch. rewrite HB in Hpatch.
  unfold validatePatchBook, compile, validate_object in Hpatch.
  cbn [fst snd] in Hpatch.
  destruct (required_ok partialBookSchema o && properties_ok partialBookSchema o);
    cbn [negb] in Hpatch; [|done].
  match type of Hpatch with
  | context [validateNewBook ?m] =>
      destruct (validateNewBook m) as [v m'] eqn:Hv
  end.
  destruct v; cbn [negb] in Hpatch; [|done].
  injection Hpatch as -> _.
  apply validateNewBook_accepts in Hv as [-> _].
  pose proof HB as [_ HBid]%get_Some.
  pose proof Hconf as (_ & Hknown & _)%conforms_iff.
  intros k Hk. unfold patch_merged. cbn [spread]. rewrite HBid.
  cbn [set_prop].
  destruct (known bookSchema k) eqn:Hkb.
  - rewrite strip_lookup_known by done.
    rewrite lookup_insert_ne by done.
    destruct (decide (k = "id")) as [->|Hkid].
    { rewrite lookup_insert_eq. by rewrite HBid. }
    rewrite lookup_insert_ne by done.
    destruct (known partialBookSchema k) eqn:Hkp.
    + destruct (o !! k) as [v|] eqn:Hok.
      * apply lookup_union_Some_l. by apply strip_lookup_Some.
      * rewrite lookup_union_r; [done|].
        apply eq_None_not_Some. intros [v [? _]%strip_lookup_Some].
        congruence.
    + rewrite lookup_union_r; [done|].
      apply eq_None_not_Some. intros [v [_ ?]%strip_lookup_Some].
      congruence.
  - assert (B !! k = None) as HBk.
    { apply eq_None_not_Some. intros [v Hv%Hknown]. congruence. }
    assert (known partialBookSchema k = false) as ->.
    { apply not_true_iff_false. intros [? _]%known_partial. congruence. }
    rewrite HBk. apply eq_None_not_Some.
    intros [v [_ ?]%strip_lookup_Some]. congruence.
Qed.

End patch.

(** ** list *)

Lemma rows_Permutation (s : store) (p : list_query) :
  rows s p ≡ₚ List.filter (selected p) s.
Proof.
  rewrite rows_filtered, sort_by_Permutation.
  unfold filtered. by rewrite filtered_selected.
Qed.

Lemma rows_elem (s : store) (p : list_query) (b : object) :
  b ∈ rows s p ↔ b ∈ s ∧ selected p b = true.
Proof. by rewrite rows_Permutation, elem_of_List_filter. Qed.

Lemma rows_length (s : store) (p : list_query) :
  (length (rows s p) ≤ length s)%nat.
Proof. rewrite rows_Permutation. apply List_filter_length_le. Qed.

Lemma list_page (s : store) (p : list_query) :
  0 ≤ offset p → 0 ≤ limit p →
  items (list s p)
  = take (Z.to_nat (limit p)) (drop (Z.to_nat (offset p)) (rows s p))
  ∧ Z.of_nat (length (items (list s p)))
    = Z.min (limit p) (Z.max 0 (Z.of_nat (total (list s p)) - offset p))
  ∧ (total (list s p) ≤ length s)%nat
  ∧ (∀ b, b ∈ items (list s p) → b ∈ s ∧ selected p b = true).
Proof.
  intros Hoff Hlim. unfold list. cbn [items total].
  rewrite slice_nonneg by lia.
  replace (offset p + limit p - offset p) with (limit p) by lia.
  split; [done|]. split; [rewrite length_take, length_drop; lia|].
  split; [apply rows_length|].
  intros b Hb. apply rows_elem.
  assert (take (Z.to_nat (limit p)) (drop (Z.to_nat (offset p)) (rows s p))
          `sublist_of` rows s p) as Hsub
    by (etrans; [apply sublist_take|apply sublist_drop]).
  by apply (elem_of_sublist _ _ _ Hb).
Qed.

(** X8.  For a page asked with an offset and a limit that are not
    negative, list returns at most [limit] records: the records from
    position [offset] of the matching rows, as many as are left, none
    when the offset is at or past the total.  Every record of the page is
    a record of the store that meets the query, and the total never
    exceeds the size of the store. *)
Theorem list_page_bounds (s : store) (p : list_query) :
  0 ≤ offset p → 0 ≤ limit p →
  items (list s p)
  = take (Z.to_nat (limit p)) (drop (Z.to_nat (offset p)) (rows s p))
  ∧ Z.of_nat (length (items (list s p)))
    = Z.min (limit p) (Z.max 0 (Z.of_nat (total (list s p)) - offset p))
  ∧ (total (list s p) ≤ length s)%nat
  ∧ (∀ b, b ∈ items (list s p) → b ∈ s ∧ selected p b = true)
  ∧ (Z.of_nat (total (list s p)) ≤ offset p → items (list s p) = []).
Proof.
  intros Hoff Hlim.
  destruct (list_page s p Hoff Hlim) as (Hitems & Hlen & Htot & Hin).
  split_and!; try done.
  intros Hpast. rewrite Hitems.
  unfold list in Hpast. cbn [total] in Hpast.
  rewrite drop_ge by lia. by rewrite take_nil.
Qed.

(** The stable sort keeps the order of the elements that compare equal:
    selecting the elements of a class whose members do not compare above
    one another commutes with sorting. *)
Lemma sort_insert_class {A} (cmp : A → A → Z) (P : A → bool) (x : A)
    (l : Datatypes.list A) :
  (∀ a b, P a = true → P b = true → cmp a b ≤ 0) →
  List.filter P (sort_insert cmp x l) = List.filter P (x :: l).
Proof.
  intros Hclass. induction l as [|y l IH]; [done|].
  cbn [sort_insert]. destruct (cmp x y <=? 0) eqn:Hc; [done|].
  apply Z.leb_gt in Hc. simpl. simpl in IH. rewrite IH.
  destruct (P x) eqn:Hx, (P y) eqn:Hy; try done.
  pose proof (Hclass x y Hx Hy). lia.
Qed.

Lemma sort_by_class {A} (cmp : A → A → Z) (P : A → bool)
    (l : Datatypes.list A) :
  (∀ a b, P a = true → P b = true → cmp a b ≤ 0) →
  List.filter P (sort_by cmp l) = List.filter P l.
Proof.
  intros Hclass. induction l as [|x l IH]; [done|].
  cbn [sort_by]. rewrite sort_insert_class by done.
  simpl. by rewrite IH.
Qed.

(** X9.  The sort of list is stable: the matching records that have the
    same value in the sort field come out in the order in which the
    store holds them, for each of the eight sort orders. *)
Theorem list_sort_keeps_ties_in_store_order (s : store) (p : list_query)
    (v : string) :
  let tie b := bool_decide (sort_value (sort_field (sort p)).1 b = v) in
  List.filter tie (rows s p) = List.filter tie (List.filter (selected p) s)
  ∧ List.filter tie (List.filter (selected p) s) `sublist_of` s.
Proof.
  cbn zeta. split.
  - rewrite rows_filtered. unfold filtered. rewrite filtered_selected.
    apply sort_by_class. intros a b Ha%bool_decide_eq_true Hb%bool_decide_eq_true.
    apply compare_in_order. unfold in_order.
    destruct (sort_field (sort p)) as [field asc]. cbn [fst] in Ha, Hb.
    rewrite Ha, Hb. destruct asc; apply not_above_refl.
  - etrans; apply List_filter_sublist.
Qed.

(** ** GET /api/books *)

Lemma Qc_integer (q : Qc) :
  is_integer q = true → q = Q2Qc (inject_Z (Qnum q)).
Proof.
  unfold is_integer. intros Hden%bool_decide_eq_true.
  apply Qc_is_canon. cbn [this Q2Qc]. rewrite Qred_correct.
  destruct q as [[n d] Hq]. cbn in *. by subst d.
Qed.

Lemma Qc_le_integer (z : Z) (q : Qc) :
  is_integer q = true →
  ((Q2Qc (inject_Z z) ≤ q)%Qc ↔ z ≤ Qnum q)
  ∧ ((q ≤ Q2Qc (inject_Z z))%Qc ↔ Qnum q ≤ z).
Proof.
  unfold is_integer. intros Hden%bool_decide_eq_true.
  unfold Qcle. cbn [this Q2Qc]. rewrite !Qred_correct.
  destruct q as [[n d] Hq]. cbn in *. subst d.
  unfold Qle. cbn. split; lia.
Qed.

Lemma check_integer_true (lo : Z) (hi : option Z) (n : option Qc) :
  check_integer lo hi n = true →
  n = Some (Q2Qc (inject_Z (as_integer n)))
  ∧ lo ≤ as_integer n
  ∧ (∀ h, hi = Some h → as_integer n ≤ h).
Proof.
  unfold check_integer. destruct n as [q|]; [|done]. cbn [as_integer].
  intros [[Hint Hlo%bool_decide_eq_true]%andb_prop Hhi]%andb_prop.
  destruct (Qc_le_integer lo q Hint) as [Hle _].
  split; [f_equal; by apply Qc_integer|]. split; [by apply Hle|].
  intros h ->. cbn in Hhi. apply bool_decide_eq_true in Hhi.
  by apply (Qc_le_integer h q Hint).
Qed.

Section list_handler.
Context `{Formats} `{Conversions}.

(** X10.  Every 200 answer of GET /api/books is a page of at most 500
    records: the limit and the offset the handler passes on are integers
    with 1 ≤ limit ≤ 500 and 0 ≤ offset (50 and 0 when the query string
    does not give them), the page holds the records from position offset
    of the matching rows, limit of them at most, all of them records of
    the store, and a sort parameter, when given, is one of the eight
    names of the schema. *)
Theorem list_books_page (s : store) (req_query : object) (result : page) :
  list_books s req_query = Listed result →
  let lim := as_integer (number_or (req_query !! "limit") 50) in
  let off := as_integer (number_or (req_query !! "offset") 0) in
  1 ≤ lim ≤ 500 ∧ 0 ≤ off
  ∧ (req_query !! "limit" = None → lim = 50)
  ∧ (req_query !! "offset" = None → off = 0)
  ∧ Z.of_nat (length (items result))
    = Z.min lim (Z.max 0 (Z.of_nat (total result) - off))
  ∧ (length (items result) ≤ 500)%nat
  ∧ (total result ≤ length s)%nat
  ∧ (∀ b, b ∈ items result → b ∈ s)
  ∧ (∀ v, req_query !! "sort" = Some v → ∃ k, v = JStr k ∧ k ∈ sort_names).
Proof.
  unfold list_books.
  match goal with
  | |- context [validateListQuery ?o] =>
      destruct (validateListQuery o) eqn:Hvalid
  end; cbn [negb]; [|done].
  intros [= <-]. cbn zeta.
  unfold validateListQuery, validate_query in Hvalid.
  cbn [listQuerySchema q_schema author_schema tag_schema
    beforePurchaseDate_schema afterPurchaseDate_schema sort_schema
    limit_schema offset_schema fst snd] in Hvalid. cbn [query_q query_author query_tag
    query_beforePurchaseDate query_afterPurchaseDate query_sort query_limit
    query_offset] in *.
  repeat (apply andb_prop in Hvalid as [Hvalid ?]).
  destruct (check_integer_true 1 (Some 500) _ ltac:(eassumption))
    as (_ & Hlo & Hhi).
  destruct (check_integer_true 0 None _ ltac:(eassumption)) as (_ & Hoff & _).
  specialize (Hhi 500 eq_refl).
  match goal with
  | |- context [Store.list s ?p] =>
      destruct (list_page s p) as (_ & Hlen & Htot & Hin);
        cbn [offset limit]; [done|lia|]
  end.
  cbn [offset limit] in Hlen.
  split_and!; try done.
  - by intros ->.
  - by intros ->.
  - lia.
  - intros b Hb. by apply Hin in Hb as [? _].
  - intros v Hv.
    match goal with
    | Hs : opt_check (req_query !! "sort") _ = true |- _ =>
        rewrite Hv in Hs; cbn in Hs
    end.
    destruct v as [| | |k| |]; try done. exists k. split; [done|].
    unfold check_string in *. cbn in *.
    by match goal with
    | Hs : bool_decide (k ∈ sort_names) && _ = true |- _ =>
        apply andb_prop in Hs as [?%bool_decide_eq_true _]
    | Hs : _ && bool_decide (k ∈ sort_names) = true |- _ =>
        apply andb_prop in Hs as [_ ?%bool_decide_eq_true]
    | Hs : bool_decide (k ∈ sort_names) = true |- _ =>
        apply bool_decide_eq_true in Hs
    end.
Qed.

End list_handler.

Lemma check_integer_Z (lo : Z) (hi : option Z) (z : Z) :
  check_integer lo hi (Some (Q2Qc (inject_Z z))) = true →
  lo ≤ z ∧ ∀ h, hi = Some h → z ≤ h.
Proof.
  unfold check_integer.
  intros [[_ Hlo%bool_decide_eq_true]%andb_prop Hhi]%andb_prop.
  unfold Qcle in *. cbn [this Q2Qc] in *. rewrite !Qred_correct in Hlo.
  unfold Qle in Hlo. cbn in Hlo. split; [lia|].
  intros h ->. cbn in Hhi. apply bool_decide_eq_true in Hhi.
  unfold Qcle in Hhi. cbn [this Q2Qc] in Hhi. rewrite !Qred_correct in Hhi.
  unfold Qle in Hhi. cbn in Hhi. lia.
Qed.

Section list_handler_rejects.
Context `{Formats} `{Conversions}.

Lemma is_string_JStr (c : string_schema) (v : json) :
  is_string c v = true → ∃ t, v = JStr t.
Proof. destruct v; try done. by eexists. Qed.

Lemma list_books_checks (s : store) (req_query : object) :
  list_books s req_query ≠ InvalidQuery →
  (∀ k, k ∈ ["q"; "author"; "tag"; "beforePurchaseDate";
             "afterPurchaseDate"; "sort"] →
        ∀ v, req_query !! k = Some v → ∃ t, v = JStr t)
  ∧ (∀ k, req_query !! "sort" = Some (JStr k) → k ∈ sort_names)
  ∧ (∀ k d, k ∈ ["beforePurchaseDate"; "afterPurchaseDate"] →
        req_query !! k = Some (JStr d) → format_ok FmtDate d = true)
  ∧ check_integer 1 (Some 500) (number_or (req_query !! "limit") 50) = true
  ∧ check_integer 0 None (number_or (req_query !! "offset") 0) = true.
Proof.
  unfold list_books.
  match goal with
  | |- context [validateListQuery ?o] =>
      destruct (validateListQuery o) eqn:Hvalid
  end; cbn [negb]; [|done].
  intros _.
  unfold validateListQuery, validate_query in Hvalid.
  cbn [listQuerySchema q_schema author_schema tag_schema
    beforePurchaseDate_schema afterPurchaseDate_schema sort_schema
    limit_schema offset_schema fst snd] in Hvalid. cbn [query_q query_author query_tag
    query_beforePurchaseDate query_afterPurchaseDate query_sort query_limit
    query_offset] in *.
  apply andb_prop in Hvalid as [Hvalid Hoffset].
  apply andb_prop in Hvalid as [Hvalid Hlimit].
  apply andb_prop in Hvalid as [Hvalid Hsort].
  apply andb_prop in Hvalid as [Hvalid Hafter].
  apply andb_prop in Hvalid as [Hvalid Hbefore].
  apply andb_prop in Hvalid as [Hvalid Htag].
  apply andb_prop in Hvalid as [Hq Hauthor].
  split_and!; [| | |done|done].
  - intros k Hk v Hv.
    repeat (apply elem_of_cons in Hk as [->|Hk]);
      [..|by apply elem_of_nil in Hk];
      match goal with
      | Hc : opt_check (req_query !! ?x) _ = true |- _ =>
          rewrite Hv in Hc; cbn [opt_check] in Hc;
          by apply (is_string_JStr _ v Hc)
      end.
  - intros k Hk. rewrite Hk in Hsort. cbn in Hsort.
    unfold check_string in Hsort. cbn in Hsort.
    by apply bool_decide_eq_true in Hsort.
  - intros k d Hk Hd.
    repeat (apply elem_of_cons in Hk as [->|Hk]);
      [..|by apply elem_of_nil in Hk];
      match goal with
      | Hc : opt_check (req_query !! ?x) _ = true |- _ =>
          rewrite Hd in Hc; cbn in Hc; unfold check_string in Hc;
          cbn in Hc; by rewrite !andb_true_r in Hc
      end.
Qed.

(** X11.  GET /api/books answers 400 and lists nothing when a text, date
    or sort parameter is not a string (a parameter given twice arrives
    as an array), when sort is not one of the eight names, when a date
    bound is not a date, when limit is not an integer from 1 to 500, or
    when offset is not an integer from 0 up. *)
Theorem list_books_rejects (s : store) (req_query : object) :
  (∀ k v, k ∈ ["q"; "author"; "tag"; "beforePurchaseDate";
               "afterPurchaseDate"; "sort"] →
          req_query !! k = Some v → (∀ t, v ≠ JStr t) →
          list_books s req_query = InvalidQuery)
  ∧ (∀ k, req_query !! "sort" = Some (JStr k) → k ∉ sort_names →
          list_books s req_query = InvalidQuery)
  ∧ (∀ k d, k ∈ ["beforePurchaseDate"; "afterPurchaseDate"] →
          req_query !! k = Some (JStr d) → format_ok FmtDate d = false →
          list_books s req_query = InvalidQuery)
  ∧ (number_or (req_query !! "limit") 50 = None
     ∨ number_or (req_query !! "offset") 0 = None →
     list_books s req_query = InvalidQuery)
  ∧ (∀ q, number_or (req_query !! "limit") 50 = Some q
          ∨ number_or (req_query !! "offset") 0 = Some q →
          Qden q ≠ 1%positive →
          list_books s req_query = InvalidQuery)
  ∧ (∀ z, number_or (req_query !! "limit") 50 = Some (Q2Qc (inject_Z z)) →
          z < 1 ∨ 500 < z →
          list_books s req_query = InvalidQuery)
  ∧ (∀ z, number_or (req_query !! "offset") 0 = Some (Q2Qc (inject_Z z)) →
          z < 0 →
          list_books s req_query = InvalidQuery).
Proof.
  destruct (list_books s req_query) as [result|] eqn:Hlist;
    [|by repeat split].
  destruct (list_books_checks s req_query) as
    (Hstr & Hsort & Hdate & Hlimit & Hoffset); [by rewrite Hlist|].
  split_and!.
  - intros k v Hk Hv Hne. destruct (Hstr k Hk v Hv) as [t ->].
    by destruct (Hne t).
  - intros k Hk Hno. by apply Hsort in Hk.
  - intros k d Hk Hd Hbad. rewrite (Hdate k d Hk Hd) in Hbad. done.
  - intros [Hn|Hn]; [rewrite Hn in Hlimit|rewrite Hn in Hoffset]; done.
  - intros q [Hn|Hn] Hden;
      [rewrite Hn in Hlimit|rewrite Hn in Hoffset];
      [apply andb_prop in Hlimit as [[Hi _]%andb_prop _]
      |apply andb_prop in Hoffset as [[Hi _]%andb_prop _]];
      by apply bool_decide_eq_true in Hi.
  - intros z Hn Hz. rewrite Hn in Hlimit.
    apply check_integer_Z in Hlimit as [? Hhi].
    specialize (Hhi 500 eq_refl). lia.
  - intros z Hn Hz. rewrite Hn in Hoffset.
    apply check_integer_Z in Hoffset as [? _]. lia.
Qed.

End list_handler_rejects.

(** ** allTags and GET /api/tags *)

Lemma elem_of_set_add (x y : string) (set : Datatypes.list string) :
  y ∈ set_add x set ↔ y = x ∨ y ∈ set.
Proof.
  unfold set_add. case_bool_decide as Hx.
  - split; [by right|]. by intros [->|?].
  - rewrite elem_of_app, list_elem_of_singleton. tauto.
Qed.

Lemma NoDup_set_add (x : string) (set : Datatypes.list string) :
  NoDup set → NoDup (set_add x set).
Proof.
  intros Hset. unfold set_add. case_bool_decide as Hx; [done|].
  apply NoDup_app. split_and!; [done| |apply NoDup_singleton].
  intros y Hy ->%list_elem_of_singleton. done.
Qed.

Lemma tags_added (tags set : Datatypes.list string) :
  (NoDup set → NoDup (foldl (λ set t, set_add t set) set tags))
  ∧ ∀ t, t ∈ foldl (λ set t, set_add t set) set tags ↔ t ∈ set ∨ t ∈ tags.
Proof.
  revert set. induction tags as [|x tags IH]; intros set; simpl.
  - split; [done|]. intros t. rewrite elem_of_nil. tauto.
  - destruct (IH (set_add x set)) as [Hnd Hin]. split.
    + intros Hset. by apply Hnd, NoDup_set_add.
    + intros t. rewrite Hin, elem_of_set_add, elem_of_cons. tauto.
Qed.

Lemma tag_set (s : store) (set : Datatypes.list string) :
  let all :=
    foldl (λ set b, foldl (λ set t, set_add t set) set (strs_field b "tags"))
      set s in
  (NoDup set → NoDup all)
  ∧ ∀ t, t ∈ all ↔ t ∈ set ∨ ∃ b, b ∈ s ∧ t ∈ strs_field b "tags".
Proof.
  cbn zeta. revert set. induction s as [|b s IH]; intros set; simpl.
  - split; [done|]. intros t. split; [by left|].
    intros [?|(b & Hb & _)]; [done|]. by apply elem_of_nil in Hb.
  - destruct (tags_added (strs_field b "tags") set) as [Hnd Hin].
    destruct (IH (foldl (λ set t, set_add t set) set (strs_field b "tags")))
      as [Hnd' Hin'].
    split; [intros Hset; by apply Hnd', Hnd|].
    intros t. rewrite Hin', Hin. split.
    + intros [[?|?]|(b' & Hb' & Ht)]; [by left| |].
      * right. exists b. split; [by left|done].
      * right. exists b'. split; [by right|done].
    + intros [?|(b' & [->|Hb']%elem_of_cons & Ht)]; [by left; left| |].
      * left. by right.
      * right. by exists b'.
Qed.

Lemma default_compare_le (a b : string) :
  default_compare a b ≤ 0 ↔ not_above a b.
Proof.
  unfold default_compare, not_above, string_le.
  destruct (string_lt a b) eqn:Hab; destruct (string_lt b a) eqn:Hba;
    cbn [negb]; split; try done; try lia.
  apply string_lt_asym in Hab. congruence.
Qed.

Lemma time_le_antisym (a b : string) : time_le a b → time_le b a → a = b.
Proof.
  unfold time_le, String.leb. rewrite (String.compare_antisym b a).
  destruct (String.compare a b) eqn:Hc; cbn; try done.
  intros _ _. by apply string_compare_Eq.
Qed.

(** The key of a byte determines the byte. *)
Lemma utf16_key_inv (c : ascii) :
  (let n := N_of_ascii (utf16_key c) in
   if ((238 <=? n) && (n <=? 242))%N then ascii_of_N (n + 2)
   else if ((243 <=? n) && (n <=? 244))%N then ascii_of_N (n - 5)
   else utf16_key c) = c.
Proof. by destruct c as [[] [] [] [] [] [] [] []]. Qed.

Lemma utf16_key_inj (c d : ascii) : utf16_key c = utf16_key d → c = d.
Proof.
  intros Heq. rewrite <- (utf16_key_inv c), <- (utf16_key_inv d).
  by rewrite Heq.
Qed.

Lemma map_chars_inj (f : ascii → ascii) (a b : string) :
  (∀ c d, f c = f d → c = d) → map_chars f a = map_chars f b → a = b.
Proof.
  intros Hf. revert b. induction a as [|c a IH]; intros [|d b]; simpl;
    try done.
  intros [= Hc%Hf Hab%IH]. by subst.
Qed.

Lemma not_above_antisym (a b : string) :
  not_above a b → not_above b a → a = b.
Proof.
  unfold not_above. rewrite !string_le_keys. intros Hab Hba.
  apply (map_chars_inj utf16_key); [apply utf16_key_inj|].
  by apply time_le_antisym.
Qed.

Lemma StronglySorted_strict (l : Datatypes.list string) :
  StronglySorted not_above l → NoDup l →
  StronglySorted (λ a b, string_lt a b = true) l.
Proof.
  induction 1 as [|a l Hl IH Ha]; intros Hnd; [constructor|].
  apply NoDup_cons in Hnd as [Hnotin Hnd]. constructor; [by apply IH|].
  rewrite Forall_forall in *. intros b Hb.
  destruct (string_lt a b) eqn:Hab; [done|].
  assert (not_above b a) as Hba
    by (unfold not_above, string_le; by rewrite Hab).
  pose proof (not_above_antisym a b (Ha b Hb) Hba) as ->. done.
Qed.

Lemma allTags_elem (s : store) (t : string) :
  t ∈ allTags s ↔ ∃ b, b ∈ s ∧ t ∈ strs_field b "tags".
Proof.
  unfold allTags. destruct (tag_set s []) as [_ Hin].
  rewrite sort_by_Permutation, Hin, elem_of_nil. tauto.
Qed.

(** X12.  The tags endpoint lists every tag of the collection once, in
    strictly increasing order of the strings, which the default sort
    compares by UTF-16 code units: a string is listed exactly when some
    record carries it among its tags, and [count] is the number of
    strings listed. *)
Theorem tags_sorted_and_distinct (s : store) :
  StronglySorted (λ a b, string_lt a b = true) (get_tags s).2
  ∧ NoDup (get_tags s).2
  ∧ (∀ t, t ∈ (get_tags s).2 ↔ ∃ b, b ∈ s ∧ t ∈ strs_field b "tags")
  ∧ (get_tags s).1 = length (get_tags s).2
  ∧ (get_tags s).2 = allTags s.
Proof.
  unfold get_tags. cbn [fst snd]. unfold allTags.
  destruct (tag_set s []) as [Hnd Hin].
  set (set := foldl _ [] s) in *.
  assert (NoDup (sort_by default_compare set)) as Hnd'.
  { rewrite sort_by_Permutation. apply Hnd, NoDup_nil_2. }
  split_and!; [|done| |done|done].
  - apply StronglySorted_strict; [|done].
    eapply StronglySorted_impl; [|apply sort_by_sorted].
    + intros a b. apply default_compare_le.
    + intros a b. rewrite !default_compare_le. apply not_above_total.
    + intros a b c. rewrite !default_compare_le. apply not_above_trans.
  - intros t. apply allTags_elem.
Qed.

Lemma default_limit_ok :
  check_integer 1 (Some 500) (Some (Q2Qc (inject_Z 50))) = true.
Proof. vm_compute. reflexivity. Qed.

Lemma default_offset_ok :
  check_integer 0 None (Some (Q2Qc (inject_Z 0))) = true.
Proof. vm_compute. reflexivity. Qed.

Lemma slice_first_nonempty {A} (n : Z) (l : Datatypes.list A) :
  1 ≤ n → l ≠ [] → slice 0 (0 + n) l ≠ [].
Proof.
  intros Hn Hl. rewrite slice_nonneg by lia.
  destruct l as [|a l]; [done|].
  replace (Z.to_nat (0 + n - 0)) with (S (Z.to_nat (n - 1))) by lia.
  done.
Qed.

Section tags_and_list.
Context `{Formats} `{Conversions}.

(** X13.  A tag listed by the tags endpoint selects something: when the
    tag has no white space around it, GET /api/books?tag=t answers 200
    with a page that is not empty, and, unless t is the empty string,
    every record of the page carries a tag equal to t up to the case of
    the letters. *)
Theorem listed_tag_finds_a_record (s : store) (t : string) :
  t ∈ (get_tags s).2 → trim t = t →
  ∃ result,
    list_books s {["tag" := JStr t]} = Listed result
    ∧ (1 ≤ total result)%nat
    ∧ items result ≠ []
    ∧ (t ≠ "" → ∀ b, b ∈ items result →
         ∃ x, x ∈ strs_field b "tags" ∧ toLowerCase x = toLowerCase t).
Proof.
  intros Ht Htrim.
  apply allTags_elem in Ht as (b & Hb & Hbt).
  unfold list_books.
  rewrite lookup_singleton_eq, !lookup_singleton_ne by done.
  unfold validateListQuery, validate_query, number_or.
  cbn [listQuerySchema q_schema author_schema tag_schema
    beforePurchaseDate_schema afterPurchaseDate_schema sort_schema
    limit_schema offset_schema fst snd].
  cbn [query_q query_author query_tag query_beforePurchaseDate
       query_afterPurchaseDate query_sort query_limit query_offset
       opt_check andb].
  rewrite default_limit_ok, default_offset_ok.
  assert (check str (JStr t) = true) as -> by done.
  cbn [andb negb as_string as_integer].
  eexists. split; [done|].
  set (p := {| q := None; tag := Some t |}).
  assert (∀ x, selected p x = true
            ↔ t = "" ∨ ∃ y, y ∈ strs_field x "tags"
                           ∧ toLowerCase y = toLowerCase t) as Hsel.
  { intros x. unfold selected, selected_as_written, effective, p.
    cbn [q author tag beforePurchaseDate afterPurchaseDate trimmed bound
         when_given andb].
    rewrite Htrim, !andb_true_r. destruct (nonempty t) eqn:Hne.
    - apply nonempty_true in Hne. cbn [when_given]. unfold matches_tag.
      rewrite existsb_exists. unfold insensitive_eq. split.
      + intros (y & Hy%list_elem_of_In & Heq%bool_decide_eq_true). eauto.
      + intros [?|(y & Hy & Heq)]; [done|]. exists y.
        split; [by apply list_elem_of_In|by apply bool_decide_eq_true].
    - apply nonempty_false in Hne. cbn [when_given]. split; [by left|done]. }
  assert (b ∈ rows s p) as Hrow.
  { apply rows_elem. split; [done|]. apply Hsel.
    destruct (decide (t = "")); [by left|right; eauto]. }
  assert (rows s p ≠ []) as Hrows.
  { intros Hnil. rewrite Hnil in Hrow. by apply elem_of_nil in Hrow. }
  unfold list. cbn [total items].
  change (offset p) with 0. change (limit p) with 50.
  split_and!.
  - destruct (rows s p); [done|simpl; lia].
  - by apply (slice_first_nonempty 50).
  - intros Hne x Hx.
    assert (x ∈ rows s p) as [_ Hx']%rows_elem.
    { rewrite slice_nonneg in Hx by lia.
      eapply elem_of_sublist; [exact Hx|].
      etrans; [apply sublist_take|apply sublist_drop]. }
    apply Hsel in Hx' as [?|?]; done.
Qed.

End tags_and_list.

(** ** The ISBN patterns and the normalized ISBN *)

Lemma all_chars_spec (p : ascii → bool) (s : string) :
  all_chars p s = true
  ↔ ∀ c, c ∈ String.list_ascii_of_string s → p c = true.
Proof.
  induction s as [|a s IH]; simpl.
  - split; [intros _ c Hc; by apply elem_of_nil in Hc|done].
  - rewrite andb_true_iff, IH. split.
    + intros [Ha Hs] c [->|Hc]%elem_of_cons; auto.
    + intros Hall. split; [apply Hall; by left|].
      intros c Hc. apply Hall. by right.
Qed.

Lemma ten_or_more_prefixed (c1 c2 c3 : ascii) (r : string) :
  isbn13_char c1 = true → isbn13_char c2 = true → isbn13_char c3 = true →
  ten_or_more isbn13_char r = true →
  ten_or_more isbn13_char (String c1 (String c2 (String c3 r))) = true.
Proof.
  unfold ten_or_more. intros H1 H2 H3 [Hlen Hall]%andb_prop.
  apply andb_true_intro. split.
  - apply Nat.leb_le in Hlen. apply Nat.leb_le. simpl. lia.
  - simpl. by rewrite H1, H2, H3.
Qed.

Lemma matches_isbn13_eq (s : string) :
  matches_isbn13 s
  = (10 <=? String.length s)%nat && all_chars isbn13_char s.
Proof.
  change ((10 <=? String.length s)%nat && all_chars isbn13_char s)
    with (ten_or_more isbn13_char s).
  destruct s as [|a s]; [reflexivity|].
  destruct s as [|b s];
    [destruct a as [[] [] [] [] [] [] [] []]; reflexivity|].
  destruct s as [|c r].
  { destruct a as [[] [] [] [] [] [] [] []]; try reflexivity;
    destruct b as [[] [] [] [] [] [] [] []]; reflexivity. }
  destruct (ascii_dec a "9") as [->|Ha].
  2:{ destruct a as [[] [] [] [] [] [] [] []]; try reflexivity. done. }
  destruct (ascii_dec b "7") as [->|Hb].
  2:{ destruct b as [[] [] [] [] [] [] [] []]; try reflexivity. done. }
  cbn [matches_isbn13].
  destruct (ten_or_more isbn13_char (String "9" (String "7" (String c r))))
    eqn:Hs; [by rewrite orb_true_r|].
  rewrite orb_false_r. apply not_true_iff_false.
  intros [Hc Hr]%andb_prop.
  rewrite ten_or_more_prefixed in Hs; [done|done|done| |done].
  unfold isbn13_char.
  apply orb_prop in Hc as [->%Ascii.eqb_eq| ->%Ascii.eqb_eq]; done.
Qed.

(** X14.  The optional prefix of the isbn13 pattern changes nothing: the
    pattern accepts exactly the strings of ten or more characters that
    are all digits or hyphens, of any length from ten up. *)
Theorem isbn13_pattern_accepts (s : string) :
  matches_isbn13 s
  = (10 <=? String.length s)%nat && all_chars isbn13_char s.
Proof. apply matches_isbn13_eq. Qed.

Lemma normalized_chars (p q : ascii → bool) (s : string) :
  (∀ c, p c = true → Ascii.eqb c "-" = false → q (upper_char c) = true) →
  all_chars p s = true →
  all_chars q (toUpperCase (strip_hyphens s)) = true.
Proof.
  intros Hpq. induction s as [|a s IH]; simpl; [done|].
  intros [Ha Hs]%andb_prop. destruct (Ascii.eqb a "-") eqn:Hh; [by apply IH|].
  simpl. rewrite Hpq by done. by apply IH.
Qed.

Lemma isbn_char_normalized (c : ascii) :
  isbn10_char c = true → Ascii.eqb c "-" = false →
  is_digit (upper_char c) || Ascii.eqb (upper_char c) "X" = true.
Proof. by destruct c as [[] [] [] [] [] [] [] []]. Qed.

Lemma isbn13_char_isbn10 (c : ascii) :
  isbn13_char c = true → isbn10_char c = true.
Proof. by destruct c as [[] [] [] [] [] [] [] []]. Qed.

Section isbn_key.
Context `{Formats}.

(** X15.  The normalized ISBN of a record that passed the validator,
    the key POST and import compare, is made of digits and the letter X
    only: it has no hyphen and no lower-case x. *)
Theorem stored_isbn_key_chars (b : object) :
  conforms b →
  all_chars (λ c, is_digit c || Ascii.eqb c "X") (isbnKey b) = true.
Proof.
  intros Hb. unfold isbnKey.
  apply (normalized_chars isbn10_char); [apply isbn_char_normalized|].
  assert (∀ s, b !! "isbn13" = Some (JStr s) →
               all_chars isbn10_char s = true) as H13.
  { intros s Hs.
    pose proof (conforms_lookup b "isbn13" _ _ Hb eq_refl Hs) as Hc.
    cbn in Hc. unfold check_string in Hc. cbn in Hc.
    rewrite andb_true_r in Hc. rewrite matches_isbn13_eq in Hc.
    apply andb_prop in Hc as [_ Hc]. apply all_chars_spec.
    intros c Hin. apply isbn13_char_isbn10.
    by apply (proj1 (all_chars_spec _ _) Hc). }
  assert (∀ s, b !! "isbn10" = Some (JStr s) →
               all_chars isbn10_char s = true) as H10.
  { intros s Hs.
    pose proof (conforms_lookup b "isbn10" _ _ Hb eq_refl Hs) as Hc.
    cbn in Hc. unfold check_string in Hc. cbn in Hc.
    rewrite andb_true_r in Hc. unfold matches_isbn10, ten_or_more in Hc.
    by apply andb_prop in Hc as [_ Hc]. }
  unfold isbn_of, str_field.
  destruct (b !! "isbn13") as [[| | |s13| |]|] eqn:E13;
    destruct (b !! "isbn10") as [[| | |s10| |]|] eqn:E10;
    cbn [default]; try done;
    try (destruct (nonempty s13)); eauto.
Qed.

End isbn_key.

(** ** The validators *)

Section validation.
Context `{Formats}.

Lemma strip_strip (sc : object_schema) (o : object) :
  strip sc (strip sc o) = strip sc o.
Proof. apply strip_id. by intros k v [_ ?]%strip_lookup_Some. Qed.

Lemma required_ok_strip_book (o : object) :
  required_ok bookSchema (strip bookSchema o) = required_ok bookSchema o.
Proof.
  apply eq_true_iff_eq. rewrite !required_ok_book.
  by rewrite strip_lookup_known.
Qed.

Lemma properties_ok_additional (sc : object_schema) (o : object) k v :
  known sc k = false →
  properties_ok sc (<[k := v]> o) = properties_ok sc o.
Proof.
  intros Hk. apply eq_true_iff_eq. rewrite !properties_ok_spec.
  split; intros Hp k' c v' Hin Hv.
  - apply (Hp k' c v' Hin). rewrite lookup_insert_ne; [done|].
    intros <-. apply known_property in Hin. congruence.
  - apply (Hp k' c v' Hin). rewrite lookup_insert_ne in Hv; [done|].
    intros <-. apply known_property in Hin. congruence.
Qed.

(** X16.  The validators only remove, and are idempotent: what
    [validateNewBook] leaves is the object restricted to the properties
    of the schema; validating that again gives the same verdict and
    changes nothing; and the verdict does not depend on a property the
    schema does not have.  [validatePatchBook] is idempotent in the same
    way. *)
Theorem validators_idempotent :
  (∀ o, validateNewBook (validateNewBook o).2 = validateNewBook o)
  ∧ (∀ o k, (validateNewBook o).2 !! k
            = if known bookSchema k then o !! k else None)
  ∧ (∀ o k v, known bookSchema k = false →
       (validateNewBook (<[k := v]> o)).1 = (validateNewBook o).1)
  ∧ (∀ body, validatePatchBook (validatePatchBook body).2
             = validatePatchBook body).
Proof.
  split_and!.
  - intros o. unfold validateNewBook, validate_object. cbn [snd].
    by rewrite required_ok_strip_book, properties_ok_strip, strip_strip.
  - intros o k. unfold validateNewBook, validate_object. cbn [snd].
    destruct (known bookSchema k) eqn:Hk.
    + by apply strip_lookup_known.
    + apply eq_None_not_Some. intros [v [_ ?]%strip_lookup_Some].
      congruence.
  - intros o k v Hk. unfold validateNewBook, validate_object. cbn [fst].
    rewrite properties_ok_additional by done. f_equal.
    apply eq_true_iff_eq. rewrite !required_ok_book.
    rewrite lookup_insert_ne; [done|]. intros ->. by rewrite known_title in Hk.
  - intros body. unfold validatePatchBook, compile.
    destruct body as [| | | | |o]; try done.
    unfold validate_object. cbn [fst snd].
    by rewrite properties_ok_strip, strip_strip.
Qed.

End validation.

(** ** The records of a store built through the API *)

Section well_formed_records.
Context `{Formats}.

Lemma well_formed_intro (b : object) :
  conforms b → is_Some (b !! "id") → is_Some (b !! "createdAt") →
  is_Some (b !! "updatedAt") → well_formed b.
Proof.
  intros Hb [i Hi] [c Hc] [u Hu]. split; [done|]. split_and!.
  - destruct (conforms_string b "id" i Hb) as [x ->];
      [left; set_solver|done|]. by exists x.
  - destruct (conforms_string b "createdAt" c Hb) as [x ->];
      [left; set_solver|done|]. exists x. split; [done|].
    pose proof (conforms_lookup b "createdAt" _ _ Hb eq_refl Hc) as Hchk.
    cbn in Hchk. unfold check_string in Hchk. cbn in Hchk.
    by rewrite !andb_true_r in Hchk.
  - destruct (conforms_string b "updatedAt" u Hb) as [x ->];
      [left; set_solver|done|]. exists x. split; [done|].
    pose proof (conforms_lookup b "updatedAt" _ _ Hb eq_refl Hu) as Hchk.
    cbn in Hchk. unfold check_string in Hchk. cbn in Hchk.
    by rewrite !andb_true_r in Hchk.
Qed.

Lemma normalize_ids (uuid : nat → string) (now : string)
    (raws : Datatypes.list json) :
  ∀ i incoming, normalize uuid now i raws = Books incoming →
  Forall (λ b, is_Some (b !! "id")) incoming.
Proof.
  induction raws as [|raw raws IH]; intros i incoming; cbn [normalize].
  - by intros [= <-].
  - destruct (get_prop raw "id") as [raw_id|]; [|done].
    destruct (get_prop raw "createdAt") as [raw_createdAt|]; [|done].
    match goal with
    | |- context [validateNewBook ?o] =>
        destruct (validateNewBook o) as [[] b] eqn:Hv; cbn [negb]; [|done]
    end.
    destruct (normalize uuid now (S i) raws) as [rest| |] eqn:Hrest;
      try done.
    intros [= <-]. apply validateNewBook_accepts in Hv as [Hb _].
    constructor; [|by eapply IH].
    rewrite Hb, strip_lookup_known by reflexivity.
    rewrite lookup_insert_ne, lookup_set_prop, decide_False by done.
    unfold js_or. destruct (truthy raw_id) eqn:Ht.
    + destruct raw_id as [v|]; [|done]. cbn. by rewrite lookup_insert_eq.
    + cbn. by rewrite lookup_insert_eq.
Qed.

Lemma normalize_incoming (uuid : nat → string) (now : string)
    (raws : Datatypes.list json) (i : nat) (incoming : Datatypes.list object) :
  normalize uuid now i raws = Books incoming → Forall well_formed incoming.
Proof.
  intros Hn. pose proof (normalize_Books _ _ _ _ _ Hn) as Hb.
  pose proof (normalize_ids _ _ _ _ _ Hn) as Hi.
  rewrite Forall_forall in *. intros b Hin.
  destruct (Hb b Hin) as (Hconf & Hu & c & Hc & _).
  apply well_formed_intro; [done|by apply Hi|by eexists|by eexists].
Qed.

Lemma well_formed_merged (existing incoming : object) (now : string) :
  well_formed existing → well_formed incoming → is_time now →
  well_formed (merged existing incoming now).
Proof.
  intros (He & [i Hi] & _ & _) (Hx & _ & (c & Hc & _) & _) Hnow.
  apply well_formed_intro.
  - by apply conforms_merged.
  - pose proof (merged_id existing incoming now) as Hid.
    unfold id_of in Hid. rewrite Hid, Hi. by eexists.
  - unfold merged.
    rewrite lookup_insert_ne, lookup_set_prop, decide_False by done.
    rewrite (lookup_union_Some_l _ _ _ _ Hc). by eexists.
  - unfold merged. rewrite lookup_insert_eq. by eexists.
Qed.

Lemma handle_well_formed (s : store) (r : request) (t t' : string) :
  Forall well_formed s → ticks t r t' → Forall well_formed (handle s r).2.
Proof.
  intros Hs Hticks. destruct r as [body uuid now|id body now|id body now|id|
    body uuid now clock]; cbn [handle].
  - destruct (post_book_cases s body uuid now) as [->|[r Hp]]; [done|].
    rewrite Hp. apply Forall_upsert; [done|].
    pose proof (post_book_stamps _ _ _ _ _ _ Hp) as (Hi & Hc & Hu).
    apply post_book_created in Hp as [Hv _].
    apply validateNewBook_accepts in Hv as [_ Hconf].
    apply well_formed_intro; [done|by eexists..].
  - destruct (put_book s id body now) as [resp s'] eqn:Hp.
    destruct (put_book_cases s id body now)
      as [Hsame|(B0 & r & _ & Hv & Hq)];
      rewrite Hp in Hsame || rewrite Hp in Hq; [by subst|].
    injection Hq as -> ->.
    apply put_book_stamps in Hp as (B & HB & _ & Hi & Hc & Hu).
    apply Forall_upsert; [done|].
    apply validateNewBook_accepts in Hv as [_ Hconf].
    apply get_Some in HB as [HB _]. rewrite Forall_forall in Hs.
    destruct (Hs B HB) as (_ & _ & (c & HBc & _) & _).
    apply well_formed_intro; [done|by eexists| |by eexists].
    rewrite Hc, HBc. by eexists.
  - destruct (patch_book s id body now) as [resp s'] eqn:Hp.
    destruct (patch_book_cases s id body now)
      as [[_ Hq]|[(B & _ & _ & Hq)|[(B & _ & _ & _ & Hq)|
          (B0 & r & _ & _ & Hv & Hq)]]]; rewrite Hp in Hq;
      injection Hq as -> ->; try done.
    apply patch_book_stamps in Hp as (B & HB & _ & Hi & Hc & Hu).
    apply Forall_upsert; [done|].
    apply validateNewBook_accepts in Hv as [_ Hconf].
    apply get_Some in HB as [HB _]. rewrite Forall_forall in Hs.
    destruct (Hs B HB) as (_ & _ & (c & HBc & _) & _).
    apply well_formed_intro; [done|by eexists| |by eexists].
    rewrite Hc, HBc. by eexists.
  - rewrite delete_book_store. by apply Forall_remove.
  - destruct (import_json_cases s body uuid now clock)
      as [->|(raws & incoming & s' & n & _ & Hn & Hi & ->)]; [done|].
    destruct Hticks as (_ & _ & _ & Hclock).
    eapply (importJson_Forall well_formed well_formed);
      [done| | |done|done].
    + intros e x k He Hx. apply well_formed_merged; [done|done|].
      apply Hclock.
    + by eapply normalize_incoming.
Qed.

Lemma reachable_well_formed (allowed : request → Prop) (t : string)
    (s : store) :
  reachable allowed t s → Forall well_formed s.
Proof.
  induction 1 as [|t s r t' _ IH _ Hticks]; [done|].
  by eapply handle_well_formed.
Qed.

(** X17.  Every record of a store built through the API, by any
    sequence of POST, PUT, PATCH, DELETE and import requests, is a valid
    book: it has a string id, createdAt and updatedAt that are
    date-times, a title that is a non-empty string, no property outside
    the schema, and each of its properties satisfies the keywords the
    schema gives for it. *)
Theorem stored_records_are_valid (t : string) (s : store) :
  reachable any_request t s →
  Forall (λ b,
    well_formed b
    ∧ (∃ title, b !! "title" = Some (JStr title) ∧ title ≠ "")
    ∧ (∀ k, is_Some (b !! k) → k ∈ (properties bookSchema).*1)
    ∧ (∀ k c v, (k, c) ∈ properties bookSchema → b !! k = Some v →
                check c v = true)) s.
Proof.
  intros Hreach%reachable_well_formed.
  eapply Forall_impl; [done|]. cbn. intros b Hwf.
  split; [done|]. destruct Hwf as (Hb & _).
  pose proof Hb as ([title Ht] & Hknown & Hprops)%conforms_iff.
  rewrite properties_ok_spec in Hprops. split_and!; [|..|done].
  - destruct (conforms_string b "title" title Hb) as [x ->];
      [right; set_solver|done|]. exists x. split; [done|].
    pose proof (Hprops "title" str1 (JStr x)) as Hchk.
    intros ->. discriminate Hchk; [|done].
    unfold bookSchema. cbn [properties]. set_solver.
  - intros k [v Hv]. apply Hknown in Hv. unfold known in Hv.
    by apply bool_decide_eq_true in Hv.
Qed.

End well_formed_records.

(** ** importJson and POST /api/import/json *)

Lemma import_loop_counts (dedupe : bool) (clock : nat → string)
    (array : Datatypes.list object) :
  ∀ i st st', import_loop dedupe clock i array st = Some st' →
  (created st' + updated st' = created st + updated st + length array
   ∧ length (books st') + created st = length (books st) + created st')%nat.
Proof.
  induction array as [|x array IH]; intros i st st'; simpl.
  - intros [= <-]. lia.
  - destruct (import_step dedupe (clock i) st x) as [st1|] eqn:Hstep;
      [|done]. cbn. intros [Hsum Hlen]%IH.
    apply import_step_cases in Hstep
      as [(id & j & e & _ & _ & _ & Hj & _ & _ & ->)|[_ ->]];
      cbn in Hsum, Hlen.
    + rewrite length_insert in Hlen. lia.
    + rewrite length_app in Hlen. simpl in Hlen. lia.
Qed.

Lemma import_loop_append (clock : nat → string)
    (array : Datatypes.list object) :
  ∀ i st, import_loop false clock i array st
  = Some {| books := books st ++ array; byIsbn := byIsbn st;
            created := created st + length array; updated := updated st |}.
Proof.
  induction array as [|x array IH]; intros i st; simpl.
  - rewrite app_nil_r, Nat.add_0_r. by destruct st.
  - unfold import_step. cbn. rewrite IH. cbn.
    rewrite <- app_assoc. do 2 f_equal. lia.
Qed.

Lemma importJson_sums (s s' : store) (array : Datatypes.list object)
    (clock : nat → string) (dedupe : bool) (c u : nat) :
  importJson s array dedupe clock = Some (s', (c, u)) →
  (c + u = length array ∧ length s' = length s + c)%nat.
Proof.
  unfold importJson. intros Hi.
  destruct (import_loop _ _ _ _ _) as [st|] eqn:Hloop; [|done].
  cbn in Hi. injection Hi as <- <- <-.
  apply import_loop_counts in Hloop as [Hsum Hlen]. cbn in Hsum, Hlen. lia.
Qed.

(** X18.  Whenever importJson returns, the two counts add up to the
    number of books given, the collection has grown by [created] records
    and the ids it held are still there, in the same positions.  With
    deduplication off every book is appended as it is. *)
Theorem importJson_counts (s : store) (array : Datatypes.list object)
    (clock : nat → string) :
  (∀ dedupe s' c u,
     importJson s array dedupe clock = Some (s', (c, u)) →
     (c + u = length array)%nat
     ∧ (length s' = length s + c)%nat
     ∧ ids s `prefix_of` ids s')
  ∧ importJson s array false clock
    = Some ((s ++ array)%list, (length array, 0%nat)).
Proof.
  split.
  - intros dedupe s' c u Hi.
    destruct (importJson_sums _ _ _ _ _ _ _ Hi) as [Hsum Hlen].
    split_and!; [done|done|].
    + by eapply importJson_ids.
  - unfold importJson. by rewrite import_loop_append.
Qed.

Lemma import_loop_returns (clock : nat → string)
    (array : Datatypes.list object) :
  ∀ i st,
    Forall has_string_id (books st) → Forall has_string_id array →
    (∀ k id, byIsbn st !! k = Some id →
             ∃ r, r ∈ books st ∧ r !! "id" = id) →
    is_Some (import_loop true clock i array st).
Proof.
  induction array as [|x array IH]; intros i st Hst Harr Hidx; simpl.
  - by eexists.
  - apply Forall_cons in Harr as [Hx Harr].
    assert (∃ st1, import_step true (clock i) st x = Some st1
              ∧ Forall has_string_id (books st1)
              ∧ (∀ k id, byIsbn st1 !! k = Some id →
                         ∃ r, r ∈ books st1 ∧ r !! "id" = id))
      as (st1 & -> & Hst1 & Hidx1); [|by apply IH].
    unfold import_step. cbn [andb].
    destruct (if nonempty (isbnKey x) then byIsbn st !! isbnKey x else None)
      as [id|] eqn:Hlook.
    + assert (byIsbn st !! isbnKey x = Some id) as Hk
        by (by destruct (nonempty (isbnKey x))).
      destruct (Hidx _ _ Hk) as (r & Hr & Hrid).
      destruct (replace_first (has_id id)
                  (λ existing, merge_into existing x id (clock i))
                  (books st)) as [s1|] eqn:Hrep.
      2:{ rewrite replace_first_None in Hrep. specialize (Hrep r Hr).
          rewrite Forall_forall in Hst. subst id.
          by rewrite (has_id_string r (Hst r Hr)) in Hrep. }
      cbn. eexists. split; [done|]. cbn.
      apply replace_first_Some in Hrep as (j & e & Hj & He & _ & ->).
      assert (merge_into e x id (clock i) !! "id" = e !! "id") as Hmid.
      { rewrite (merge_into_merged e x id (clock i) He).
        apply (merged_id e x (clock i)). }
      split.
      * apply Forall_insert; [done|].
        destruct (Forall_lookup_1 _ _ _ _ Hst Hj) as [v Hv].
        exists v. by rewrite Hmid.
      * intros k id' Hk'. destruct (Hidx _ _ Hk') as (r' & Hr' & Hrid').
        apply list_elem_of_lookup in Hr' as [j' Hj'].
        destruct (decide (j' = j)) as [->|Hne].
        -- exists (merge_into e x id (clock i)). split.
           ++ apply list_elem_of_lookup. exists j.
              apply list_lookup_insert_eq. by eapply lookup_lt_Some.
           ++ rewrite Hmid. congruence.
        -- exists r'. split; [|done]. apply list_elem_of_lookup. exists j'.
           by rewrite list_lookup_insert_ne.
    + eexists. split; [done|]. cbn. split.
      * apply Forall_app. split; [done|]. by constructor.
      * intros k id. destruct (nonempty (isbnKey x)) eqn:Hne.
        -- intros [[<- <-]|[_ Hk]]%lookup_insert_Some.
           ++ exists x. split; [|done]. apply elem_of_app. right. by left.
           ++ destruct (Hidx _ _ Hk) as (r & Hr & Hrid). exists r.
              split; [|done]. apply elem_of_app. by left.
        -- intros Hk. destruct (Hidx _ _ Hk) as (r & Hr & Hrid). exists r.
           split; [|done]. apply elem_of_app. by left.
Qed.

Lemma importJson_returns (s : store) (array : Datatypes.list object)
    (clock : nat → string) :
  Forall has_string_id s → Forall has_string_id array →
  is_Some (importJson s array true clock).
Proof.
  intros Hs Harr. unfold importJson.
  destruct (import_loop_returns clock array 0
    {| books := s; byIsbn := index_by_isbn s; created := 0; updated := 0 |})
    as [st ->]; [done|done| |by eexists].
  cbn. intros k id (r & Hr & Hrid & _)%index_by_isbn_sound. eauto.
Qed.

Section import_handler_answers.
Context `{Formats}.

Lemma normalize_length (uuid : nat → string) (now : string)
    (raws : Datatypes.list json) :
  ∀ i incoming, normalize uuid now i raws = Books incoming →
  length incoming = length raws.
Proof.
  induction raws as [|raw raws IH]; intros i incoming; cbn [normalize].
  - by intros [= <-].
  - destruct (get_prop raw "id") as [raw_id|]; [|done].
    destruct (get_prop raw "createdAt") as [raw_createdAt|]; [|done].
    match goal with
    | |- context [validateNewBook ?o] =>
        destruct (validateNewBook o) as [[] b] eqn:Hv; cbn [negb]; [|done]
    end.
    destruct (normalize uuid now (S i) raws) as [rest| |] eqn:Hrest;
      try done.
    intros [= <-]. simpl. f_equal. by eapply IH.
Qed.

Lemma normalize_not_raised (uuid : nat → string) (now : string)
    (raws : Datatypes.list json) :
  Forall (λ raw, raw ≠ JNull) raws →
  ∀ i, normalize uuid now i raws ≠ Raised.
Proof.
  induction 1 as [|raw raws Hraw _ IH]; intros i; cbn [normalize]; [done|].
  destruct raw; try done; cbn [get_prop];
    match goal with
    | |- context [validateNewBook ?o] =>
        destruct (validateNewBook o) as [[] b]; cbn [negb]; [|done]
    end;
    specialize (IH (S i));
    by destruct (normalize uuid now (S i) raws).
Qed.

(** X19.  On a store built through the API, POST /api/import/json with
    an array that holds no [null] always answers: either 400 with the
    store untouched, or 200 with counts that add up to the length of the
    array and a collection grown by [created] records.  A body that is
    not an array is answered 400. *)
Theorem import_answers (t : string) (s : store) (uuid : nat → string)
    (now : string) (clock : nat → string) :
  reachable any_request t s →
  (∀ raws, Forall (λ raw, raw ≠ JNull) raws →
     import_json s (JArr raws) uuid now clock = (BadRequest, s)
     ∨ ∃ c u s',
         import_json s (JArr raws) uuid now clock = (Imported c u, s')
         ∧ (c + u = length raws)%nat
         ∧ (length s' = length s + c)%nat)
  ∧ (∀ body, (∀ raws, body ≠ JArr raws) →
       import_json s body uuid now clock = (BadRequest, s)).
Proof.
  intros Hreach%reachable_well_formed. split.
  - intros raws Hraws. unfold import_json.
    pose proof (normalize_not_raised uuid now raws Hraws 0) as Hnr.
    destruct (normalize uuid now 0 raws) as [incoming| |] eqn:Hn;
      [|by left|done].
    right.
    destruct (importJson_returns s incoming clock) as [[s' [c u]] Hi].
    { eapply Forall_impl; [done|]. by intros b (_ & ? & _). }
    { eapply Forall_impl; [by eapply normalize_incoming|].
      by intros b (_ & ? & _). }
    rewrite Hi. exists c, u, s'. split; [done|].
    destruct (importJson_sums _ _ _ _ _ _ _ Hi) as (Hsum & Hlen).
    by rewrite <- (normalize_length _ _ _ _ _ Hn).
  - intros body Hbody. unfold import_json.
    destruct body as [| | | |raws|]; try done. by destruct (Hbody raws).
Qed.

Lemma normalize_app_null (uuid : nat → string) (now : string)
    (pre rest : Datatypes.list json) :
  ∀ i incoming, normalize uuid now i pre = Books incoming →
  normalize uuid now i (pre ++ JNull :: rest) = Raised.
Proof.
  induction pre as [|raw pre IH]; intros i incoming; cbn [normalize app].
  - done.
  - destruct (get_prop raw "id") as [raw_id|]; [|done].
    destruct (get_prop raw "createdAt") as [raw_createdAt|]; [|done].
    match goal with
    | |- context [validateNewBook ?o] =>
        destruct (validateNewBook o) as [[] b] eqn:Hv; cbn [negb]; [|done]
    end.
    destruct (normalize uuid now (S i) pre) as [bs| |] eqn:Hpre; try done.
    intros _. by rewrite (IH (S i) bs).
Qed.

(** X20.  An import whose array holds [null] after items that are all
    valid is not answered 400: reading [raw.id] raises, and the store is
    left as it was. *)
Theorem import_null_item_raises (s : store) (pre rest : Datatypes.list json)
    (incoming : Datatypes.list object) (uuid : nat → string) (now : string)
    (clock : nat → string) :
  normalize uuid now 0 pre = Books incoming →
  import_json s (JArr (pre ++ JNull :: rest)%list) uuid now clock
  = (Crashed, s)
  ∧ status Crashed = None.
Proof.
  intros Hpre. unfold import_json.
  by rewrite (normalize_app_null uuid now pre rest 0 incoming Hpre).
Qed.

End import_handler_answers.

(** ** Export, then import *)

Lemma import_loop_fresh (clock : nat → string)
    (array : Datatypes.list object) :
  ∀ i st,
    (∀ x, x ∈ array → isbnKey x ≠ "" → byIsbn st !! isbnKey x = None) →
    NoDup (List.filter nonempty (isbnKey <$> array)) →
    ∃ idx, import_loop true clock i array st
           = Some {| books := books st ++ array; byIsbn := idx;
                     created := created st + length array;
                     updated := updated st |}.
Proof.
  induction array as [|x array IH]; intros i st Hidx Hnd; simpl.
  - exists (byIsbn st). rewrite app_nil_r, Nat.add_0_r. by destruct st.
  - unfold import_step. cbn [andb].
    assert ((if nonempty (isbnKey x) then byIsbn st !! isbnKey x else None)
            = None) as ->.
    { destruct (nonempty (isbnKey x)) eqn:Hne; [|done].
      apply Hidx; [by left|by apply nonempty_true]. }
    cbn.
    match goal with
    | |- context [import_loop true clock (S i) array ?st1] =>
        destruct (IH (S i) st1) as [idx Hloop]
    end.
    + cbn. intros y Hy Hky.
      rewrite fmap_cons in Hnd. cbn [List.filter] in Hnd.
      destruct (nonempty (isbnKey x)) eqn:Hne.
      * apply NoDup_cons in Hnd as [Hnotin _].
        rewrite lookup_insert_ne.
        -- apply Hidx; [by right|done].
        -- intros Heq. apply Hnotin. rewrite Heq.
           apply elem_of_List_filter. split.
           ++ by apply list_elem_of_fmap_2.
           ++ by apply nonempty_true.
      * apply Hidx; [by right|done].
    + rewrite fmap_cons in Hnd. cbn [List.filter] in Hnd.
      destruct (nonempty (isbnKey x)); [|done].
      by apply NoDup_cons in Hnd as [_ ?].
    + exists idx. rewrite Hloop. cbn. rewrite <- app_assoc.
      do 2 f_equal. lia.
Qed.

Section export_import.
Context `{Formats}.

Lemma normalize_export (uuid : nat → string) (now : string) (s : store) :
  Forall conforms s →
  Forall (λ b, truthy (b !! "id") = true
               ∧ truthy (b !! "createdAt") = true) s →
  is_time now →
  ∀ i, normalize uuid now i (JObj <$> s)
       = Books ((λ b, <["updatedAt" := JStr now]> b) <$> s).
Proof.
  intros Hs Ht Hnow. induction s as [|b s IH]; intros i; [done|].
  apply Forall_cons in Hs as [Hb Hs]. apply Forall_cons in Ht as [[Hi Hc] Ht].
  rewrite !fmap_cons. cbn [normalize get_prop spread].
  unfold js_or. rewrite Hi, Hc.
  destruct (b !! "id") as [vi|] eqn:Hvi; [|done].
  destruct (b !! "createdAt") as [vc|] eqn:Hvc; [|done].
  cbn [set_prop]. rewrite (insert_id b "id") by done.
  rewrite (insert_id b "createdAt") by done.
  pose proof (conforms_touch b now Hb Hnow) as Hconf.
  unfold conforms in Hconf. rewrite Hconf. cbn [negb].
  by rewrite (IH Hs Ht).
Qed.

(** X21.  Export followed by import restores a collection: importing
    the body of GET /api/export/json into an empty store gives back the
    records, in their order and with their ids and createdAt, with
    updatedAt set to the time of the import, and reports every record as
    created.  This holds when the ISBNs of the records that have one are
    pairwise distinct once normalized, and no id or createdAt is the
    empty string. *)
Theorem export_then_import_restores (s : store) (uuid : nat → string)
    (now : string) (clock : nat → string) :
  Forall well_formed s →
  Forall (λ b, truthy (b !! "id") = true
               ∧ truthy (b !! "createdAt") = true) s →
  NoDup (List.filter nonempty (isbnKey <$> s)) →
  is_time now →
  import_json [] (export_json s) uuid now clock
  = (Imported (length s) 0,
     (λ b, <["updatedAt" := JStr now]> b) <$> s).
Proof.
  intros Hwf Ht Hnd Hnow. unfold export_json, exportJson, import_json.
  assert (Forall conforms s) as Hs.
  { eapply Forall_impl; [exact Hwf|]. by intros b [? _]. }
  rewrite (normalize_export uuid now s Hs Ht Hnow).
  set (array := (λ b, <["updatedAt" := JStr now]> b) <$> s).
  destruct (import_loop_fresh clock array 0
    {| books := []; byIsbn := index_by_isbn []; created := 0; updated := 0 |})
    as [idx Hloop].
  - intros x _ _. done.
  - assert (isbnKey <$> array = isbnKey <$> s) as ->; [|done].
    unfold array. rewrite <- list_fmap_compose. apply list_fmap_ext.
    intros _ b _. cbn. by apply isbnKey_insert.
  - unfold importJson. rewrite Hloop. cbn.
    unfold array. by rewrite length_fmap.
Qed.

End export_import.

(** ** tools/smoke-test.js *)

Lemma upsert_last (s : store) (r m : object) (i : string) :
  get s i = None → r !! "id" = Some (JStr i) → m !! "id" = Some (JStr i) →
  upsert (s ++ [r])%list m = (s ++ [m])%list.
Proof.
  intros Hfresh Hr Hm. rewrite get_None in Hfresh.
  induction s as [|b s IH].
  - unfold upsert. simpl. rewrite Hm.
    by rewrite (proj2 (has_id_str r i) Hr).
  - cbn [app]. rewrite upsert_cons, Hm.
    assert (has_id (Some (JStr i)) b = false) as ->.
    { apply not_true_iff_false. intros Hb%has_id_str.
      apply (Hfresh b); [by left|done]. }
    f_equal. apply IH. intros b' Hb'. apply Hfresh. by right.
Qed.

Lemma delete_last (s : store) (m : object) (i : string) :
  get s i = None → m !! "id" = Some (JStr i) →
  delete_book (s ++ [m])%list i = (NoContent, s).
Proof.
  intros Hfresh Hm. rewrite delete_book_eq. f_equal.
  - rewrite bool_decide_eq_false_2; [done|].
    rewrite get_None. intros Hno. apply (Hno m); [|done].
    apply elem_of_app. right. by left.
  - rewrite List.filter_app. simpl.
    rewrite (proj2 (has_id_str m i) Hm). simpl.
    rewrite app_nil_r. apply List_filter_id. intros b Hb.
    apply negb_true_iff, not_true_iff_false. intros Hb'%has_id_str.
    rewrite get_None in Hfresh. by apply Hfresh in Hb'.
Qed.

Lemma List_find_None {A} (f : A → bool) (l : Datatypes.list A) :
  (∀ x, x ∈ l → f x = false) → List.find f l = None.
Proof.
  induction l as [|a l IH]; intros Hall; simpl; [done|].
  rewrite Hall by by left. apply IH. intros x Hx. apply Hall. by right.
Qed.

Section smoke_test.
Context `{Formats} `{Conversions}.
Import SmokeTest.

Lemma book_conforms :
  format_ok FmtDate "1997-07-10" = true →
  format_ok FmtDate "2020-01-15" = true →
  conforms book.
Proof.
  intros Hd1 Hd2. apply conforms_iff. split_and!.
  - by eexists.
  - intros k v Hv.
    assert (k ∈ (map_to_list book).*1) as Hk.
    { apply list_elem_of_fmap. exists (k, v). split; [done|].
      by apply elem_of_map_to_list. }
    vm_compute in Hk.
    repeat (apply elem_of_cons in Hk as [->|Hk]); try done.
    by apply elem_of_nil in Hk.
  - unfold properties_ok. vm_compute in Hd1, Hd2. vm_compute.
    by rewrite Hd1, Hd2.
Qed.

Lemma stored_conforms (uuid now : string) :
  format_ok FmtDate "1997-07-10" = true →
  format_ok FmtDate "2020-01-15" = true →
  is_time now →
  conforms (stored uuid now).
Proof.
  intros Hd1 Hd2 Hnow. unfold stored.
  apply conforms_touch; [|done].
  eapply conforms_insert; [|reflexivity|by apply check_time].
  eapply conforms_insert; [by apply book_conforms|reflexivity|done].
Qed.

Lemma stored_id (uuid now : string) :
  stored uuid now !! "id" = Some (JStr uuid).
Proof.
  unfold stored. by rewrite !lookup_insert_ne, lookup_insert_eq by done.
Qed.

Lemma stored_matches (uuid now : string) :
  selected {| q := Some "Algorithms"; author := None; tag := None;
              beforePurchaseDate := None; afterPurchaseDate := None;
              sort := None; limit := 5; offset := 0 |}
    (stored uuid now) = true.
Proof.
  unfold selected, selected_as_written, effective.
  cbn [q author tag beforePurchaseDate afterPurchaseDate].
  assert (trimmed (Some "Algorithms") = Some "Algorithms") as ->
    by (vm_compute; reflexivity).
  cbn [trimmed bound when_given andb]. rewrite !andb_true_r.
  unfold matches_q, insensitive_includes.
  assert (text (stored uuid now)
          = "The Art of Computer Programming, Vol. 1 Addison-Wesley Donald E. Knuth CS Algorithms")
    as -> by (vm_compute; reflexivity).
  rewrite !toLowerCase_ascii by (vm_compute; reflexivity).
  vm_compute. reflexivity.
Qed.

Lemma post_creates (s : store) (uuid now : string) :
  format_ok FmtDate "1997-07-10" = true →
  format_ok FmtDate "2020-01-15" = true →
  is_time now →
  get s uuid = None →
  (∀ b, b ∈ s → isbnKey b ≠ "9780201558029") →
  post_book s (JObj book) uuid now
  = (Created (stored uuid now), (s ++ [stored uuid now])%list).
Proof.
  intros Hd1 Hd2 Hnow Hfresh Hisbn.
  pose proof (stored_conforms uuid now Hd1 Hd2 Hnow) as Hconf.
  destruct (post_book_valid s (JObj book) uuid now (stored uuid now) Hconf)
    as [_ ->].
  assert (isbnKey (spread (JObj book)) = "9780201558029") as ->
    by (vm_compute; reflexivity).
  cbn [nonempty bool_decide negb].
  assert (List.find (λ b, bool_decide (isbnKey b = "9780201558029"))
            (items (list s all_query)) = None) as Hfind.
  { apply List_find_None. intros b Hb.
    apply bool_decide_eq_false.
    destruct (list_page s all_query) as (_ & _ & _ & Hin); [done|done|].
    apply Hisbn. by apply Hin in Hb as [? _]. }
  assert (nonempty "9780201558029" = true) as -> by done.
  rewrite Hfind. f_equal.
  apply (upsert_fresh s _ uuid); [apply stored_id|done].
Qed.

(** X22.  The smoke test passes against every store that holds no book
    with the ISBN of its payload and no record with the id the server
    draws, and it leaves the store as it found it: the POST is answered
    201, the GET 200, the listing for q=Algorithms has at least one item,
    the PATCH is answered 200 with rating 5 and the DELETE 204. *)
Theorem smoke_test_passes (s : store) (uuid t_post t_patch : string) :
  is_time t_post → is_time t_patch →
  format_ok FmtDate "1997-07-10" = true →
  format_ok FmtDate "2020-01-15" = true →
  Number (JStr "5") = Some (Q2Qc (inject_Z 5)) →
  Number (JStr "0") = Some (Q2Qc (inject_Z 0)) →
  get s uuid = None →
  (∀ b, b ∈ s → isbnKey b ≠ "9780201558029") →
  run s uuid t_post t_patch = (Passed, s).
Proof.
  intros Hpost Hpatch Hd1 Hd2 Hn5 Hn0 Hfresh Hisbn. unfold run.
  rewrite (post_creates s uuid t_post) by done.
  set (r := stored uuid t_post). set (s1 := (s ++ [r])%list).
  assert (r !! "id" = Some (JStr uuid)) as Hrid by apply stored_id.
  assert (id_text r = uuid) as -> by (unfold id_text, str_field; by rewrite Hrid).
  assert (get s1 uuid = Some r) as Hget.
  { unfold s1. rewrite <- (upsert_fresh s r uuid) by done.
    by apply get_upsert. }
  unfold get_book at 1. rewrite Hget.
  (* the listing *)
  assert (list_books s1 list_params
          = Listed (list s1 {| q := Some "Algorithms"; author := None;
                     tag := None; beforePurchaseDate := None;
                     afterPurchaseDate := None; sort := None;
                     limit := 5; offset := 0 |})) as ->.
  { unfold list_books.
    assert (list_params !! "q" = Some (JStr "Algorithms")) as -> by done.
    assert (list_params !! "author" = None) as -> by done.
    assert (list_params !! "tag" = None) as -> by done.
    assert (list_params !! "beforePurchaseDate" = None) as -> by done.
    assert (list_params !! "afterPurchaseDate" = None) as -> by done.
    assert (list_params !! "sort" = None) as -> by done.
    assert (list_params !! "limit" = Some (JStr "5")) as -> by done.
    assert (list_params !! "offset" = Some (JStr "0")) as -> by done.
    cbn [number_or]. rewrite Hn5, Hn0.
    assert (validateListQuery
      {| query_q := Some (JStr "Algorithms"); query_author := None;
         query_tag := None; query_beforePurchaseDate := None;
         query_afterPurchaseDate := None; query_sort := None;
         query_limit := Some (Q2Qc (inject_Z 5));
         query_offset := Some (Q2Qc (inject_Z 0)) |} = true) as ->
      by (vm_compute; reflexivity).
    done. }
  match goal with
  | |- context [list s1 ?p] =>
      assert (items (list s1 p) ≠ []) as Hitems
  end.
  { unfold list. cbn [items offset limit].
    apply (slice_first_nonempty 5); [lia|].
    assert (r ∈ rows s1 {| q := Some "Algorithms"; author := None;
                     tag := None; beforePurchaseDate := None;
                     afterPurchaseDate := None; sort := None;
                     limit := 5; offset := 0 |}) as Hr.
    { apply rows_elem. split; [|apply stored_matches].
      apply elem_of_app. right. by left. }
    intros Hnil. rewrite Hnil in Hr. by apply elem_of_nil in Hr. }
  destruct (items (list s1 _)) as [|x xs]; [done|]. cbn [length Nat.ltb Nat.leb].
  (* the patch *)
  pose proof (stored_conforms uuid t_post Hd1 Hd2 Hpost) as Hconf.
  assert ((validatePatchBook (JObj patch)).1 = true) as Hvalid
    by (vm_compute; reflexivity).
  rewrite (patch_book_accepts s1 uuid r (JObj patch) t_patch Hget Hconf
             Hpatch Hvalid).
  assert ((validatePatchBook (JObj patch)).2 = JObj patch) as ->.
  { apply patch_body_unchanged. intros k v Hv.
    assert (k ∈ (map_to_list patch).*1) as Hk.
    { apply list_elem_of_fmap. exists (k, v). split; [done|].
      by apply elem_of_map_to_list. }
    vm_compute in Hk.
    repeat (apply elem_of_cons in Hk as [->|Hk]);
      try (vm_compute; reflexivity).
    exfalso. by apply elem_of_nil in Hk. }
  set (m := patch_merged r (JObj patch) t_patch).
  assert (m !! "rating" = Some (JNum (Q2Qc 5))) as Hrating.
  { unfold m, patch_merged. cbn [spread]. rewrite Hrid. cbn [set_prop].
    rewrite !lookup_insert_ne by done.
    by apply lookup_union_Some_l. }
  assert (m !! "id" = Some (JStr uuid)) as Hmid.
  { unfold m, patch_merged. cbn [spread]. rewrite Hrid. cbn [set_prop].
    by rewrite lookup_insert_ne, lookup_insert_eq by done. }
  rewrite Hrating. cbn [strict_eq]. rewrite bool_decide_eq_true_2 by done.
  cbn [negb].
  (* the delete *)
  unfold s1. rewrite (upsert_last s r m uuid) by done.
  by rewrite (delete_last s m uuid).
Qed.

(** X23.  The smoke test fails at its first step, with the store
    untouched, when a book with the ISBN of its payload is already in a
    collection of at most 50000 records, as after a run that stopped
    before its DELETE. *)
Theorem smoke_test_fails_on_leftover (s : store)
    (uuid t_post t_patch : string) :
  is_time t_post →
  format_ok FmtDate "1997-07-10" = true →
  format_ok FmtDate "2020-01-15" = true →
  Z.of_nat (length s) ≤ 50000 →
  (∃ b, b ∈ s ∧ isbnKey b = "9780201558029") →
  run s uuid t_post t_patch = (Failed "Create failed", s).
Proof.
  intros Hpost Hd1 Hd2 Hlen Hdup. unfold run.
  pose proof (stored_conforms uuid t_post Hd1 Hd2 Hpost) as Hconf.
  destruct (post_book_isbn s (JObj book) uuid t_post (stored uuid t_post))
    as [Hconflict _]; [done|by vm_compute|done|].
  destruct Hconflict as (b & _ & _ & ->); [|done].
  assert (isbnKey (spread (JObj book)) = "9780201558029") as ->
    by (vm_compute; reflexivity).
  done.
Qed.

End smoke_test.

(** ** Distinct ISBNs, and PUT twice *)

Lemma List_filter_sublist_mono {A} (f : A → bool) (l k : Datatypes.list A) :
  l `sublist_of` k → List.filter f l `sublist_of` List.filter f k.
Proof.
  induction 1 as [|x l k _ IH|x l k _ IH]; simpl; [done| |].
  - destruct (f x); [by apply sublist_skip|done].
  - destruct (f x); [by apply sublist_cons|done].
Qed.

Section distinct_isbns.
Context `{Formats}.

(** X24.  POST and DELETE keep the normalized ISBNs of a collection
    pairwise distinct: if no two records of the store share a non-empty
    normalized ISBN, the same holds after a POST on a store of at most
    50000 records (the id drawn being new) and after a DELETE. *)
Theorem post_and_delete_keep_isbns_distinct (s : store) :
  NoDup (List.filter nonempty (isbnKey <$> s)) →
  (∀ body uuid now,
     Z.of_nat (length s) ≤ 50000 → get s uuid = None →
     NoDup (List.filter nonempty
              (isbnKey <$> (post_book s body uuid now).2)))
  ∧ (∀ id,
       NoDup (List.filter nonempty (isbnKey <$> (delete_book s id).2))).
Proof.
  intros Hnd. split.
  - intros body uuid now Hlen Hfresh.
    destruct (post_book_cases s body uuid now) as [->|[r Hp]]; [done|].
    pose proof (post_book_stamps _ _ _ _ _ _ Hp) as (Hid & _).
    pose proof Hp as [Hv _]%post_book_created.
    destruct (post_book_valid s body uuid now r Hv) as [Hkey Hcase].
    rewrite Hp. cbn [snd]. rewrite (upsert_fresh s r uuid) by done.
    rewrite fmap_app, List.filter_app. cbn [fmap list_fmap List.filter].
    destruct (nonempty (isbnKey r)) eqn:Hne; [|by rewrite app_nil_r].
    apply NoDup_app. split_and!; [done| |apply NoDup_singleton].
    intros k [(b & -> & Hb)%list_elem_of_fmap _]%elem_of_List_filter
      Hk%list_elem_of_singleton.
    rewrite Hp, <- Hkey, Hne in Hcase.
    destruct (List.find _ _) as [d|] eqn:Hfind; [done|].
    assert (b ∈ items (list s all_query)) as Hitem
      by (by rewrite (items_all s Hlen)).
    apply list_elem_of_In in Hitem.
    pose proof (List.find_none _ _ Hfind b Hitem) as Hno. cbn in Hno.
    apply bool_decide_eq_false in Hno. by rewrite Hk in Hno.
  - intros id. rewrite delete_book_eq. cbn [snd].
    eapply sublist_NoDup; [exact Hnd|].
    apply List_filter_sublist_mono, fmap_sublist, List_filter_sublist.
Qed.

(** X25.  PUT is idempotent up to the time stamp: after a PUT answered
    200, the same PUT again is answered 200 with the same record, its
    updatedAt moved to the time of the second request, and the ids of the
    collection are as they were. *)
Theorem put_twice (s s1 : store) (id : string) (body : json)
    (now1 now2 : string) (r1 : object) :
  put_book s id body now1 = (Ok r1, s1) → is_time now2 →
  put_book s1 id body now2
  = (Ok (<["updatedAt" := JStr now2]> r1),
     upsert s1 (<["updatedAt" := JStr now2]> r1))
  ∧ get_book (upsert s1 (<["updatedAt" := JStr now2]> r1)) id
    = Ok (<["updatedAt" := JStr now2]> r1)
  ∧ ids (upsert s1 (<["updatedAt" := JStr now2]> r1)) = ids s.
Proof.
  intros Hput Hnow.
  destruct (put_book_stamps _ _ _ _ _ _ Hput) as (B & HB & -> & Hid & Hc & _).
  pose proof HB as [_ HBid]%get_Some.
  pose proof (get_upsert s r1 id Hid) as Hget1.
  set (r2 := <["updatedAt" := JStr now2]> r1).
  assert (r2 !! "id" = Some (JStr id)) as Hid2
    by (unfold r2; by rewrite lookup_insert_ne).
  assert (put_book (upsert s r1) id body now2 = (Ok r2, upsert (upsert s r1) r2))
    as Hput2.
  { unfold put_book in Hput. rewrite HB in Hput.
    match type of Hput with
    | context [validateNewBook (<["updatedAt" := _]> ?x)] => set (X := x) in *
    end.
    destruct (validateNewBook (<["updatedAt" := JStr now1]> X))
      as [v m] eqn:Hv.
    destruct v; cbn [negb] in Hput; [|done].
    injection Hput as -> _.
    apply validateNewBook_accepts in Hv as [Hm Hconf].
    unfold put_book. rewrite Hget1, Hc, Hid, <- HBid. fold X.
    assert (strip bookSchema (<["updatedAt" := JStr now2]> X) = r2) as Hr2.
    { unfold r2. rewrite Hm, !strip_insert by done.
      by rewrite insert_insert_eq. }
    assert (validateNewBook (<["updatedAt" := JStr now2]> X) = (true, r2))
      as ->; [|done].
    pose proof (conforms_touch r1 now2 Hconf Hnow) as Hconf2. fold r2 in Hconf2.
    unfold conforms, validateNewBook, validate_object in Hconf2.
    injection Hconf2 as Hok _.
    unfold validateNewBook, validate_object. rewrite Hr2. f_equal.
    by rewrite <- Hr2, required_ok_strip_book, properties_ok_strip in Hok. }
  split; [done|]. split.
  - unfold get_book. by rewrite (get_upsert _ r2 id Hid2).
  - rewrite (ids_upsert_existing _ r2 r1 id Hget1 Hid2).
    by apply (ids_upsert_existing s r1 B id).
Qed.

End distinct_isbns.

End language_more.

(** * The further properties on sample stores *)

Section more_samples.
Import Samples Iso SmokeTest.

Ltac evaluate :=
  lazymatch goal with
  | |- ?x = ?y => exact (eq_refl y <: x = y)
  end.

Lemma upsert_then_get_witness :
  knuth_stored !! "id" = Some (JStr "id-1")
  ∧ get (upsert shelf knuth_stored) "id-1" = Some knuth_stored
  ∧ get (upsert shelf knuth_stored) "id-2" = get shelf "id-2"
  ∧ length (upsert shelf knuth_stored) = 7%nat.
Proof.
  assert (Hid : knuth_stored !! "id" = Some (JStr "id-1")) by evaluate.
  destruct (upsert_then_get shelf knuth_stored "id-1" Hid)
    as (Hget & Hother & Hlen).
  split; [exact Hid|]. split; [exact Hget|].
  split; [apply Hother; discriminate|].
  rewrite Hlen. evaluate.
Defined.

Lemma post_then_delete_witness :
  post_book shelf (JObj knuth) "id-9" t1
  = (Created (stored "id-9" t1), (shelf ++ [stored "id-9" t1])%list)
  ∧ get shelf "id-9" = None
  ∧ delete_book (shelf ++ [stored "id-9" t1])%list "id-9"
    = (NoContent, shelf).
Proof.
  assert (Hpost : post_book shelf (JObj knuth) "id-9" t1
    = (Created (stored "id-9" t1), (shelf ++ [stored "id-9" t1])%list))
    by evaluate.
  assert (Hfresh : get shelf "id-9" = None) by evaluate.
  split; [exact Hpost|]. split; [exact Hfresh|].
  exact (post_then_delete _ _ _ _ _ _ Hpost Hfresh).
Defined.

Lemma put_replaces_record_witness :
  put_book [knuth_stored] "id-1" (JObj with_shelf) t1
  = (Ok replaced, [replaced])
  ∧ get_book [replaced] "id-1" = Ok replaced
  ∧ knuth_stored !! "publisher" = Some (JStr "Addison-Wesley")
  ∧ replaced !! "publisher" = None
  ∧ replaced !! "createdAt" = Some (JStr t0)
  ∧ replaced !! "updatedAt" = Some (JStr t1).
Proof.
  assert (Hput : put_book [knuth_stored] "id-1" (JObj with_shelf) t1
                 = (Ok replaced, [replaced])) by evaluate.
  destruct (put_replaces_record _ _ _ _ _ _ Hput)
    as (B & HB & Hget & Hcontent & _ & _ & Hupdated & _).
  split; [exact Hput|]. split; [exact Hget|]. split; [evaluate|].
  split; [|split; [evaluate|exact Hupdated]].
  rewrite Hcontent; [evaluate|].
  unfold system_fields. intros Hin.
  repeat (apply elem_of_cons in Hin as [Hin|Hin]; [discriminate Hin|]).
  by apply elem_of_nil in Hin.
Defined.

Lemma patch_rejected_only_by_patch_schema_witness :
  reachable any_request t0 [knuth_stored]
  ∧ get [knuth_stored] "id-1" = Some knuth_stored
  ∧ is_time t1
  ∧ (validatePatchBook (JObj rated)).1 = true
  ∧ patch_book [knuth_stored] "id-1" (JObj rated) t1
    = (Ok (patch_merged knuth_stored (validatePatchBook (JObj rated)).2 t1),
       upsert [knuth_stored]
         (patch_merged knuth_stored (validatePatchBook (JObj rated)).2 t1))
  ∧ patch_book [knuth_stored] "id-1" (JObj rating_six) t1
    = (BadRequest, [knuth_stored]).
Proof.
  assert (Hreach : reachable any_request t0 [knuth_stored])
    by (apply knuth_reachable; exact I).
  assert (Hget : get [knuth_stored] "id-1" = Some knuth_stored) by evaluate.
  assert (Hnow : is_time t1) by (unfold is_time; evaluate).
  assert (Hvalid : (validatePatchBook (JObj rated)).1 = true) by evaluate.
  assert (Hbad : (validatePatchBook (JObj rating_six)).1 = false)
    by evaluate.
  split; [exact Hreach|]. split; [exact Hget|]. split; [exact Hnow|].
  split; [exact Hvalid|].
  split.
  - exact (proj2 (proj2 (patch_rejected_only_by_patch_schema t0
      [knuth_stored] "id-1" knuth_stored (JObj rated) t1 Hreach Hget Hnow)
      Hvalid)).
  - exact (proj1 (patch_rejected_only_by_patch_schema t0
      [knuth_stored] "id-1" knuth_stored (JObj rating_six) t1 Hreach Hget
      Hnow) Hbad).
Defined.

Lemma patch_changes_named_properties_witness :
  reachable any_request t0 [knuth_stored]
  ∧ get [knuth_stored] "id-1" = Some knuth_stored
  ∧ patch_book [knuth_stored] "id-1" (JObj rated) t1
    = (Ok knuth_patched, [knuth_patched])
  ∧ knuth_patched !! "rating" = Some (JNum (Q2Qc 5))
  ∧ knuth_patched !! "readStatus" = Some (JStr "Finished")
  ∧ knuth_patched !! "publisher" = knuth_stored !! "publisher"
  ∧ knuth_patched !! "createdAt" = knuth_stored !! "createdAt"
  ∧ get_book [knuth_patched] "id-1" = Ok knuth_patched.
Proof.
  assert (Hreach : reachable any_request t0 [knuth_stored])
    by (apply knuth_reachable; exact I).
  assert (Hget : get [knuth_stored] "id-1" = Some knuth_stored) by evaluate.
  assert (Hpatch : patch_book [knuth_stored] "id-1" (JObj rated) t1
                   = (Ok knuth_patched, [knuth_patched])) by evaluate.
  destruct (patch_changes_named_properties t0 _ _ _ _ _ _ _ Hreach Hget
              Hpatch) as (_ & Hprops & Hread & _).
  split; [exact Hreach|]. split; [exact Hget|]. split; [exact Hpatch|].
  split; [rewrite Hprops by discriminate; evaluate|].
  split; [rewrite Hprops by discriminate; evaluate|].
  split; [rewrite Hprops by discriminate; evaluate|].
  split; [rewrite Hprops by discriminate; evaluate|].
  exact Hread.
Defined.

Lemma list_page_bounds_witness :
  0 ≤ offset (paged (query None) 5 5)
  ∧ 0 ≤ limit (paged (query None) 5 5)
  ∧ Z.of_nat (length (items (list shelf (paged (query None) 5 5)))) = 2
  ∧ (total (list shelf (paged (query None) 5 5)) ≤ length shelf)%nat
  ∧ items (list shelf (paged (query None) 5 7)) = [].
Proof.
  assert (Hoff : 0 ≤ offset (paged (query None) 5 5)) by (simpl; lia).
  assert (Hlim : 0 ≤ limit (paged (query None) 5 5)) by (simpl; lia).
  destruct (list_page_bounds shelf (paged (query None) 5 5) Hoff Hlim)
    as (_ & Hlen & Htot & _ & _).
  split; [exact Hoff|]. split; [exact Hlim|].
  split; [rewrite Hlen; evaluate|]. split; [exact Htot|].
  assert (Hoff' : 0 ≤ offset (paged (query None) 5 7)) by (simpl; lia).
  assert (Hlim' : 0 ≤ limit (paged (query None) 5 7)) by (simpl; lia).
  destruct (list_page_bounds shelf (paged (query None) 5 7) Hoff' Hlim')
    as (_ & _ & _ & _ & Hpast).
  apply Hpast.
  assert (Z.of_nat (total (list shelf (paged (query None) 5 7))) = 7)
    as -> by evaluate.
  simpl. lia.
Defined.

Lemma list_books_page_witness :
  list_books shelf second_page
  = Listed {| total := 7; items := volume <$> seq 5 2 |}
  ∧ as_integer (number_or (second_page !! "limit") 50) = 5
  ∧ as_integer (number_or (second_page !! "offset") 0) = 5
  ∧ (length (volume <$> seq 5 2) ≤ 500)%nat
  ∧ (∀ b, b ∈ volume <$> seq 5 2 → b ∈ shelf).
Proof.
  assert (Hlist : list_books shelf second_page
                  = Listed {| total := 7; items := volume <$> seq 5 2 |})
    by evaluate.
  destruct (list_books_page shelf second_page _ Hlist)
    as (_ & _ & _ & _ & _ & Hmax & _ & Hin & _).
  split; [exact Hlist|]. split; [evaluate|]. split; [evaluate|].
  split; [exact Hmax|exact Hin].
Defined.

Lemma list_books_rejects_witness :
  number_or (oversized !! "limit") 50 = Some (Q2Qc (inject_Z 501))
  ∧ list_books shelf oversized = InvalidQuery.
Proof.
  assert (Hlimit : number_or (oversized !! "limit") 50
                   = Some (Q2Qc (inject_Z 501))) by evaluate.
  split; [exact Hlimit|].
  destruct (list_books_rejects shelf oversized)
    as (_ & _ & _ & _ & _ & Hrange & _).
  apply (Hrange 501 Hlimit). right. reflexivity.
Defined.

Lemma listed_tag_finds_a_record_witness :
  (get_tags [knuth_stored]).2 = ["Algorithms"; "CS"]
  ∧ trim "CS" = "CS"
  ∧ ∃ result,
      list_books [knuth_stored] {["tag" := JStr "CS"]} = Listed result
      ∧ (1 ≤ total result)%nat
      ∧ items result ≠ [].
Proof.
  assert (Htags : (get_tags [knuth_stored]).2 = ["Algorithms"; "CS"])
    by evaluate.
  assert (Htrim : trim "CS" = "CS") by evaluate.
  assert (Hin : "CS" ∈ (get_tags [knuth_stored]).2).
  { rewrite Htags. apply elem_of_cons. right. apply elem_of_cons. by left. }
  split; [exact Htags|]. split; [exact Htrim|].
  destruct (listed_tag_finds_a_record [knuth_stored] "CS" Hin Htrim)
    as (result & Hlist & Htotal & Hitems & _).
  exists result. split; [exact Hlist|]. split; [exact Htotal|exact Hitems].
Defined.

Lemma stored_isbn_key_chars_witness :
  conforms knuth_stored
  ∧ isbnKey knuth_stored = "9780201558029"
  ∧ all_chars (λ c, is_digit c || Ascii.eqb c "X") (isbnKey knuth_stored)
    = true.
Proof.
  assert (Hconf : conforms knuth_stored) by (unfold conforms; evaluate).
  split; [exact Hconf|]. split; [evaluate|].
  exact (stored_isbn_key_chars knuth_stored Hconf).
Defined.

Lemma stored_records_are_valid_witness :
  reachable any_request t0 [knuth_stored]
  ∧ well_formed knuth_stored
  ∧ ∃ title, knuth_stored !! "title" = Some (JStr title) ∧ title ≠ "".
Proof.
  assert (Hreach : reachable any_request t0 [knuth_stored])
    by (apply knuth_reachable; exact I).
  split; [exact Hreach|].
  pose proof (stored_records_are_valid t0 [knuth_stored] Hreach) as Hall.
  apply Forall_inv in Hall. destruct Hall as (Hwf & Htitle & _).
  split; [exact Hwf|exact Htitle].
Defined.

Lemma import_answers_witness :
  reachable any_request t0 [knuth_stored]
  ∧ Forall (λ raw, raw ≠ JNull) batch_raw
  ∧ import_json [knuth_stored] (JArr batch_raw) numbered t1 (λ _, t1)
    ≠ (Crashed, [knuth_stored])
  ∧ import_json [knuth_stored] (JNum (Q2Qc 5)) numbered t1 (λ _, t1)
    = (BadRequest, [knuth_stored]).
Proof.
  assert (Hreach : reachable any_request t0 [knuth_stored])
    by (apply knuth_reachable; exact I).
  assert (Hraws : Forall (λ raw, raw ≠ JNull) batch_raw)
    by (repeat constructor; discriminate).
  destruct (import_answers t0 [knuth_stored] numbered t1 (λ _, t1) Hreach)
    as [Harray Hother].
  split; [exact Hreach|]. split; [exact Hraws|]. split.
  - destruct (Harray batch_raw Hraws) as [->|(c & u & s' & -> & _)];
      discriminate.
  - apply Hother. discriminate.
Defined.

Lemma import_null_item_raises_witness :
  normalize numbered t0 0 [JObj knuth] = Books [knuth_imported]
  ∧ import_json [knuth_stored] (JArr [JObj knuth; JNull]) numbered t0
      (λ _, t0)
    = (Crashed, [knuth_stored]).
Proof.
  assert (Hpre : normalize numbered t0 0 [JObj knuth]
                 = Books [knuth_imported]) by evaluate.
  split; [exact Hpre|].
  exact (proj1 (import_null_item_raises [knuth_stored] [JObj knuth] []
                  [knuth_imported] numbered t0 (λ _, t0) Hpre)).
Defined.

Lemma library_well_formed : Forall well_formed library.
Proof.
  unfold library. apply Forall_cons. split; [|apply Forall_cons; split].
  - apply well_formed_intro; [unfold conforms; evaluate|..].
    + exists (JStr "id-1"). evaluate.
    + exists (JStr t0). evaluate.
    + exists (JStr t0). evaluate.
  - apply well_formed_intro; [unfold conforms; evaluate|..].
    + exists (JStr "id-2"). evaluate.
    + exists (JStr t0). evaluate.
    + exists (JStr t0). evaluate.
  - apply Forall_nil_2.
Qed.

Lemma export_then_import_restores_witness :
  Forall well_formed library
  ∧ Forall (λ b, truthy (b !! "id") = true
                 ∧ truthy (b !! "createdAt") = true) library
  ∧ NoDup (List.filter nonempty (isbnKey <$> library))
  ∧ is_time t1
  ∧ import_json [] (export_json library) numbered t1 (λ _, t1)
    = (Imported 2 0, (λ b, <["updatedAt" := JStr t1]> b) <$> library).
Proof.
  assert (Htruthy : Forall (λ b, truthy (b !! "id") = true
                 ∧ truthy (b !! "createdAt") = true) library)
    by (repeat constructor; evaluate).
  assert (Hkeys : List.filter nonempty (isbnKey <$> library)
                  = ["9780201558029"]) by evaluate.
  assert (Hnd : NoDup (List.filter nonempty (isbnKey <$> library)))
    by (rewrite Hkeys; apply NoDup_singleton).
  assert (Hnow : is_time t1) by (unfold is_time; evaluate).
  split; [exact library_well_formed|]. split; [exact Htruthy|].
  split; [exact Hnd|]. split; [exact Hnow|].
  exact (export_then_import_restores library numbered t1 (λ _, t1)
           library_well_formed Htruthy Hnd Hnow).
Defined.

Lemma shelf_has_no_isbn (b : object) :
  b ∈ shelf → isbnKey b ≠ "9780201558029".
Proof.
  unfold shelf. cbn [fmap list_fmap seq]. intros Hb.
  repeat (apply elem_of_cons in Hb as [->|Hb]);
    [..|by apply elem_of_nil in Hb]; by vm_compute.
Qed.

Lemma smoke_test_passes_witness :
  is_time t0 ∧ is_time t1
  ∧ get shelf "id-9" = None
  ∧ run shelf "id-9" t0 t1 = (Passed, shelf).
Proof.
  assert (Ht0 : is_time t0) by (unfold is_time; evaluate).
  assert (Ht1 : is_time t1) by (unfold is_time; evaluate).
  assert (Hfresh : get shelf "id-9" = None) by evaluate.
  split; [exact Ht0|]. split; [exact Ht1|]. split; [exact Hfresh|].
  apply (smoke_test_passes shelf "id-9" t0 t1 Ht0 Ht1);
    [evaluate|evaluate|evaluate|evaluate|exact Hfresh|].
  exact shelf_has_no_isbn.
Defined.

Lemma smoke_test_fails_on_leftover_witness :
  is_time t1
  ∧ knuth_stored ∈ [knuth_stored]
  ∧ isbnKey knuth_stored = "9780201558029"
  ∧ run [knuth_stored] "id-9" t1 t1 = (Failed "Create failed", [knuth_stored]).
Proof.
  assert (Ht1 : is_time t1) by (unfold is_time; evaluate).
  assert (Hkey : isbnKey knuth_stored = "9780201558029") by evaluate.
  assert (Hin : knuth_stored ∈ [knuth_stored]) by (apply elem_of_cons; by left).
  split; [exact Ht1|]. split; [exact Hin|]. split; [exact Hkey|].
  apply (smoke_test_fails_on_leftover [knuth_stored] "id-9" t1 t1 Ht1);
    [evaluate|evaluate|simpl; lia|].
  exists knuth_stored. split; [exact Hin|exact Hkey].
Defined.

Lemma post_and_delete_keep_isbns_distinct_witness :
  NoDup (List.filter nonempty (isbnKey <$> library))
  ∧ Z.of_nat (length library) ≤ 50000
  ∧ get library "id-9" = None
  ∧ NoDup (List.filter nonempty
      (isbnKey <$>
         (post_book library (JObj (item "K&R" "x" (Some "0131103628")))
            "id-9" t1).2))
  ∧ NoDup (List.filter nonempty
      (isbnKey <$> (delete_book library "id-1").2)).
Proof.
  assert (Hkeys : List.filter nonempty (isbnKey <$> library)
                  = ["9780201558029"]) by evaluate.
  assert (Hnd : NoDup (List.filter nonempty (isbnKey <$> library)))
    by (rewrite Hkeys; apply NoDup_singleton).
  assert (Hlen : Z.of_nat (length library) ≤ 50000) by (simpl; lia).
  assert (Hfresh : get library "id-9" = None) by evaluate.
  destruct (post_and_delete_keep_isbns_distinct library Hnd)
    as [Hpost Hdelete].
  split; [exact Hnd|]. split; [exact Hlen|]. split; [exact Hfresh|].
  split; [exact (Hpost _ "id-9" t1 Hlen Hfresh)|exact (Hdelete "id-1")].
Defined.

Lemma put_twice_witness :
  put_book [knuth_stored] "id-1" (JObj with_shelf) t1
  = (Ok replaced, [replaced])
  ∧ is_time far
  ∧ put_book [replaced] "id-1" (JObj with_shelf) far
    = (Ok (<["updatedAt" := JStr far]> replaced),
       upsert [replaced] (<["updatedAt" := JStr far]> replaced)).
Proof.
  assert (Hput : put_book [knuth_stored] "id-1" (JObj with_shelf) t1
                 = (Ok replaced, [replaced])) by evaluate.
  assert (Hfar : is_time far) by (unfold is_time; evaluate).
  split; [exact Hput|]. split; [exact Hfar|].
  exact (proj1 (put_twice _ _ _ _ _ _ _ Hput Hfar)).
Defined.

(** The tags come in the order of their UTF-16 code units: U+1F600 (D83D
    DE00) before U+FF21. *)
Lemma tags_in_code_unit_order :
  get_tags wide = (2%nat, [grinning_face; fullwidth_a])
  ∧ string_lt grinning_face fullwidth_a = true
  ∧ String.ltb fullwidth_a grinning_face = true.
Proof. split_and!; evaluate. Qed.

(** A tag that begins with a no-break space is listed, and selects
    nothing: the listing looks for the tag without the space. *)
Lemma tag_with_nbsp_is_trimmed :
  get_tags [titled "T" "id-1" [nbsp ++ "x"]] = (1%nat, [nbsp ++ "x"])
  ∧ trim (nbsp ++ "x") = "x"
  ∧ list_books [titled "T" "id-1" [nbsp ++ "x"]]
      {["tag" := JStr (nbsp ++ "x")]}
    = Listed {| total := 0; items := [] |}.
Proof. split_and!; evaluate. Qed.

End more_samples.
